(** * Web-memory agent: vector search, embedding fallback, chunking and
      plan execution

    A shallow embedding of the JavaScript sources:
    - [MemoryManager] ([cosineSimilarity], [search]),
    - [EmbeddingService.getEmbedding] (provider fallback),
    - the 3072D Gemini embedding service ([getGemini3072DEmbedding],
      [getChunked3072DEmbedding], [average3072DEmbeddings]),
    - [DecisionModule] ([decideNextAction], [getNextStepId],
      [handleStepError]) and [Agent.executePlan].

    Numbers.  A JavaScript number is an IEEE double.  The embedding keeps
    the two kinds of value the code can tell apart, a finite number and
    [NaN], and idealises the finite ones as real numbers: no rounding, no
    overflow.  Promises are modelled by their outcome, [Resolved] or
    [Rejected]. *)

From Stdlib Require Import String Ascii.
From Stdlib Require Import Reals Lra Lia Bool Arith NArith ZArith List Sorted
  Permutation.
Import ListNotations.

(** ** Numbers *)

Module JsNum.

Inductive jsnum : Type :=
| NaN : jsnum
| Fin : R -> jsnum.

Definition zero : jsnum := Fin 0%R.

Definition add (a b : jsnum) : jsnum :=
  match a, b with
  | Fin x, Fin y => Fin (x + y)
  | _, _ => NaN
  end.

Definition sub (a b : jsnum) : jsnum :=
  match a, b with
  | Fin x, Fin y => Fin (x - y)
  | _, _ => NaN
  end.

Definition mul (a b : jsnum) : jsnum :=
  match a, b with
  | Fin x, Fin y => Fin (x * y)
  | _, _ => NaN
  end.

(** [a / b].  The embedded code guards each of its divisions, so the
    divisor is never zero there; a quotient by zero (an infinity or [NaN]
    in JavaScript) is outside the idealisation and mapped to [NaN]. *)
Definition div (a b : jsnum) : jsnum :=
  match a, b with
  | Fin x, Fin y => if Req_dec_T y 0 then NaN else Fin (x / y)
  | _, _ => NaN
  end.

(** [Math.sqrt]. *)
Definition sqrt (a : jsnum) : jsnum :=
  match a with
  | Fin x => if Rlt_dec x 0 then NaN else Fin (R_sqrt.sqrt x)
  | NaN => NaN
  end.

(** [a === b] on numbers: [NaN] equals nothing. *)
Definition eqb (a b : jsnum) : bool :=
  match a, b with
  | Fin x, Fin y => if Req_dec_T x y then true else false
  | _, _ => false
  end.

(** [a >= b]: false as soon as one side is [NaN]. *)
Definition geb (a b : jsnum) : bool :=
  match a, b with
  | Fin x, Fin y => if Rle_dec y x then true else false
  | _, _ => false
  end.

(** [a > b]. *)
Definition gtb (a b : jsnum) : bool :=
  match a, b with
  | Fin x, Fin y => if Rlt_dec y x then true else false
  | _, _ => false
  end.

Definition is_fin (a : jsnum) : Prop :=
  match a with Fin _ => True | NaN => False end.

(** The order of finite numbers, as a proposition. *)
Definition ge (a b : jsnum) : Prop :=
  match a, b with
  | Fin x, Fin y => (y <= x)%R
  | _, _ => False
  end.

Definition jsnum_eq_dec (a b : jsnum) : {a = b} + {a <> b}.
Proof.
  destruct a as [|x], b as [|y].
  - now left.
  - now right.
  - now right.
  - destruct (Req_dec_T x y) as [E|E].
    + left; now subst.
    + right; intros H; inversion H; contradiction.
Defined.

End JsNum.

Import JsNum.

(** A [Float32Array] or a plain array of numbers. *)
Definition vec : Type := list jsnum.

(** [v[i]]: reading past the end gives [undefined], which is [NaN] in
    arithmetic. *)
Definition idx (v : vec) (i : nat) : jsnum := nth i v NaN.

(** The dimension the memory manager hard-codes. *)
Definition DIM : nat := 3072.

(** ** Strings *)

(** A JavaScript string is a sequence of UTF-16 code units.  Identifiers
    (memory ids, step ids, type names), which the code only compares, stay
    Rocq strings. *)
Module JsString.

Definition jsstring : Type := list N.

Definition of_string (s : string) : jsstring :=
  map N_of_ascii (list_ascii_of_string s).

(** [s.length]. *)
Definition jslength (s : jsstring) : N := N.of_nat (length s).

Definition is_high_surrogate (c : N) : bool :=
  ((55296 <=? c) && (c <=? 56319))%N.

Definition is_low_surrogate (c : N) : bool :=
  ((56320 <=? c) && (c <=? 57343))%N.

(** [new Blob([s]).size]: the length of the UTF-8 encoding, a lone
    surrogate being encoded as U+FFFD. *)
Fixpoint blob_size (s : jsstring) : N :=
  match s with
  | [] => 0
  | c :: rest =>
      if (c <? 128)%N then 1 + blob_size rest
      else if (c <? 2048)%N then 2 + blob_size rest
      else if is_high_surrogate c then
        match rest with
        | d :: rest' =>
            if is_low_surrogate d then 4 + blob_size rest'
            else 3 + blob_size rest
        | [] => 3
        end
      else 3 + blob_size rest
  end%N.

(** White space and line terminators, as [String.prototype.trim] sees
    them. *)
Definition is_space (c : N) : bool :=
  (((9 <=? c) && (c <=? 13)) || (c =? 32) || (c =? 160) || (c =? 5760)
   || ((8192 <=? c) && (c <=? 8202)) || (c =? 8232) || (c =? 8233)
   || (c =? 8239) || (c =? 8287) || (c =? 12288) || (c =? 65279))%N.

Fixpoint trim_start (s : jsstring) : jsstring :=
  match s with
  | [] => []
  | c :: rest => if is_space c then trim_start rest else s
  end.

(** The units of [s] in reverse order, in linear time. *)
Definition reversed (s : jsstring) : jsstring := rev_append s [].

(** [s.trim()]. *)
Definition trim (s : jsstring) : jsstring :=
  reversed (trim_start (reversed (trim_start s))).

(** The characters of the class [[.!?]]. *)
Definition is_terminator (c : N) : bool :=
  ((c =? 46) || (c =? 33) || (c =? 63))%N.

(** [s.split(/[.!?]+/)]: [piece] is the current piece, reversed;
    [in_run] tells that the previous unit belonged to a separator. *)
Fixpoint split_aux (s : jsstring) (piece : jsstring) (in_run : bool)
  : list jsstring :=
  match s with
  | [] => [reversed piece]
  | c :: rest =>
      if is_terminator c then
        if in_run then split_aux rest [] true
        else reversed piece :: split_aux rest [] true
      else split_aux rest (c :: piece) false
  end.

Definition split_sentences (s : jsstring) : list jsstring :=
  split_aux s [] false.

End JsString.

Import JsString.

(** ** Outcome of a promise *)

Inductive outcome (A : Type) : Type :=
| Resolved : A -> outcome A
| Rejected : string -> outcome A.
Arguments Resolved {A} _.
Arguments Rejected {A} _.

(** ** MemoryManager.cosineSimilarity *)

(** One turn of the [for] loop: the accumulators are
    [(dotProduct, normA, normB)]. *)
Definition cos_step (vecA vecB : vec) (acc : jsnum * jsnum * jsnum) (i : nat)
  : jsnum * jsnum * jsnum :=
  let '(dotProduct, normA, normB) := acc in
  (add dotProduct (mul (idx vecA i) (idx vecB i)),
   add normA (mul (idx vecA i) (idx vecA i)),
   add normB (mul (idx vecB i) (idx vecB i))).

(** The loop, run for [i] from 0 to [n - 1]. *)
Definition cos_loop (vecA vecB : vec) (n : nat) : jsnum * jsnum * jsnum :=
  fold_left (cos_step vecA vecB) (seq 0 n) (zero, zero, zero).

(** The two lines after the loop. *)
Definition cos_finish (acc : jsnum * jsnum * jsnum) : jsnum :=
  let '(dotProduct, normA, normB) := acc in
  let magnitude := mul (sqrt normA) (sqrt normB) in
  if eqb magnitude zero then zero else div dotProduct magnitude.

(** [MemoryManager.cosineSimilarity] (class version). *)
Definition cosineSimilarity (vecA vecB : vec) : jsnum :=
  if negb (length vecA =? length vecB) || negb (length vecA =? DIM)
  then zero
  else cos_finish (cos_loop vecA vecB DIM).

(** [memoryManager.cosineSimilarity] of the background script: the same
    body behind two guards. *)
Definition cosineSimilarity_bg (vecA vecB : vec) : jsnum :=
  if negb (length vecA =? length vecB) then zero
  else if negb (length vecA =? DIM) || negb (length vecB =? DIM) then zero
  else cos_finish (cos_loop vecA vecB DIM).

(** The opposite vector [-v]. *)
Definition vneg (v : list R) : list R := map Ropp v.

(** Lift a list of reals to a vector of finite numbers. *)
Definition fin_vec (v : list R) : vec := map Fin v.

(** The sum of [f 0], ..., [f (n - 1)], in the order of the loop. *)
Fixpoint psum (f : nat -> R) (n : nat) : R :=
  match n with
  | O => 0
  | S k => psum f k + f k
  end.

(** The vector of 3072 ones. *)
Definition ones : list R := repeat 1%R DIM.

(** Closeness up to a tolerance; [NaN] is close to nothing. *)
Definition approx (eps : R) (a : jsnum) (target : R) : Prop :=
  match a with
  | Fin x => (Rabs (x - target) <= eps)%R
  | NaN => False
  end.

(** ** MemoryManager.search

    The class [MemoryManager] and the [memoryManager] object of the
    background script have the same [search], word for word but for the
    way they reach the embedding service. *)

(** JavaScript truthiness of a string that may be [null] or [undefined]. *)
Definition truthy (s : option string) : bool :=
  match s with
  | Some x => negb (x =? "")%string
  | None => false
  end.

Record Memory : Type := {
  mem_id : string;
  mem_type : string;
  mem_content : jsstring;
  mem_metadata : list (string * string);
  mem_tags : list string
}.

(** An entry of [this.embeddings]; the vector is [null] when the embedding
    service resolved with [null]. *)
Record EmbeddingEntry : Type := {
  emb_id : string;
  emb_embedding : option vec
}.

(** [{ ...memory, score, matchType }]. *)
Record SearchResult : Type := {
  res_memory : Memory;
  score : jsnum;
  matchType : string
}.

(** An [options] object; [None] is a property left [undefined].
    [limit] is a count of items. *)
Record SearchOptions : Type := {
  opt_limit : option nat;
  opt_type : option string;
  opt_minScore : option jsnum
}.

Definition default {A : Type} (d : A) (o : option A) : A :=
  match o with Some x => x | None => d end.

(** The [options] argument of [search]: left out (or [undefined]),
    [null], or an object; a primitive value is destructured as an object
    without any of the three properties. *)
Inductive Options : Type :=
| Undefined
| Null
| Object (o : SearchOptions).

(** The three constants [limit], [type] and [minScore]. *)
Record Destructured : Type := {
  d_limit : nat;
  d_type : option string;
  d_minScore : jsnum
}.

(** [async search(query, options = {})] followed by
    [const { limit = 10, type = null, minScore = 0.12 } = options]: the
    parameter default replaces [undefined] only, and destructuring
    [null] throws.  This line stands before the [try]. *)
Definition destructure (options : Options) : outcome Destructured :=
  match options with
  | Null =>
      Rejected
        "TypeError: Cannot destructure property 'limit' of 'options' as it is null."
  | Undefined =>
      Resolved {| d_limit := 10; d_type := None; d_minScore := Fin 0.12%R |}
  | Object o =>
      Resolved {| d_limit := default 10 (opt_limit o);
                  d_type := opt_type o;
                  d_minScore := default (Fin 0.12%R) (opt_minScore o) |}
  end.

(** [results.sort(compareFn)].  [Array.prototype.sort] is stable; an element
    moves behind another one only when the comparator is positive, and a
    [NaN] comparator counts as [+0]. *)
Section Sort.
Variable A : Type.
Variable compareFn : A -> A -> jsnum.

Fixpoint sort_insert (x : A) (l : list A) : list A :=
  match l with
  | [] => [x]
  | y :: l' =>
      if gtb (compareFn x y) zero then y :: sort_insert x l' else x :: l
  end.

Fixpoint js_sort (l : list A) : list A :=
  match l with
  | [] => []
  | x :: l' => sort_insert x (js_sort l')
  end.
End Sort.
Arguments sort_insert {A} compareFn x l.
Arguments js_sort {A} compareFn l.

(** [a] may stand before [b] in a list of descending scores. *)
Definition desc (a b : SearchResult) : Prop := JsNum.ge (score a) (score b).

Definition fin_score (r : SearchResult) : Prop := is_fin (score r).

(** The results whose score is [s]. *)
Definition has_score (s : jsnum) (r : SearchResult) : bool :=
  if jsnum_eq_dec (score r) s then true else false.

(** [(a, b) => b.score - a.score]. *)
Definition by_score_desc (a b : SearchResult) : jsnum :=
  sub (score b) (score a).

Section Search.
(** [embeddingService.getEmbedding]: resolves with a vector or with
    [null], or rejects. *)
Variable getEmbedding : jsstring -> outcome (option vec).
Variable memories : list Memory.
Variable embeddings : list EmbeddingEntry.

(** [this.embeddings.find(e => e.id === memory.id)]. *)
Definition find_embedding (memory : Memory) : option EmbeddingEntry :=
  find (fun e => (emb_id e =? mem_id memory)%string) embeddings.

(** What one turn of [for (const memory of this.memories)] pushes. *)
Definition scan_memory (type : option string) (minScore : jsnum)
    (queryEmbedding : vec) (memory : Memory) : list SearchResult :=
  if truthy type && negb (mem_type memory =? default ""%string type)%string
  then []
  else
    match find_embedding memory with
    | None => []
    | Some memoryEmbedding =>
        match emb_embedding memoryEmbedding with
        | None => []
        | Some stored =>
            if negb (length stored =? DIM) then []
            else
              let similarity := cosineSimilarity queryEmbedding stored in
              if geb similarity minScore
              then [{| res_memory := memory; score := similarity;
                       matchType := "gemini-3072d" |}]
              else []
        end
    end.

(** The [results] array when the loop ends, in the order of
    [this.memories]. *)
Definition scan (type : option string) (minScore : jsnum)
    (queryEmbedding : vec) : list SearchResult :=
  flat_map (scan_memory type minScore queryEmbedding) memories.

(** The body of the [try] block. *)
Definition search_try (query : jsstring) (d : Destructured)
  : outcome (list SearchResult) :=
  match getEmbedding query with
  | Rejected e => Rejected e
  | Resolved None =>
      Rejected "TypeError: Cannot read properties of null (reading 'length')"
  | Resolved (Some queryEmbedding) =>
      let results := scan (d_type d) (d_minScore d) queryEmbedding in
      Resolved (firstn (d_limit d) (js_sort by_score_desc results))
  end.

(** [search]: what the destructuring of [options] throws rejects the
    call; the [catch] clause turns every failure of the body of the
    [try] into an empty list. *)
Definition search (query : jsstring) (options : Options)
  : outcome (list SearchResult) :=
  match destructure options with
  | Rejected e => Rejected e
  | Resolved d =>
      match search_try query d with
      | Resolved results => Resolved results
      | Rejected _ => Resolved []
      end
  end.

(** The [results] array as the loop leaves it, before it is sorted;
    empty when the body fails before the loop. *)
Definition candidates (query : jsstring) (d : Destructured)
  : list SearchResult :=
  match getEmbedding query with
  | Resolved (Some queryEmbedding) =>
      scan (d_type d) (d_minScore d) queryEmbedding
  | _ => []
  end.
End Search.

(** The query could not be embedded: the service rejected, or resolved
    with [null]. *)
Definition embedding_failed (o : outcome (option vec)) : Prop :=
  match o with
  | Resolved (Some _) => False
  | _ => True
  end.

(** Inputs of the examples: a service that embeds every text as the
    vector of ones, a memory whose stored vector has one entry only. *)
Definition ones_service (text : jsstring) : outcome (option vec) :=
  Resolved (Some (fin_vec ones)).

Definition short_memory : Memory :=
  {| mem_id := "m1"; mem_type := "web_page";
     mem_content := of_string "The quick brown fox";
     mem_metadata := [("url", "http://a")]%string; mem_tags := [] |}.

Definition short_entry : EmbeddingEntry :=
  {| emb_id := "m1"; emb_embedding := Some [Fin 1%R] |}.

Definition default_options : SearchOptions :=
  {| opt_limit := None; opt_type := None; opt_minScore := None |}.

(** Two memories stored in this order: [against], whose vector is the
    opposite of the vector of ones, and [along], whose vector is the vector
    of ones. *)
Definition against : Memory :=
  {| mem_id := "m2"; mem_type := "web_page";
     mem_content := of_string "against"; mem_metadata := [];
     mem_tags := [] |}.

Definition along : Memory :=
  {| mem_id := "m3"; mem_type := "web_page";
     mem_content := of_string "along"; mem_metadata := [];
     mem_tags := [] |}.

Definition two_entries : list EmbeddingEntry :=
  [{| emb_id := "m2"; emb_embedding := Some (fin_vec (vneg ones)) |};
   {| emb_id := "m3"; emb_embedding := Some (fin_vec ones) |}].

Definition any_score : SearchOptions :=
  {| opt_limit := None; opt_type := Some "web_page"%string;
     opt_minScore := Some (Fin (-1)%R) |}.

(** Every score from 0 on is let in. *)
Definition zero_threshold : SearchOptions :=
  {| opt_limit := None; opt_type := None; opt_minScore := Some zero |}.

(** A service of another dimension: it embeds every text as 384 ones. *)
Definition local_service (text : jsstring) : outcome (option vec) :=
  Resolved (Some (fin_vec (repeat 1%R 384))).

Definition along_entry : EmbeddingEntry :=
  {| emb_id := "m3"; emb_embedding := Some (fin_vec ones) |}.

(** ** EmbeddingService.getEmbedding: provider fallback *)

Module Fallback.

(** A provider: [embed(text)] resolves with a vector or rejects. *)
Record Provider : Type := {
  embed : jsstring -> outcome vec
}.

(** The service object.  [providers] is the [Map], in insertion order;
    [currentProvider] is the name under which the current provider object
    is registered ([None]: not set yet). *)
Record EmbeddingService : Type := {
  currentProvider : option string;
  providers : list (string * Provider)
}.

(** [map.get(name)]. *)
Fixpoint map_get (name : string) (m : list (string * Provider))
  : option Provider :=
  match m with
  | [] => None
  | (k, p) :: rest => if (k =? name)%string then Some p else map_get name rest
  end.

(** [provider !== this.currentProvider], for the provider registered
    under [name]. *)
Definition is_not_current (current : option string) (name : string) : bool :=
  match current with
  | Some c => negb (c =? name)%string
  | None => true
  end.

(** What a call of [getEmbedding] leaves behind: its outcome, the service
    afterwards, and the names of the providers whose [embed] it called,
    in call order. *)
Record Run : Type := {
  result : outcome vec;
  service_after : EmbeddingService;
  attempts : list string
}.

Definition ALL_FAILED : string := "All embedding providers failed".

Section Service.
(** The four providers [initializeProviders] registers. *)
Variables GeminiProvider LocalEmbeddingProvider HuggingFaceProvider
  OpenAIProvider : Provider.
(** [getSettings()], reduced to the [embeddingProvider] it returns. *)
Variable getSettings : outcome string.

Definition registry : list (string * Provider) :=
  [("gemini"%string, GeminiProvider);
   ("local"%string, LocalEmbeddingProvider);
   ("huggingface"%string, HuggingFaceProvider);
   ("openai"%string, OpenAIProvider)].

(** [initializeProviders]. *)
Definition initializeProviders : outcome EmbeddingService :=
  match getSettings with
  | Rejected e => Rejected e
  | Resolved embeddingProvider =>
      Resolved
        {| providers := registry;
           currentProvider :=
             match map_get embeddingProvider registry with
             | Some _ => Some embeddingProvider
             | None => Some "gemini"%string
             end |}
  end.

(** The [for (const [name, provider] of this.providers)] loop of the
    [catch] clause: the first provider other than the current one that
    resolves becomes current. *)
Fixpoint try_fallbacks (svc : EmbeddingService) (text : jsstring)
    (rest : list (string * Provider)) (called : list string) : Run :=
  match rest with
  | [] =>
      {| result := Rejected ALL_FAILED; service_after := svc;
         attempts := called |}
  | (name, provider) :: rest' =>
      if is_not_current (currentProvider svc) name then
        match embed provider text with
        | Resolved embedding =>
            {| result := Resolved embedding;
               service_after :=
                 {| currentProvider := Some name;
                    providers := providers svc |};
               attempts := called ++ [name] |}
        | Rejected _ => try_fallbacks svc text rest' (called ++ [name])
        end
      else try_fallbacks svc text rest' called
  end.

(** [getEmbedding] once [currentProvider] is set.  The current provider
    is an object of the [Map]; were it not, calling it would be modelled
    as a throw inside the [try]. *)
Definition getEmbedding_ready (svc : EmbeddingService) (text : jsstring)
  : Run :=
  match currentProvider svc with
  | None =>
      (* [this.currentProvider.embed] throws inside the [try] *)
      try_fallbacks svc text (providers svc) []
  | Some name =>
      match map_get name (providers svc) with
      | None => try_fallbacks svc text (providers svc) []
      | Some provider =>
          match embed provider text with
          | Resolved embedding =>
              {| result := Resolved embedding; service_after := svc;
                 attempts := [name] |}
          | Rejected _ => try_fallbacks svc text (providers svc) [name]
          end
      end
  end.

(** [getEmbedding]. *)
Definition getEmbedding (svc : EmbeddingService) (text : jsstring) : Run :=
  match currentProvider svc with
  | Some _ => getEmbedding_ready svc text
  | None =>
      match initializeProviders with
      | Rejected e =>
          {| result := Rejected e; service_after := svc; attempts := [] |}
      | Resolved svc' => getEmbedding_ready svc' text
      end
  end.
End Service.

(** Inputs of the examples: [P1] always fails, [P2] always returns
    [[1, 0, 0]]; [P1] is registered first and is the current provider. *)
Definition P1 : Provider :=
  {| embed := fun _ => Rejected "P1 is down" |}.

Definition P2 : Provider :=
  {| embed := fun _ => Resolved [Fin 1%R; Fin 0%R; Fin 0%R] |}.

Definition two_providers : EmbeddingService :=
  {| currentProvider := Some "p1"%string;
     providers := [("p1"%string, P1); ("p2"%string, P2)] |}.

(** The names of the fallback providers of [l]: all but the current one. *)
Definition fallback_names (current : option string)
    (l : list (string * Provider)) : list string :=
  map fst (filter (fun np => is_not_current current (fst np)) l).

End Fallback.

(** ** The 3072D Gemini embedding service: chunking and pooling *)

Module Gemini.

(** The size above which [getGemini3072DEmbedding] chunks its text. *)
Definition CHUNKING_THRESHOLD : N := 35000.
(** The size a chunk under construction should stay under. *)
Definition CHUNK_BYTES : N := 30000.
(** The length the current chunk must exceed before it is closed. *)
Definition CHUNK_MIN_LENGTH : N := 100.

(** ['. ']. *)
Definition dot_space : jsstring := [46; 32]%N.

(** [text.split(/[.!?]+/).filter(s => s.trim().length > 20)]. *)
Definition sentences_of (text : jsstring) : list jsstring :=
  filter (fun s => (20 <? jslength (trim s))%N) (split_sentences text).

(** One turn of [for (const sentence of sentences)], on the pair
    [(chunks, currentChunk)]. *)
Definition chunk_step (st : list jsstring * jsstring) (sentence : jsstring)
  : list jsstring * jsstring :=
  let '(chunks, currentChunk) := st in
  let testChunk := currentChunk ++ sentence ++ dot_space in
  if (CHUNK_BYTES <? blob_size testChunk)%N
     && (CHUNK_MIN_LENGTH <? jslength currentChunk)%N
  then (chunks ++ [trim currentChunk], sentence ++ dot_space)
  else (chunks, testChunk).

(** The [chunks] array of [getChunked3072DEmbedding]. *)
Definition chunks_of (text : jsstring) : list jsstring :=
  let '(chunks, currentChunk) :=
    fold_left chunk_step (sentences_of text) ([], []) in
  if (50 <? jslength (trim currentChunk))%N
  then chunks ++ [trim currentChunk]
  else chunks.

(** [averaged[i]] for two embeddings or more. *)
Definition averaged_at (embeddings : list vec) (i : nat) : jsnum :=
  div (fold_left (fun sum embedding => add sum (idx embedding i))
         embeddings zero)
      (Fin (INR (length embeddings))).

(** All the entries of a list that may hold [null]s, if none is [null]. *)
Fixpoint all_some {A : Type} (l : list (option A)) : option (list A) :=
  match l with
  | [] => Some []
  | None :: _ => None
  | Some x :: rest =>
      match all_some rest with
      | Some xs => Some (x :: xs)
      | None => None
      end
  end.

(** [average3072DEmbeddings].  An entry of [embeddings] is [null] when a
    chunk was itself pooled from no chunk at all; reading [embedding[i]]
    of [null] throws. *)
Definition average3072DEmbeddings (embeddings : list (option vec))
  : outcome (option vec) :=
  match embeddings with
  | [] => Resolved None
  | [e] => Resolved e
  | _ =>
      match all_some embeddings with
      | None =>
          Rejected "TypeError: Cannot read properties of null (reading '0')"
      | Some es => Resolved (Some (map (averaged_at es) (seq 0 DIM)))
      end
  end.

Section Service.
(** [this.apiKey]. *)
Variable apiKey : string.
(** The [embedContent] request of the direct path: resolves with
    [result.embedding.values], or rejects (HTTP error, no values,
    network failure). *)
Variable embedContent : jsstring -> outcome vec.

(** The [for] loop that awaits the embedding of each chunk in turn;
    [self] is [getGemini3072DEmbedding].  [None]: the recursion is
    still running when the fuel is spent. *)
Fixpoint embed_chunks (self : jsstring -> option (outcome (option vec)))
    (chunks : list jsstring) : option (outcome (list (option vec))) :=
  match chunks with
  | [] => Some (Resolved [])
  | chunk :: rest =>
      match self chunk with
      | None => None
      | Some (Rejected e) => Some (Rejected e)
      | Some (Resolved chunkEmbedding) =>
          match embed_chunks self rest with
          | None => None
          | Some (Rejected e) => Some (Rejected e)
          | Some (Resolved chunkEmbeddings) =>
              Some (Resolved (chunkEmbedding :: chunkEmbeddings))
          end
      end
  end.

(** [getChunked3072DEmbedding], given [getGemini3072DEmbedding]. *)
Definition getChunked3072DEmbedding_with
    (self : jsstring -> option (outcome (option vec))) (text : jsstring)
  : option (outcome (option vec)) :=
  match embed_chunks self (chunks_of text) with
  | None => None
  | Some (Rejected e) => Some (Rejected e)
  | Some (Resolved chunkEmbeddings) =>
      Some (average3072DEmbeddings chunkEmbeddings)
  end.

(** [getGemini3072DEmbedding]; [fuel] bounds the depth of the mutual
    recursion with [getChunked3072DEmbedding]. *)
Fixpoint getGemini3072DEmbedding (fuel : nat) (text : jsstring)
  : option (outcome (option vec)) :=
  match fuel with
  | O => None
  | S fuel' =>
      if (apiKey =? "")%string then Some (Rejected "API key missing")
      else if (CHUNKING_THRESHOLD <? blob_size text)%N
      then getChunked3072DEmbedding_with
             (getGemini3072DEmbedding fuel') text
      else
        match embedContent text with
        | Resolved values => Some (Resolved (Some values))
        | Rejected e => Some (Rejected e)
        end
  end.

Definition getChunked3072DEmbedding (fuel : nat) (text : jsstring)
  : option (outcome (option vec)) :=
  getChunked3072DEmbedding_with (getGemini3072DEmbedding fuel) text.
End Service.

(** [getEmbedding] of the service: [apiKey] is [settings.apiKey]
    ([None]: absent). *)
Definition getEmbedding (apiKey : option string)
    (embedContent : jsstring -> outcome vec) (fuel : nat) (text : jsstring)
  : option (outcome (option vec)) :=
  match apiKey with
  | None => Some (Rejected "Gemini API key not configured")
  | Some key =>
      match trim (of_string key) with
      | [] => Some (Rejected "Gemini API key not configured")
      | _ :: _ => getGemini3072DEmbedding key embedContent fuel text
      end
  end.

(** The mean of the vectors [vs] at index [i], and their element-wise
    mean on the 3072 indices. *)
Definition mean_at (vs : list (list R)) (i : nat) : R :=
  (fold_right Rplus 0 (map (fun r => nth i r 0) vs) / INR (length vs))%R.

Definition mean (vs : list (list R)) : list R :=
  map (mean_at vs) (seq 0 DIM).

(** The text of a run of sentences in a chunk under construction: each
    sentence followed by ['. ']. *)
Definition body (group : list jsstring) : jsstring :=
  concat (map (fun sentence => sentence ++ dot_space) group).

(** Adding [sentence] to the chunk [currentChunk] would exceed the chunk
    size, and the chunk is already longer than the minimum. *)
Definition overflows (currentChunk sentence : jsstring) : Prop :=
  (CHUNK_BYTES < blob_size (currentChunk ++ sentence ++ dot_space))%N /\
  (CHUNK_MIN_LENGTH < jslength currentChunk)%N.

(** Greedy grouping, in the words of the specification:
    [greedy open sentences groups]
    when accumulating [sentences] in turn, from the open group [open],
    gives the groups [groups]; a group is closed, and the next one
    started with the sentence, exactly when the sentence overflows it. *)
Inductive greedy : list jsstring -> list jsstring -> list (list jsstring)
                   -> Prop :=
| greedy_end open : greedy open [] [open]
| greedy_close open sentence rest groups :
    overflows (body open) sentence ->
    greedy [sentence] rest groups ->
    greedy open (sentence :: rest) (open :: groups)
| greedy_extend open sentence rest groups :
    ~ overflows (body open) sentence ->
    greedy (open ++ [sentence]) rest groups ->
    greedy open (sentence :: rest) groups.

(** The chunks of a grouping: the trimmed text of every closed group,
    and that of the last group when it is longer than 50. *)
Definition chunks_from (groups : list (list jsstring)) : list jsstring :=
  map (fun group => trim (body group)) (removelast groups) ++
  (if (50 <? jslength (trim (body (last groups []))))%N
   then [trim (body (last groups []))]
   else []).

(** Inputs of the examples.  [two_chunk_text]: 400 sentences of 98
    letters, 40000 bytes.  [short_sentences_text]: 9000 sentences of two
    letters, 36000 bytes.  [unbroken_text]: 36000 letters and no
    punctuation. *)
Definition sentence98 : jsstring := repeat 97%N 98 ++ dot_space.

Definition two_chunk_text : jsstring := concat (repeat sentence98 400).

Definition short_sentences_text : jsstring :=
  concat (repeat [97; 98; 46; 32]%N (N.to_nat 9000)).

Definition unbroken_text : jsstring := repeat 97%N (N.to_nat 36000).

(** A request that answers every text with the vector of ones. *)
Definition ones_content (text : jsstring) : outcome vec :=
  Resolved (fin_vec ones).

End Gemini.

(** ** DecisionModule and Agent.executePlan *)

Module Exec.

(** [step.parameters]. *)
Record Parameters : Type := {
  p_query : option string;
  p_url : option string;
  p_highlightText : option string;
  p_text : option string
}.

Record Step : Type := {
  step_id : string;
  step_type : string;
  step_description : string;
  step_tool : string;
  step_parameters : option Parameters;
  step_dependencies : option (list string)
}.

Record Plan : Type := {
  plan_id : string;
  plan_type : string;
  plan_query : string;
  steps : list Step
}.

(** An item of a result payload. *)
Definition Item : Type := string.

(** What a step handler resolves with: a [ToolCallResult], or the object
    of the analysis step, which has neither [data] nor [results]. *)
Record HandlerResult : Type := {
  hr_success : bool;
  hr_data : option (list Item);
  hr_results : option (list Item);
  hr_error : option string
}.

(** An entry of [executionResults]. *)
Record ExecutionResult : Type := {
  er_stepId : string;
  er_success : bool;
  er_data : option (list Item);
  er_error : option string
}.

(** The action module.  Each method catches whatever its manager throws
    and resolves with a [ToolCallResult]; the first argument is the
    iteration of [executePlan] at which the call is made, so that a
    handler may answer differently from one call to the next. *)
Record ActionModule : Type := {
  executeSearch : nat -> option string -> HandlerResult;
  executeNavigation : nat -> option string -> option string -> HandlerResult;
  executeHighlight : nat -> option string -> HandlerResult
}.

Inductive Decision : Type :=
| Complete : Decision
| Wait (nextStep : option string) : Decision
| Execute (result : HandlerResult) (nextStep : option string) : Decision
| Error (error : string) (nextStep : option string) : Decision.

(** [plan.steps.find(s => s.id === id)]. *)
Definition find_step (plan : Plan) (id : string) : option Step :=
  find (fun s => (step_id s =? id)%string) (steps plan).

(** [plan.steps.findIndex(s => s.id === id)]; [None] stands for [-1]. *)
Fixpoint findIndex (id : string) (l : list Step) : option nat :=
  match l with
  | [] => None
  | s :: rest =>
      if (step_id s =? id)%string then Some 0
      else option_map S (findIndex id rest)
  end.

(** [getNextStepId]: the step after the current one; after index [-1]
    comes index [0]. *)
Definition getNextStepId (plan : Plan) (currentStepId : string)
  : option string :=
  let next :=
    match findIndex currentStepId (steps plan) with
    | Some currentIndex => S currentIndex
    | None => 0
    end in
  option_map step_id (nth_error (steps plan) next).

Definition retryableSteps : list string := ["search"; "navigation"]%string.

(** [retryableSteps.includes(type)]. *)
Definition includes (l : list string) (x : string) : bool :=
  existsb (fun y => (y =? x)%string) l.

(** [handleStepError]. *)
Definition handleStepError (plan : Plan) (stepId : string) : option string :=
  match find_step plan stepId with
  | Some step =>
      if includes retryableSteps (step_type step) then Some stepId
      else getNextStepId plan stepId
  | None => getNextStepId plan stepId
  end.

(** [executionResults.some(r => r.stepId === dep && r.success)]. *)
Definition has_success (executionResults : list ExecutionResult)
    (dep : string) : bool :=
  existsb (fun r => (er_stepId r =? dep)%string && er_success r)
    executionResults.

(** [step.dependencies.every(...)]. *)
Definition dependenciesMet (executionResults : list ExecutionResult)
    (dependencies : list string) : bool :=
  forallb (has_success executionResults) dependencies.

Section Decision.
Variable actionModule : ActionModule.

(** [executeStep]: reading a property of an absent [step.parameters]
    throws, and so does an unknown step type. *)
Definition executeStep (now : nat) (step : Step) : outcome HandlerResult :=
  let no_parameters :=
    Rejected "TypeError: Cannot read properties of undefined" in
  if (step_type step =? "search")%string then
    match step_parameters step with
    | Some p => Resolved (executeSearch actionModule now (p_query p))
    | None => no_parameters
    end
  else if (step_type step =? "navigation")%string then
    match step_parameters step with
    | Some p =>
        Resolved
          (executeNavigation actionModule now (p_url p) (p_highlightText p))
    | None => no_parameters
    end
  else if (step_type step =? "highlight")%string then
    match step_parameters step with
    | Some p => Resolved (executeHighlight actionModule now (p_text p))
    | None => no_parameters
    end
  else if (step_type step =? "analysis")%string then
    Resolved {| hr_success := true; hr_data := None; hr_results := None;
                hr_error := None |}
  else Rejected ("Unknown step type: " ++ step_type step).

(** [decideNextAction]. *)
Definition decideNextAction (currentPlan : Plan) (currentStep : string)
    (executionResults : list ExecutionResult) (now : nat) : Decision :=
  match find_step currentPlan currentStep with
  | None => Complete
  | Some step =>
      let blocked :=
        match step_dependencies step with
        | Some dependencies =>
            if dependenciesMet executionResults dependencies then None
            else Some (Wait (nth_error dependencies 0))
        | None => None
        end in
      match blocked with
      | Some wait => wait
      | None =>
          match executeStep now step with
          | Resolved result =>
              Execute result (getNextStepId currentPlan currentStep)
          | Rejected message =>
              Error message (handleStepError currentPlan currentStep)
          end
      end
  end.
End Decision.

(** How the loop of [executePlan] came to its end. *)
Inductive Termination : Type :=
| CursorEmpty      (* [if (!currentStepId) break] *)
| StepNotFound     (* [if (!currentStep) break] *)
| DecidedComplete  (* [case 'complete'] *)
| BudgetSpent.     (* [attempt < this.maxExecutionSteps] fails *)

(** One turn of the loop that reached [decideNextAction]: the iteration,
    the cursor, the results recorded so far and the decision taken. *)
Record Event : Type := {
  ev_attempt : nat;
  ev_step : string;
  ev_results : list ExecutionResult;
  ev_decision : Decision
}.

(** The object [createExecutionResult] builds, followed by what the
    embedding adds to observe the run: [executionResults] itself, the way
    the loop ended and one event per decision. *)
Record Report : Type := {
  success : bool;
  stepsExecuted : nat;
  totalSteps : nat;
  results : list Item;
  executionResults : list ExecutionResult;
  termination : Termination;
  trace : list Event
}.

(** [!currentStepId]. *)
Definition falsy (id : option string) : bool := negb (truthy id).

(** The payloads [createExecutionResult] collects. *)
Definition collect (executionResults : list ExecutionResult) : list Item :=
  flat_map (fun r =>
              if er_success r then default [] (er_data r) else [])
           executionResults.

Definition createExecutionResult (plan : Plan)
    (executionResults : list ExecutionResult) (success : bool)
    (how : Termination) (events : list Event) : Report :=
  {| success := success;
     stepsExecuted := length executionResults;
     totalSteps := length (steps plan);
     results := collect executionResults;
     executionResults := executionResults;
     termination := how;
     trace := events |}.

(** [stepResult.data || stepResult.results]. *)
Definition data_or_results (r : HandlerResult) : option (list Item) :=
  match hr_data r with
  | Some d => Some d
  | None => hr_results r
  end.

Section Agent.
Variable actionModule : ActionModule.
Variable plan : Plan.

(** The [for] loop of [executePlan]: [remaining] is
    [maxExecutionSteps - attempt]. *)
Fixpoint executePlan_loop (remaining attempt : nat)
    (currentStepId : option string)
    (executionResults : list ExecutionResult) (events : list Event)
  : Report :=
  match remaining with
  | O => createExecutionResult plan executionResults false BudgetSpent events
  | S remaining' =>
      if falsy currentStepId then
        createExecutionResult plan executionResults false CursorEmpty events
      else
        let id := default ""%string currentStepId in
        match find_step plan id with
        | None =>
            createExecutionResult plan executionResults false StepNotFound
              events
        | Some _ =>
            let decision :=
              decideNextAction actionModule plan id executionResults
                attempt in
            let events' :=
              events ++ [{| ev_attempt := attempt; ev_step := id;
                            ev_results := executionResults;
                            ev_decision := decision |}] in
            match decision with
            | Execute stepResult nextStep =>
                executePlan_loop remaining' (S attempt) nextStep
                  (executionResults ++
                     [{| er_stepId := id;
                         er_success := hr_success stepResult;
                         er_data := data_or_results stepResult;
                         er_error := hr_error stepResult |}])
                  events'
            | Complete =>
                createExecutionResult plan executionResults true
                  DecidedComplete events'
            | Error error nextStep =>
                executePlan_loop remaining' (S attempt) nextStep
                  (executionResults ++
                     [{| er_stepId := id; er_success := false;
                         er_data := None; er_error := Some error |}])
                  events'
            | Wait _ =>
                executePlan_loop remaining' (S attempt) currentStepId
                  executionResults events'
            end
        end
  end.

(** [executePlan], for an agent whose [maxExecutionSteps] is given. *)
Definition executePlan_with (maxExecutionSteps : nat) : Report :=
  executePlan_loop maxExecutionSteps 0
    (option_map step_id (nth_error (steps plan) 0)) [] [].

(** [this.maxExecutionSteps = 5]. *)
Definition maxExecutionSteps : nat := 5.

Definition executePlan : Report := executePlan_with maxExecutionSteps.
End Agent.

(** The first declared dependency that has no recorded success. *)
Definition first_unmet (executionResults : list ExecutionResult)
    (dependencies : list string) : option string :=
  find (fun dep => negb (has_success executionResults dep)) dependencies.

(** Some declared dependency of [step] has no recorded success. *)
Definition unmet (executionResults : list ExecutionResult) (step : Step)
  : Prop :=
  exists dependencies dep,
    step_dependencies step = Some dependencies /\
    In dep dependencies /\
    has_success executionResults dep = false.

(** The decision comes from a call of the handler. *)
Definition dispatched (d : Decision) : Prop :=
  match d with
  | Execute _ _ | Error _ _ => True
  | Complete | Wait _ => False
  end.

(** Inputs of the examples. *)
Definition ok_result : HandlerResult :=
  {| hr_success := true; hr_data := None; hr_results := Some [];
     hr_error := None |}.

Definition failed_result : HandlerResult :=
  {| hr_success := false; hr_data := None; hr_results := Some [];
     hr_error := Some "highlight failed"%string |}.

(** An action module whose handlers all succeed, and one whose
    [executeHighlight] fails. *)
Definition quiet_actions : ActionModule :=
  {| executeSearch := fun _ _ => ok_result;
     executeNavigation := fun _ _ _ => ok_result;
     executeHighlight := fun _ _ => ok_result |}.

Definition failing_highlight : ActionModule :=
  {| executeSearch := fun _ _ => ok_result;
     executeNavigation := fun _ _ _ => ok_result;
     executeHighlight := fun _ _ => failed_result |}.

Definition no_parameters : Parameters :=
  {| p_query := None; p_url := None; p_highlightText := None;
     p_text := None |}.

Definition mk_step (id type : string) (parameters : option Parameters)
    (dependencies : option (list string)) : Step :=
  {| step_id := id; step_type := type; step_description := "";
     step_tool := ""; step_parameters := parameters;
     step_dependencies := dependencies |}.

Definition mk_plan (l : list Step) : Plan :=
  {| plan_id := "plan_1"; plan_type := "basic"; plan_query := "fox";
     steps := l |}.

(** [A -> B -> C]: [B] depends on [A], [C] on [B]; [B] is a highlight
    step, not retryable.  In [plan_abc_throwing] the step [B] has no
    parameters, so that its handler throws; in [plan_abc] it has
    parameters, and fails when the action module says so. *)
Definition plan_abc_throwing : Plan :=
  mk_plan [mk_step "A" "analysis" None None;
           mk_step "B" "highlight" None (Some ["A"]);
           mk_step "C" "analysis" None (Some ["B"])]%string.

Definition plan_abc : Plan :=
  mk_plan [mk_step "A" "analysis" None None;
           mk_step "B" "highlight" (Some no_parameters) (Some ["A"]);
           mk_step "C" "analysis" None (Some ["B"])]%string.

(** [s] depends on [a] and on [b]; [a] succeeds and [b], of an unknown
    type, fails. *)
Definition plan_two_dependencies : Plan :=
  mk_plan [mk_step "a" "analysis" None None;
           mk_step "b" "custom" None None;
           mk_step "s" "analysis" None (Some ["a"; "b"])]%string.

(** The third turn of the run of [plan_two_dependencies]: [a] has
    succeeded, [b] has failed, the cursor is on [s]. *)
Definition third_turn : Event :=
  {| ev_attempt := 2; ev_step := "s";
     ev_results :=
       [{| er_stepId := "a"; er_success := true; er_data := None;
           er_error := None |};
        {| er_stepId := "b"; er_success := false; er_data := None;
           er_error := Some "Unknown step type: custom" |}];
     ev_decision := Wait (Some "a") |}%string.

(** The first step waits for a step that never ran. *)
Definition plan_stuck : Plan :=
  mk_plan [mk_step "navigate" "navigation" (Some no_parameters)
             (Some ["search"]);
           mk_step "search" "search" (Some no_parameters) None]%string.

End Exec.

(** ** EmbeddingUtils and LocalEmbeddingProvider: vector helpers

    A function that returns or throws is given the type [outcome] too:
    [Resolved] is a return, [Rejected] a throw. *)

Module EmbeddingUtils.

Definition DIMENSIONS_MUST_MATCH : string := "Embedding dimensions must match".

(** [EmbeddingUtils.cosineSimilarity]: any dimension, and a throw when the
    lengths differ. *)
Definition cosineSimilarity (vecA vecB : vec) : outcome jsnum :=
  if negb (length vecA =? length vecB) then Rejected DIMENSIONS_MUST_MATCH
  else
    let '(dotProduct, normA, normB) := cos_loop vecA vecB (length vecA) in
    let normA := sqrt normA in
    let normB := sqrt normB in
    if eqb normA zero || eqb normB zero then Resolved zero
    else Resolved (div dotProduct (mul normA normB)).




(** [Promise.all]: the values in order, or the first rejection. *)
Fixpoint promise_all {A : Type} (l : list (outcome A)) : outcome (list A) :=
  match l with
  | [] => Resolved []
  | Rejected e :: _ => Rejected e
  | Resolved x :: rest =>
      match promise_all rest with
      | Resolved xs => Resolved (x :: xs)
      | Rejected e => Rejected e
      end
  end.

(** [new Float32Array(384)]. *)
Definition zero_embedding : vec := repeat zero 384.

(** [EmbeddingUtils.batchEmbed], on the texts from index [i] on.  The
    service is any object with a [getEmbedding]; [fuel] bounds the turns
    of the loop, which does not advance when [batchSize] is 0. *)
Fixpoint batchEmbed_from (fuel : nat)
    (getEmbedding : jsstring -> outcome vec) (texts : list jsstring)
    (batchSize : nat) (embeddings : list vec) : option (list vec) :=
  match texts with
  | [] => Some embeddings
  | _ :: _ =>
      match fuel with
      | O => None
      | S fuel' =>
          let batch := firstn batchSize texts in
          let embeddings' :=
            match promise_all (map getEmbedding batch) with
            | Resolved batchResults => embeddings ++ batchResults
            | Rejected _ => embeddings ++ map (fun _ => zero_embedding) batch
            end in
          batchEmbed_from fuel' getEmbedding (skipn batchSize texts)
            batchSize embeddings'
      end
  end.


Definition batchEmbed (fuel : nat) (getEmbedding : jsstring -> outcome vec)
    (texts : list jsstring) (batchSize : nat) : option (list vec) :=
  batchEmbed_from fuel getEmbedding texts batchSize [].

End EmbeddingUtils.

Module LocalEmbeddingProvider.

(** [ToInt32]: the signed 32-bit integer congruent to [z]. *)
Definition toInt32 (z : Z) : Z := ((z + 2 ^ 31) mod 2 ^ 32 - 2 ^ 31)%Z.

(** [a << n] on numbers that are integers. *)
Definition shl (a : Z) (n : Z) : Z := toInt32 (Z.shiftl (toInt32 a) n).

(** [a & b] on numbers that are integers. *)
Definition bitand (a b : Z) : Z := Z.land (toInt32 a) (toInt32 b).

(** One turn of the loop of [hashCode]; [char] is [str.charCodeAt(i)].
    The subtraction and the addition are exact: their operands are below
    2^32 in absolute value. *)
Definition hash_step (hash : Z) (char : N) : Z :=
  let hash := (shl hash 5 - hash + Z.of_N char)%Z in
  bitand hash hash.

(** [hashCode]. *)
Definition hashCode (str : jsstring) : Z := fold_left hash_step str 0%Z.

(** The value of [str] read as a number in base 31. *)
Definition base31 (str : jsstring) : Z :=
  fold_left (fun h c => (31 * h + Z.of_N c)%Z) str 0%Z.



End LocalEmbeddingProvider.



(** The vector of 3072 zeros. *)
Definition zeros : list R := repeat 0%R DIM.


(** The current provider of the service is one of its registered
    providers. *)
Definition registered (svc : Fallback.EmbeddingService) : Prop :=
  exists name provider,
    Fallback.currentProvider svc = Some name /\
    Fallback.map_get name (Fallback.providers svc) = Some provider.


(** A service that embeds the texts of at most three units and rejects
    the others. *)
Definition short_texts_only (text : jsstring) : outcome vec :=
  if length text <=? 3 then Resolved [Fin 1%R] else Rejected "too long".

(** ** MemoryManager: the store, [addMemory], [getStats]

    [MemoryManager] of the class file and [memoryManager] of the
    background script have the same [addMemory], [saveToStorage],
    [getSessionId] and [getStats]. *)

Module Store.

(** A memory of [this.memories]: the fields [search] reads, and the
    [embedding] field [addMemory] fills. *)
Record StoredMemory : Type := {
  sm_memory : Memory;
  sm_embedding : option vec
}.

(** What [chrome.storage.local] holds under the keys the manager uses;
    a key never written reads as the empty list or as [None]. *)
Record Storage : Type := {
  stored_memories : list StoredMemory;
  stored_embeddings : list (string * vec);
  stored_sessionId : option string
}.

(** The manager and the storage behind it. *)
Record Manager : Type := {
  memories : list StoredMemory;
  embeddings : list EmbeddingEntry;
  storage : Storage
}.

(** The argument of [addMemory]; [None] is a property left out. *)
Record MemoryData : Type := {
  md_type : option string;
  md_content : jsstring;
  md_metadata : list (string * string);
  md_tags : option (list string)
}.

(** [object[key] = value] on an object used as a map of strings. *)
Fixpoint set_key (key value : string) (object : list (string * string))
  : list (string * string) :=
  match object with
  | [] => [(key, value)]
  | (k, v) :: rest =>
      if (k =? key)%string then (k, value) :: rest
      else (k, v) :: set_key key value rest
  end.

(** What the environment gives a call of [addMemory]: the results of the
    two possible calls of [generateId] and of [Date.now]. *)
Record Env : Type := {
  env_id : string;
  env_sessionId : string;
  env_timestamp : string
}.

(** [getSessionId]: the stored session id if there is one, else a fresh
    one, which it stores. *)
Definition getSessionId (env : Env) (st : Storage) : string * Storage :=
  if truthy (stored_sessionId st) then
    (default ""%string (stored_sessionId st), st)
  else
    (env_sessionId env,
     {| stored_memories := stored_memories st;
        stored_embeddings := stored_embeddings st;
        stored_sessionId := Some (env_sessionId env) |}).

(** [this.embeddings.map(e => ({ id, embedding: Array.from(e.embedding) }))]:
    [Array.from(null)] throws. *)
Fixpoint embeddings_snapshot (l : list EmbeddingEntry)
  : outcome (list (string * vec)) :=
  match l with
  | [] => Resolved []
  | e :: rest =>
      match emb_embedding e with
      | None => Rejected "TypeError: object null is not iterable"
      | Some v =>
          match embeddings_snapshot rest with
          | Resolved snapshot => Resolved ((emb_id e, v) :: snapshot)
          | Rejected err => Rejected err
          end
      end
  end.

(** [saveToStorage]: both arrays are built before [set] is called, so
    that a throw leaves the storage as it was. *)
Definition saveToStorage (mgr : Manager) : outcome Manager :=
  match embeddings_snapshot (embeddings mgr) with
  | Rejected err => Rejected err
  | Resolved snapshot =>
      Resolved
        {| memories := memories mgr;
           embeddings := embeddings mgr;
           storage :=
             {| stored_memories := memories mgr;
                stored_embeddings := snapshot;
                stored_sessionId := stored_sessionId (storage mgr) |} |}
  end.

(** The [memory] object [addMemory] builds before it embeds. *)
Definition new_memory (env : Env) (sessionId : string)
    (memoryData : MemoryData) : Memory :=
  {| mem_id := env_id env;
     mem_type :=
       if truthy (md_type memoryData)
       then default ""%string (md_type memoryData)
       else "general"%string;
     mem_content := md_content memoryData;
     mem_metadata :=
       set_key "sessionId" sessionId
         (set_key "timestamp" (env_timestamp env) (md_metadata memoryData));
     mem_tags := default [] (md_tags memoryData) |}.

(** [addMemory]: the outcome, and the manager afterwards. *)
Definition addMemory (getEmbedding : jsstring -> outcome (option vec))
    (env : Env) (mgr : Manager) (memoryData : MemoryData)
  : outcome StoredMemory * Manager :=
  let '(sessionId, st) := getSessionId env (storage mgr) in
  let mgr := {| memories := memories mgr; embeddings := embeddings mgr;
                storage := st |} in
  let memory := new_memory env sessionId memoryData in
  match getEmbedding (md_content memoryData) with
  | Rejected error => (Rejected error, mgr)
  | Resolved embedding =>
      let stored := {| sm_memory := memory; sm_embedding := embedding |} in
      let mgr :=
        {| memories := memories mgr ++ [stored];
           embeddings :=
             embeddings mgr ++
               [{| emb_id := env_id env; emb_embedding := embedding |}];
           storage := storage mgr |} in
      match saveToStorage mgr with
      | Rejected error => (Rejected error, mgr)
      | Resolved mgr' => (Resolved stored, mgr')
      end
  end.

(** [search] of the manager. *)
Definition search (getEmbedding : jsstring -> outcome (option vec))
    (mgr : Manager) (query : jsstring) (options : Options)
  : outcome (list SearchResult) :=
  search getEmbedding (map sm_memory (memories mgr))
    (embeddings mgr) query options.

(** No embedding of the manager is [null]. *)
Definition healthy (mgr : Manager) : Prop :=
  Forall (fun e => emb_embedding e <> None) (embeddings mgr).


(** A value of the [typeStats] object: a count, or the string that adding
    1 to something that is not a number gives. *)
Inductive stat : Type :=
| Count (n : nat)
| Text.

(** The property names every object inherits from [Object.prototype]. *)
Definition object_prototype_names : list string :=
  ["constructor"; "__defineGetter__"; "__defineSetter__"; "hasOwnProperty";
   "__lookupGetter__"; "__lookupSetter__"; "isPrototypeOf";
   "propertyIsEnumerable"; "toString"; "valueOf"; "__proto__";
   "toLocaleString"]%string.

Definition inherited (key : string) : bool :=
  existsb (fun name => (name =? key)%string) object_prototype_names.

(** The own property [key] of [typeStats]. *)
Fixpoint own (key : string) (typeStats : list (string * stat))
  : option stat :=
  match typeStats with
  | [] => None
  | (k, v) :: rest => if (k =? key)%string then Some v else own key rest
  end.

(** [typeStats[key] = value], for a key other than ['__proto__']. *)
Fixpoint set_stat (key : string) (value : stat)
    (typeStats : list (string * stat)) : list (string * stat) :=
  match typeStats with
  | [] => [(key, value)]
  | (k, v) :: rest =>
      if (k =? key)%string then (k, value) :: rest
      else (k, v) :: set_stat key value rest
  end.

(** [typeStats[type] = (typeStats[type] || 0) + 1].  Reading a name that
    is inherited and not own gives a function or an object, to which
    adding 1 gives a string; assigning a string to ['__proto__'] does
    nothing. *)
Definition bump (typeStats : list (string * stat)) (type : string)
  : list (string * stat) :=
  let incremented :=
    match own type typeStats with
    | Some (Count n) => Count (n + 1)
    | Some Text => Text
    | None => if inherited type then Text else Count 1
    end in
  if (type =? "__proto__")%string then typeStats
  else set_stat type incremented typeStats.

(** [getStats]: [(totalMemories, typeStats)]. *)
Definition getStats (mgr : Manager) : nat * list (string * stat) :=
  (length (memories mgr),
   fold_left (fun typeStats memory => bump typeStats (mem_type (sm_memory memory)))
     (memories mgr) []).

(** The sum of the counts of [typeStats]. *)
Definition sum_counts (typeStats : list (string * stat)) : nat :=
  fold_right (fun kv total =>
                match snd kv with
                | Count n => n + total
                | Text => total
                end) 0 typeStats.

(** The number of memories of type [type]. *)
Definition count_type (type : string) (l : list StoredMemory) : nat :=
  length (filter (fun m => (mem_type (sm_memory m) =? type)%string) l).

(** [typeStats] counts the memories of [l], type by type. *)
Definition counted (typeStats : list (string * stat))
    (l : list StoredMemory) : Prop :=
  (forall type,
     own type typeStats =
     if count_type type l =? 0 then None
     else Some (Count (count_type type l))) /\
  sum_counts typeStats = length l.

(** No name inherited from [Object.prototype] has a count. *)
Definition uncounted (typeStats : list (string * stat)) : Prop :=
  forall type n, inherited type = true -> own type typeStats <> Some (Count n).

(** Inputs of the examples. *)
Definition empty_manager : Manager :=
  {| memories := []; embeddings := [];
     storage := {| stored_memories := []; stored_embeddings := [];
                   stored_sessionId := None |} |}.

Definition fox_data : MemoryData :=
  {| md_type := Some "web_page"%string;
     md_content := of_string "The quick brown fox";
     md_metadata := [("url", "http://a")]%string; md_tags := None |}.

Definition env1 : Env :=
  {| env_id := "id1"; env_sessionId := "session1"; env_timestamp := "1000" |}.

Definition env2 : Env :=
  {| env_id := "id2"; env_sessionId := "session2"; env_timestamp := "2000" |}.

(** A service that resolves with [null], as the Gemini service does on an
    oversized text without a sentence to keep. *)
Definition null_service (text : jsstring) : outcome (option vec) :=
  Resolved None.

(** A service that rejects. *)
Definition failing_service (text : jsstring) : outcome (option vec) :=
  Rejected "Gemini API key not configured".

End Store.

(** ** Plans that run to their end *)

Module Walk.
Import Exec.

(** [executeStep] calls a handler for [step], or answers itself: the
    type is known and, unless it is ['analysis'], the parameters are
    there. *)
Definition runnable (step : Step) : bool :=
  (step_type step =? "analysis")%string ||
  (((step_type step =? "search")%string ||
    (step_type step =? "navigation")%string ||
    (step_type step =? "highlight")%string) &&
   match step_parameters step with Some _ => true | None => false end).

(** Every call of a handler resolves with [success: true]. *)
Definition succeeds (actionModule : ActionModule) : Prop :=
  (forall now query, hr_success (executeSearch actionModule now query) = true) /\
  (forall now url highlightText,
     hr_success (executeNavigation actionModule now url highlightText) = true) /\
  (forall now text, hr_success (executeHighlight actionModule now text) = true).

(** Every dependency names a step declared earlier in the plan. *)
Definition ordered (l : list Step) : Prop :=
  forall i step dependencies dep,
    nth_error l i = Some step ->
    step_dependencies step = Some dependencies ->
    In dep dependencies ->
    In dep (firstn i (map step_id l)).

(** The ids of the plan are distinct and none is empty. *)
Definition distinct_ids (l : list Step) : Prop :=
  NoDup (map step_id l) /\ Forall (fun step => step_id step <> ""%string) l.

(** What the executor records for [step] when it calls its handler at
    the iteration [attempt]. *)
Definition record_of (actionModule : ActionModule) (attempt : nat)
    (step : Step) : ExecutionResult :=
  match executeStep actionModule attempt step with
  | Resolved stepResult =>
      {| er_stepId := step_id step;
         er_success := hr_success stepResult;
         er_data := data_or_results stepResult;
         er_error := hr_error stepResult |}
  | Rejected error =>
      {| er_stepId := step_id step; er_success := false;
         er_data := None; er_error := Some error |}
  end.

(** The records of the steps [l], called one per iteration from
    [attempt] on. *)
Fixpoint walked (actionModule : ActionModule) (attempt : nat)
    (l : list Step) : list ExecutionResult :=
  match l with
  | [] => []
  | step :: rest =>
      record_of actionModule attempt step ::
      walked actionModule (S attempt) rest
  end.

(** A plan of six independent analysis steps. *)
Definition six_steps : Plan :=
  mk_plan (map (fun id => mk_step id "analysis" None None)
             ["s1"; "s2"; "s3"; "s4"; "s5"; "s6"]%string).

End Walk.

(** ** The planning engine *)

Module Planning.
Import Exec.

(** The fields of [analysis] the planning engine reads; [a_entities] is
    [analysis.entities.length]. *)
Record Analysis : Type := {
  a_query : string;
  a_intent : string;
  a_entities : nat;
  a_urgency : string;
  a_complexity : string;
  a_contentType : option string
}.

(** A step of a template. *)
Record TemplateStep : Type := {
  t_id : string;
  t_type : string;
  t_description : string;
  t_tool : string;
  t_dependencies : option (list string)
}.

Record Template : Type := {
  tpl_type : string;
  tpl_steps : list TemplateStep
}.

(** [initializeTemplates]: the two templates and the map
    [planTemplates]. *)
Definition search_navigate : Template :=
  {| tpl_type := "search_navigate";
     tpl_steps :=
       [{| t_id := "search"; t_type := "search";
           t_description := "Search for relevant content";
           t_tool := "search_web_memory"; t_dependencies := None |};
        {| t_id := "navigate"; t_type := "navigation";
           t_description := "Navigate to best result";
           t_tool := "navigate_to_page";
           t_dependencies := Some ["search"] |}] |}%string.

Definition deep_analysis : Template :=
  {| tpl_type := "deep_analysis";
     tpl_steps :=
       [{| t_id := "search"; t_type := "search";
           t_description := "Find relevant pages";
           t_tool := "search_web_memory"; t_dependencies := None |};
        {| t_id := "analyze"; t_type := "analysis";
           t_description := "Analyze search results";
           t_tool := "analyze_results";
           t_dependencies := Some ["search"] |};
        {| t_id := "navigate_best"; t_type := "navigation";
           t_description := "Navigate to best match";
           t_tool := "navigate_to_page";
           t_dependencies := Some ["analyze"] |};
        {| t_id := "highlight"; t_type := "highlight";
           t_description := "Highlight relevant text";
           t_tool := "highlight_text";
           t_dependencies := Some ["navigate_best"] |}] |}%string.

Definition planTemplates : list (string * Template) :=
  [("search_navigate", search_navigate);
   ("deep_analysis", deep_analysis)]%string.

(** [this.planTemplates.get(planType)]. *)
Fixpoint template_get (planType : string) (m : list (string * Template))
  : option Template :=
  match m with
  | [] => None
  | (k, t) :: rest =>
      if (k =? planType)%string then Some t else template_get planType rest
  end.

(** The [parameters] objects the engine writes. *)
Inductive PlannedParameters : Type :=
| SearchParameters (query : string) (options : option (nat * option string))
    (* [{ query, options: { limit, type } }], or [{ query }] *)
| NavigationParameters (url highlightText : string)
| HighlightParameters (text style : string) (caseSensitive : bool)
| AnalysisParameters (results query : string).

Record PlannedStep : Type := {
  ps_id : string;
  ps_type : string;
  ps_description : string;
  ps_tool : string;
  ps_parameters : option PlannedParameters;
  ps_dependencies : option (list string)
}.

(** The plan object, without its time stamp, estimated time and
    metadata. *)
Record CreatedPlan : Type := {
  cp_id : string;
  cp_query : string;
  cp_type : string;
  cp_steps : list PlannedStep;
  cp_priority : string
}.

(** [determinePlanType]. *)
Definition determinePlanType (analysis : Analysis) : string :=
  if (a_intent analysis =? "information")%string then "search_navigate"
  else if (a_intent analysis =? "learning")%string
          || (a_intent analysis =? "research")%string
  then "deep_analysis"
  else if 2 <? a_entities analysis then "deep_analysis"
  else "search_navigate".

(** The body of the [forEach] of [customizeTemplate]. *)
Definition customize_step (analysis : Analysis) (step : TemplateStep)
  : PlannedStep :=
  let parameters :=
    if (t_tool step =? "search_web_memory")%string then
      Some (SearchParameters (a_query analysis)
              (Some (if (a_complexity analysis =? "high")%string
                     then 20 else 10,
                     a_contentType analysis)))
    else if (t_tool step =? "navigate_to_page")%string then
      Some (NavigationParameters "{{result.0.url}}" (a_query analysis))
    else if (t_tool step =? "highlight_text")%string then
      Some (HighlightParameters (a_query analysis) "search" false)
    else if (t_tool step =? "analyze_results")%string then
      Some (AnalysisParameters "{{search.results}}" (a_query analysis))
    else None in
  {| ps_id := t_id step; ps_type := t_type step;
     ps_description := t_description step; ps_tool := t_tool step;
     ps_parameters := parameters;
     ps_dependencies := t_dependencies step |}.

(** [customizeTemplate]: the steps of the customized copy. *)
Definition customizeTemplate (template : Template) (analysis : Analysis)
  : list PlannedStep :=
  map (customize_step analysis) (tpl_steps template).

(** [createBasicPlan]; [id] is what [generatePlanId] returns. *)
Definition createBasicPlan (id : string) (analysis : Analysis)
  : CreatedPlan :=
  {| cp_id := id; cp_query := a_query analysis; cp_type := "basic";
     cp_steps :=
       [{| ps_id := "search"; ps_type := "search";
           ps_description := "Search for content";
           ps_tool := "search_web_memory";
           ps_parameters := Some (SearchParameters (a_query analysis) None);
           ps_dependencies := None |}];
     cp_priority := "normal" |}.

(** [createPlan]. *)
Definition createPlan (id : string) (analysis : Analysis) : CreatedPlan :=
  let planType := determinePlanType analysis in
  match template_get planType planTemplates with
  | None => createBasicPlan id analysis
  | Some template =>
      {| cp_id := id; cp_query := a_query analysis; cp_type := planType;
         cp_steps := customizeTemplate template analysis;
         cp_priority :=
           if (a_urgency analysis =? "high")%string then "high"
           else "normal" |}
  end.

(** [createFallbackPlan] of the decision module. *)
Definition createFallbackPlan (id query : string) : CreatedPlan :=
  {| cp_id := id; cp_query := query; cp_type := "search";
     cp_steps :=
       [{| ps_id := "1"; ps_type := "search";
           ps_description := "Search web memory for relevant content";
           ps_tool := "search_web_memory";
           ps_parameters := Some (SearchParameters query None);
           ps_dependencies := None |};
        {| ps_id := "2"; ps_type := "navigation";
           ps_description := "Navigate to best matching page";
           ps_tool := "navigate_to_page";
           ps_parameters :=
             Some (NavigationParameters "{{result.0.url}}" query);
           ps_dependencies := Some ["1"] |}];
     cp_priority := "normal" |}%string.

(** [generatePlan] of the decision module: the plan of the engine for the
    analysis, or the fallback plan when something in the [try] block
    throws ([analysis] is then [Rejected]).  [optimizePlan] adds
    [memoryShortcuts] and leaves the rest of the plan as it is. *)
Definition generatePlan (id query : string) (analysis : outcome Analysis)
  : CreatedPlan :=
  match analysis with
  | Resolved analysis => createPlan id analysis
  | Rejected _ => createFallbackPlan id query
  end.

(** The properties of [step.parameters] that [executeStep] passes on. *)
Definition read_parameters (parameters : PlannedParameters) : Parameters :=
  match parameters with
  | SearchParameters query _ =>
      {| p_query := Some query; p_url := None; p_highlightText := None;
         p_text := None |}
  | NavigationParameters url highlightText =>
      {| p_query := None; p_url := Some url;
         p_highlightText := Some highlightText; p_text := None |}
  | HighlightParameters text _ _ =>
      {| p_query := None; p_url := None; p_highlightText := None;
         p_text := Some text |}
  | AnalysisParameters _ query =>
      {| p_query := Some query; p_url := None; p_highlightText := None;
         p_text := None |}
  end.

(** The plan as the executor reads it. *)
Definition read_step (step : PlannedStep) : Step :=
  {| step_id := ps_id step; step_type := ps_type step;
     step_description := ps_description step; step_tool := ps_tool step;
     step_parameters := option_map read_parameters (ps_parameters step);
     step_dependencies := ps_dependencies step |}.

Definition read_plan (plan : CreatedPlan) : Plan :=
  {| plan_id := cp_id plan; plan_type := cp_type plan;
     plan_query := cp_query plan;
     steps := map read_step (cp_steps plan) |}.

(** Inputs of the examples. *)
Definition fox_analysis : Analysis :=
  {| a_query := "how to train a fox"; a_intent := "learning";
     a_entities := 0; a_urgency := "normal"; a_complexity := "medium";
     a_contentType := None |}.

End Planning.

(** ** The action module over its managers *)

Module Action.
Import Exec.

(** [new ToolCallResult(data)], as far as a step result is read:
    [success], [data], [results] and [error]. *)
Definition ToolCallResult (success : bool) (data results : option (list Item))
    (error : option string) : HandlerResult :=
  {| hr_success := success;
     hr_data := data;
     hr_results := Some (default [] results);
     hr_error := if truthy error then error else None |}.

(** What the browser answers to the managers at a given iteration:
    the [results] of the response to the ['SEARCH_QUERY'] message
    ([None] when the response has none; a message that fails and a
    response that is [undefined] both make [performSearch] throw), and
    whether navigating and highlighting resolve ([highlightText] with a
    count) or throw. *)
Record Browser : Type := {
  sendSearchQuery : nat -> option string -> outcome (option (list Item));
  navigateTo : nat -> option string -> option string -> outcome unit;
  highlightText : nat -> option string -> outcome nat
}.

(** An entry of [searchHistory]. *)
Record Search : Type := {
  s_query : option string;
  s_results : option (list Item)
}.

(** [array.slice(-n)] for a positive [n]. *)
Definition slice_last {A : Type} (n : nat) (l : list A) : list A :=
  skipn (length l - n) l.

(** [performSearch] of the search manager: the outcome and the history
    afterwards. *)
Definition performSearch (response : outcome (option (list Item)))
    (query : option string) (searchHistory : list Search)
  : outcome (list Item) * list Search :=
  match response with
  | Rejected error => (Rejected error, searchHistory)
  | Resolved results =>
      let pushed :=
        searchHistory ++ [{| s_query := query; s_results := results |}] in
      (Resolved (default [] results),
       if 50 <? length pushed then slice_last 50 pushed else pushed)
  end.

Section Methods.
Variable browser : Browser.

Definition executeSearch (now : nat) (query : option string)
  : HandlerResult :=
  match fst (performSearch (sendSearchQuery browser now query) query []) with
  | Resolved results => ToolCallResult true None (Some results) None
  | Rejected message => ToolCallResult false None None (Some message)
  end.

Definition executeNavigation (now : nat) (url highlightText : option string)
  : HandlerResult :=
  match navigateTo browser now url highlightText with
  | Resolved _ => ToolCallResult true None None None
  | Rejected message => ToolCallResult false None None (Some message)
  end.

Definition executeHighlight (now : nat) (text : option string)
  : HandlerResult :=
  match highlightText browser now text with
  | Resolved _ => ToolCallResult true None None None
  | Rejected message => ToolCallResult false None None (Some message)
  end.

(** The action module of the agent. *)
Definition actionModule : ActionModule :=
  {| Exec.executeSearch := executeSearch;
     Exec.executeNavigation := executeNavigation;
     Exec.executeHighlight := executeHighlight |}.
End Methods.

(** Every request to the browser resolves. *)
Definition works (browser : Browser) : Prop :=
  (forall now query,
     exists items, sendSearchQuery browser now query = Resolved items) /\
  (forall now url text,
     exists done, navigateTo browser now url text = Resolved done) /\
  (forall now text,
     exists count, highlightText browser now text = Resolved count).

(** A browser in which everything works, and one without a listener for
    the search message. *)
Definition working_browser : Browser :=
  {| sendSearchQuery := fun _ _ => Resolved (Some ["page one"; "page two"]%string);
     navigateTo := fun _ _ _ => Resolved tt;
     highlightText := fun _ _ => Resolved 2 |}.

Definition deaf_browser : Browser :=
  {| sendSearchQuery :=
       fun _ _ => Rejected "Could not establish connection";
     navigateTo := fun _ _ _ => Resolved tt;
     highlightText := fun _ _ => Resolved 2 |}.

End Action.

(** ** The histories of the agent and of the search manager *)

Module Agent.
Import Exec.

(** What [createExecutionResult] does to [this.executionHistory]: the
    result is pushed, and the last 100 entries are kept. *)
Definition remember (executionHistory : list Report) (result : Report)
  : list Report :=
  let pushed := executionHistory ++ [result] in
  if 100 <? length pushed then Action.slice_last 100 pushed else pushed.

(** [executePlan] of the agent: the report, and the history afterwards. *)
Definition executePlan (actionModule : ActionModule)
    (executionHistory : list Report) (plan : Plan) : Report * list Report :=
  let result := Exec.executePlan actionModule plan in
  (result, remember executionHistory result).

(** The history after the plans have been executed in turn. *)
Definition executePlans (actionModule : ActionModule) (plans : list Plan)
    (executionHistory : list Report) : list Report :=
  fold_left (fun history plan => snd (executePlan actionModule history plan))
    plans executionHistory.

(** [getHistory(limit = 10)]: [slice(-limit)], and [slice(-0)] is the
    whole array. *)
Definition getHistory (executionHistory : list Report) (limit : option nat)
  : list Report :=
  let limit := default 10 limit in
  if limit =? 0 then executionHistory
  else Action.slice_last limit executionHistory.

(** [totalQueries] and [successfulQueries] of [getStats]. *)
Definition getStats (executionHistory : list Report) : nat * nat :=
  (length executionHistory, length (filter success executionHistory)).

(** The searches made in turn, each with what the browser answers: the
    history of the search manager afterwards. *)
Definition performSearches
    (calls : list (outcome (option (list Item)) * option string))
    (searchHistory : list Action.Search) : list Action.Search :=
  fold_left (fun history call =>
               snd (Action.performSearch (fst call) (snd call) history))
    calls searchHistory.

(** The entries that the calls which resolve push. *)
Definition pushed_by
    (calls : list (outcome (option (list Item)) * option string))
  : list Action.Search :=
  flat_map (fun call =>
              match fst call with
              | Resolved results =>
                  [{| Action.s_query := snd call;
                      Action.s_results := results |}]
              | Rejected _ => []
              end) calls.

End Agent.

(** * Properties *)

(** ** Numbers *)

Lemma geb_fin_l a b : geb a b = true -> is_fin a.
Proof. destruct a, b; simpl; try discriminate; trivial. Qed.

Lemma gtb_sub_false_ge x y :
  gtb (sub (Fin y) (Fin x)) zero = false -> JsNum.ge (Fin x) (Fin y).
Proof.
  unfold gtb, sub, zero, JsNum.ge.
  destruct (Rlt_dec 0 (y - x)); [discriminate | intros _; lra].
Qed.

Lemma gtb_sub_true_gt x y :
  gtb (sub (Fin y) (Fin x)) zero = true -> (x < y)%R.
Proof.
  unfold gtb, sub, zero.
  destruct (Rlt_dec 0 (y - x)); [intros _; lra | discriminate].
Qed.

(** ** Cosine similarity *)

Lemma psum_nonneg f n : (forall i, 0 <= f i)%R -> (0 <= psum f n)%R.
Proof.
  intros Hf; induction n as [|n IH]; simpl; [lra|].
  specialize (Hf n); lra.
Qed.

Lemma psum_ge_term f n i :
  (forall j, 0 <= f j)%R -> i < n -> (f i <= psum f n)%R.
Proof.
  intros Hf; induction n as [|n IH]; intros Hi; [lia|].
  simpl. destruct (Nat.eq_dec i n) as [->|Hne].
  - pose proof (psum_nonneg f n Hf); lra.
  - assert (Hlt : i < n) by lia. specialize (IH Hlt). specialize (Hf n). lra.
Qed.

Lemma psum_ext f g n :
  (forall i, i < n -> f i = g i) -> psum f n = psum g n.
Proof.
  induction n as [|n IH]; intros H; simpl; [reflexivity|].
  rewrite IH by (intros; apply H; lia). rewrite H by lia. reflexivity.
Qed.

Lemma psum_opp f n : psum (fun i => - f i)%R n = (- psum f n)%R.
Proof. induction n as [|n IH]; simpl; [lra | rewrite IH; lra]. Qed.

Lemma idx_fin_vec a i : i < length a -> idx (fin_vec a) i = Fin (nth i a 0%R).
Proof.
  intros Hi. unfold idx, fin_vec.
  rewrite (nth_indep _ NaN (Fin 0%R)) by (rewrite length_map; exact Hi).
  apply map_nth.
Qed.

(** On vectors of finite numbers the loop computes the three sums. *)
Lemma cos_loop_fin a b n :
  n <= length a -> n <= length b ->
  cos_loop (fin_vec a) (fin_vec b) n =
    (Fin (psum (fun i => nth i a 0 * nth i b 0)%R n),
     Fin (psum (fun i => nth i a 0 * nth i a 0)%R n),
     Fin (psum (fun i => nth i b 0 * nth i b 0)%R n)).
Proof.
  unfold cos_loop. induction n as [|n IH]; intros Ha Hb.
  - reflexivity.
  - rewrite seq_S, fold_left_app, IH by lia. simpl.
    rewrite !idx_fin_vec by lia. reflexivity.
Qed.

Lemma sum_squares_pos a :
  Exists (fun x => x <> 0%R) a ->
  (0 < psum (fun i => nth i a 0 * nth i a 0) (length a))%R.
Proof.
  intros Hex. apply Exists_exists in Hex. destruct Hex as [x [Hin Hx]].
  destruct (In_nth a x 0%R Hin) as [i [Hi Hnth]].
  apply Rlt_le_trans with (nth i a 0 * nth i a 0)%R.
  - rewrite Hnth. nra.
  - apply (psum_ge_term (fun j => nth j a 0 * nth j a 0)%R); [|exact Hi].
    intros j. nra.
Qed.

Lemma cos_finish_ratio d s :
  (0 < s)%R -> cos_finish (Fin d, Fin s, Fin s) = Fin (d / s).
Proof.
  intros Hs. unfold cos_finish, JsNum.sqrt, mul, eqb, div, zero.
  destruct (Rlt_dec s 0) as [Hneg|_]; [lra|].
  rewrite sqrt_sqrt by lra.
  destruct (Req_dec_T s 0) as [E|_]; [lra|].
  reflexivity.
Qed.

Lemma cosineSimilarity_other_dim vecA vecB :
  length vecA <> DIM -> cosineSimilarity vecA vecB = zero.
Proof.
  intros H. unfold cosineSimilarity.
  apply Nat.eqb_neq in H. rewrite H. cbn [negb].
  now rewrite orb_true_r.
Qed.

Lemma cosineSimilarity_bg_eq vecA vecB :
  cosineSimilarity_bg vecA vecB = cosineSimilarity vecA vecB.
Proof.
  unfold cosineSimilarity_bg, cosineSimilarity.
  destruct (length vecA =? length vecB) eqn:E; cbn [negb orb]; [|reflexivity].
  apply Nat.eqb_eq in E. rewrite <- E.
  now destruct (length vecA =? DIM).
Qed.

Lemma cosineSimilarity_self (v : list R) :
  length v = DIM ->
  Exists (fun x => x <> 0%R) v ->
  cosineSimilarity (fin_vec v) (fin_vec v) = Fin 1.
Proof.
  intros Hlen Hnz.
  pose proof (sum_squares_pos v Hnz) as Hpos.
  assert (Hlv : length (fin_vec v) = DIM)
    by (unfold fin_vec; now rewrite length_map).
  unfold cosineSimilarity.
  rewrite Hlv, Nat.eqb_refl. cbn [negb orb].
  rewrite <- Hlen, cos_loop_fin by lia.
  rewrite cos_finish_ratio by exact Hpos. f_equal. field. lra.
Qed.

Lemma cosineSimilarity_opposite (v : list R) :
  length v = DIM ->
  Exists (fun x => x <> 0%R) v ->
  cosineSimilarity (fin_vec v) (fin_vec (vneg v)) = Fin (-1).
Proof.
  intros Hlen Hnz.
  pose proof (sum_squares_pos v Hnz) as Hpos.
  set (s := psum (fun i => nth i v 0 * nth i v 0)%R (length v)) in *.
  assert (Hlv : length (fin_vec v) = DIM)
    by (unfold fin_vec; now rewrite length_map).
  assert (Hln : length (fin_vec (vneg v)) = DIM)
    by (unfold fin_vec, vneg; now rewrite !length_map).
  assert (Hn : length (vneg v) = length v)
    by (unfold vneg; now rewrite length_map).
  assert (Hnth : forall i, nth i (vneg v) 0%R = (- nth i v 0)%R).
  { intros i. unfold vneg. rewrite <- Ropp_0 at 1. apply map_nth. }
  unfold cosineSimilarity.
  rewrite Hlv, Hln, Nat.eqb_refl. cbn [negb orb].
  rewrite <- Hlen, cos_loop_fin by lia.
  rewrite (psum_ext (fun i => nth i v 0 * nth i (vneg v) 0)%R
             (fun i => - (nth i v 0 * nth i v 0))%R)
    by (intros i _; rewrite Hnth; ring).
  rewrite (psum_ext (fun i => nth i (vneg v) 0 * nth i (vneg v) 0)%R
             (fun i => nth i v 0 * nth i v 0)%R)
    by (intros i _; rewrite Hnth; ring).
  rewrite psum_opp. fold s.
  rewrite cos_finish_ratio by exact Hpos. f_equal. field. lra.
Qed.

Lemma ones_length : length ones = DIM.
Proof. apply repeat_length. Qed.

Lemma ones_not_zero : Exists (fun x => x <> 0%R) ones.
Proof.
  unfold ones. replace DIM with (S (pred DIM)) by reflexivity.
  apply Exists_cons_hd. lra.
Qed.

(** C1, as the code has it: on every vector of finite entries, of
    dimension exactly 3072 and not zero everywhere,
    [cosineSimilarity(v, v)] is 1 and [cosineSimilarity(v, -v)] is -1
    (over the reals, hence within every tolerance). *)
Theorem cosineSimilarity_self_and_opposite (v : list R) :
  length v = DIM ->
  Exists (fun x => x <> 0%R) v ->
  cosineSimilarity (fin_vec v) (fin_vec v) = Fin 1 /\
  cosineSimilarity (fin_vec v) (fin_vec (vneg v)) = Fin (-1).
Proof.
  intros Hlen Hnz. split.
  - now apply cosineSimilarity_self.
  - now apply cosineSimilarity_opposite.
Qed.

Lemma cosineSimilarity_self_and_opposite_witness :
  cosineSimilarity (fin_vec ones) (fin_vec ones) = Fin 1 /\
  cosineSimilarity (fin_vec ones) (fin_vec (vneg ones)) = Fin (-1).
Proof.
  apply (cosineSimilarity_self_and_opposite ones).
  - exact ones_length.
  - exact ones_not_zero.
Defined.

(** C1 as stated fails off dimension 3072: the one-dimensional vector
    [[1]] is not zero, and its similarity with itself is 0, not within
    1/2 of 1. *)
Lemma cosineSimilarity_one_dimensional :
  ~ approx (1 / 2) (cosineSimilarity (fin_vec [1%R]) (fin_vec [1%R])) 1.
Proof.
  rewrite cosineSimilarity_other_dim by (simpl; unfold DIM; lia).
  unfold approx, zero.
  replace (0 - 1)%R with (- (1))%R by ring.
  rewrite Rabs_Ropp, Rabs_R1. lra.
Qed.

(** ** Sorting by descending score *)

Lemma Forall_sort_insert (P : SearchResult -> Prop) x l :
  P x -> Forall P l -> Forall P (sort_insert by_score_desc x l).
Proof.
  intros Hx Hl. induction Hl as [|y l Hy Hl IH]; simpl.
  - now constructor.
  - destruct (gtb (by_score_desc x y) zero); constructor; auto.
Qed.

Lemma Forall_js_sort (P : SearchResult -> Prop) l :
  Forall P l -> Forall P (js_sort by_score_desc l).
Proof.
  induction 1 as [|x l Hx Hl IH]; simpl; [constructor|].
  now apply Forall_sort_insert.
Qed.

Lemma desc_trans a b c : desc a b -> desc b c -> desc a c.
Proof.
  unfold desc, JsNum.ge.
  destruct (score a), (score b), (score c); try tauto. lra.
Qed.

Lemma sort_insert_sorted x l :
  fin_score x -> Forall fin_score l ->
  StronglySorted desc l ->
  StronglySorted desc (sort_insert by_score_desc x l).
Proof.
  intros Hx Hfin Hs. induction Hs as [|y l Hs IH Hy]; simpl.
  - constructor; constructor.
  - inversion Hfin as [|? ? Hfy Hfl]; subst.
    unfold by_score_desc at 1.
    unfold fin_score in Hx, Hfy.
    destruct (score x) as [|sx] eqn:Ex; [contradiction|].
    destruct (score y) as [|sy] eqn:Ey; [contradiction|].
    destruct (gtb (sub (Fin sy) (Fin sx)) zero) eqn:G.
    + apply gtb_sub_true_gt in G.
      constructor; [apply IH; assumption|].
      apply Forall_sort_insert; [|exact Hy].
      unfold desc, JsNum.ge. rewrite Ex, Ey. lra.
    + apply gtb_sub_false_ge in G.
      assert (Hxy : desc x y) by (unfold desc; now rewrite Ex, Ey).
      constructor.
      * now constructor.
      * constructor; [exact Hxy|].
        eapply Forall_impl; [|exact Hy].
        intros z Hz. now apply desc_trans with y.
Qed.

Lemma js_sort_sorted l :
  Forall fin_score l -> StronglySorted desc (js_sort by_score_desc l).
Proof.
  induction 1 as [|x l Hx Hl IH]; simpl; [constructor|].
  apply sort_insert_sorted; auto. now apply Forall_js_sort.
Qed.

Lemma gtb_by_score_differ x y :
  gtb (by_score_desc x y) zero = true -> score x <> score y.
Proof.
  unfold by_score_desc. intros G E. rewrite E in G.
  destruct (score y) as [|sy]; [discriminate|].
  apply gtb_sub_true_gt in G. lra.
Qed.

(** Stability: inside a class of equal scores, sorting keeps the order. *)
Lemma sort_insert_stable s x l :
  filter (has_score s) (sort_insert by_score_desc x l) =
  filter (has_score s) (x :: l).
Proof.
  induction l as [|y l IH]; [reflexivity|].
  simpl sort_insert.
  destruct (gtb (by_score_desc x y) zero) eqn:G; [|reflexivity].
  apply gtb_by_score_differ in G.
  change (filter (has_score s) (y :: sort_insert by_score_desc x l))
    with (if has_score s y
          then y :: filter (has_score s) (sort_insert by_score_desc x l)
          else filter (has_score s) (sort_insert by_score_desc x l)).
  rewrite IH. simpl. unfold has_score.
  destruct (jsnum_eq_dec (score x) s) as [Hx|Hx],
           (jsnum_eq_dec (score y) s) as [Hy|Hy]; try reflexivity.
  congruence.
Qed.

Lemma js_sort_stable s l :
  filter (has_score s) (js_sort by_score_desc l) = filter (has_score s) l.
Proof.
  induction l as [|x l IH]; [reflexivity|].
  simpl js_sort. rewrite sort_insert_stable. simpl. now rewrite IH.
Qed.

Lemma StronglySorted_firstn (R : SearchResult -> SearchResult -> Prop) n l :
  StronglySorted R l -> StronglySorted R (firstn n l).
Proof.
  intros H. revert n. induction H as [|x l Hs IH Hx]; intros [|n]; simpl;
    try constructor; auto.
  rewrite Forall_forall in *. intros z Hz. apply Hx.
  rewrite <- (firstn_skipn n l). apply in_or_app. now left.
Qed.

Lemma In_firstn (r : SearchResult) n l : In r (firstn n l) -> In r l.
Proof.
  intros H. rewrite <- (firstn_skipn n l). apply in_or_app. now left.
Qed.

(** ** The scan of the memories *)

Section SearchFacts.
Variable getEmbedding : jsstring -> outcome (option vec).
Variable memories : list Memory.
Variable embeddings : list EmbeddingEntry.

Lemma scan_memory_cases type minScore q memory :
  scan_memory embeddings type minScore q memory = [] \/
  exists entry stored,
    find_embedding embeddings memory = Some entry /\
    emb_embedding entry = Some stored /\
    length stored = DIM /\
    geb (cosineSimilarity q stored) minScore = true /\
    scan_memory embeddings type minScore q memory =
      [{| res_memory := memory; score := cosineSimilarity q stored;
          matchType := "gemini-3072d" |}].
Proof.
  unfold scan_memory.
  destruct (truthy type && _); [now left|].
  destruct (find_embedding embeddings memory) as [entry|]; [|now left].
  destruct (emb_embedding entry) as [stored|] eqn:Es; [|now left].
  destruct (length stored =? DIM) eqn:El; cbn [negb]; [|now left].
  destruct (geb (cosineSimilarity q stored) minScore) eqn:G; [|now left].
  right. exists entry, stored. apply Nat.eqb_eq in El. auto.
Qed.

Lemma scan_fin type minScore q :
  Forall fin_score (scan memories embeddings type minScore q).
Proof.
  unfold scan. apply Forall_flat_map. apply Forall_forall. intros m _.
  destruct (scan_memory_cases type minScore q m)
    as [E | (entry & stored & _ & _ & _ & G & E)]; rewrite E.
  - constructor.
  - constructor; [|constructor].
    unfold fin_score; simpl. now apply geb_fin_l in G.
Qed.

(** The scan goes through the memories in their order and keeps or
    drops each of them. *)
Lemma scan_in_memory_order type minScore q :
  map res_memory (scan memories embeddings type minScore q) =
  filter (fun m =>
            negb (Nat.eqb (length (scan_memory embeddings type minScore q m)) 0))
         memories.
Proof.
  unfold scan. induction memories as [|m ms IH]; [reflexivity|].
  simpl. rewrite map_app, IH.
  destruct (scan_memory_cases type minScore q m)
    as [E | (entry & stored & _ & _ & _ & _ & E)]; rewrite E; reflexivity.
Qed.
End SearchFacts.

Lemma search_resolved getEmbedding memories embeddings query options d :
  destructure options = Resolved d ->
  search getEmbedding memories embeddings query options =
  Resolved
    (firstn (d_limit d)
       (js_sort by_score_desc
          (candidates getEmbedding memories embeddings query d))).
Proof.
  intros Hd. unfold search, search_try, candidates. rewrite Hd.
  destruct (getEmbedding query) as [[q|]|e]; try reflexivity;
    now rewrite firstn_nil.
Qed.

(** The search at work: with the default [minScore] of 0.12 only [along]
    is returned; with a [minScore] of -1 both memories are, [along] first
    although it was stored last. *)
Example search_ranks_by_score :
  search ones_service [against; along] two_entries (of_string "fox")
    (Object default_options) =
  Resolved [{| res_memory := along; score := Fin 1;
               matchType := "gemini-3072d" |}] /\
  search ones_service [against; along] two_entries (of_string "fox")
    (Object any_score) =
  Resolved [{| res_memory := along; score := Fin 1;
               matchType := "gemini-3072d" |};
            {| res_memory := against; score := Fin (-1);
               matchType := "gemini-3072d" |}].
Proof.
  assert (Hlen : (length (fin_vec ones) =? DIM) = true).
  { apply Nat.eqb_eq. unfold fin_vec. now rewrite length_map, ones_length. }
  assert (Hneg : (length (fin_vec (vneg ones)) =? DIM) = true).
  { apply Nat.eqb_eq. unfold fin_vec, vneg.
    now rewrite !length_map, ones_length. }
  assert (G1 : geb (Fin 1) (Fin 0.12) = true)
    by (unfold geb; destruct (Rle_dec 0.12 1); [reflexivity | lra]).
  assert (G2 : geb (Fin (-1)) (Fin 0.12) = false)
    by (unfold geb; destruct (Rle_dec 0.12 (-1)); [lra | reflexivity]).
  assert (G3 : geb (Fin 1) (Fin (-1)) = true)
    by (unfold geb; destruct (Rle_dec (-1) 1); [reflexivity | lra]).
  assert (G4 : geb (Fin (-1)) (Fin (-1)) = true)
    by (unfold geb; destruct (Rle_dec (-1) (-1)); [reflexivity | lra]).
  assert (G5 : gtb (sub (Fin 1) (Fin (-1))) zero = true)
    by (unfold gtb, sub, zero; destruct (Rlt_dec 0 (1 - -1));
        [reflexivity | lra]).
  unfold search, search_try, ones_service, scan.
  cbn [destructure d_limit d_type d_minScore flat_map app default opt_limit
       opt_type opt_minScore default_options any_score].
  unfold scan_memory, find_embedding, two_entries.
  cbn [truthy andb negb mem_type mem_id against along find emb_id
       emb_embedding String.eqb Ascii.eqb Bool.eqb default].
  rewrite Hlen, Hneg. cbn [negb].
  rewrite (cosineSimilarity_self ones ones_length ones_not_zero).
  rewrite (cosineSimilarity_opposite ones ones_length ones_not_zero).
  rewrite G1, G2, G3, G4. cbn [app js_sort sort_insert].
  unfold by_score_desc. cbn [score]. rewrite G5.
  split; reflexivity.
Qed.

Lemma sort_insert_perm x l :
  Permutation (x :: l) (sort_insert by_score_desc x l).
Proof.
  induction l as [|y l IH]; [apply Permutation_refl|].
  simpl. destruct (gtb (by_score_desc x y) zero).
  - apply perm_trans with (y :: x :: l); [apply perm_swap|].
    now apply perm_skip.
  - apply Permutation_refl.
Qed.

Lemma js_sort_perm l : Permutation l (js_sort by_score_desc l).
Proof.
  induction l as [|x l IH]; [apply perm_nil|].
  simpl. apply perm_trans with (x :: js_sort by_score_desc l).
  - now apply perm_skip.
  - apply sort_insert_perm.
Qed.

Lemma In_js_sort r l : In r (js_sort by_score_desc l) <-> In r l.
Proof.
  split; intros H.
  - apply Permutation_in with (js_sort by_score_desc l);
      [apply Permutation_sym, js_sort_perm | exact H].
  - apply Permutation_in with l; [apply js_sort_perm | exact H].
Qed.

Lemma candidates_fin getEmbedding memories embeddings query d :
  Forall fin_score (candidates getEmbedding memories embeddings query d).
Proof.
  unfold candidates.
  destruct (getEmbedding query) as [[q|]|e]; try constructor.
  apply scan_fin.
Qed.

(** C5: the list [search] returns is the first [limit] items of the
    ranking of the scan results, and this ranking is a rearrangement of
    the scan results that is sorted by non-increasing score and that,
    inside each class of equal scores, keeps the order of the scan, which
    is the order of the memories.  So the list is sorted too, and holds
    [limit] items, or all the scan results when they are fewer. *)
Theorem search_sorted_stable_truncated
    getEmbedding memories embeddings query options d :
  destructure options = Resolved d ->
  exists ranked out,
    search getEmbedding memories embeddings query options = Resolved out /\
    out = firstn (d_limit d) ranked /\
    Permutation (candidates getEmbedding memories embeddings query d)
      ranked /\
    StronglySorted desc ranked /\
    (forall s,
       filter (has_score s) ranked =
       filter (has_score s)
         (candidates getEmbedding memories embeddings query d)) /\
    (exists keep,
       map res_memory (candidates getEmbedding memories embeddings query d) =
       filter keep memories) /\
    StronglySorted desc out /\
    length out =
      Nat.min (d_limit d)
        (length (candidates getEmbedding memories embeddings query d)).
Proof.
  intros Hd.
  set (cands := candidates getEmbedding memories embeddings query d).
  exists (js_sort by_score_desc cands).
  exists (firstn (d_limit d) (js_sort by_score_desc cands)).
  pose proof (candidates_fin getEmbedding memories embeddings query d)
    as Hfin. fold cands in Hfin.
  split; [now apply search_resolved|].
  split; [reflexivity|].
  split; [apply js_sort_perm|].
  split; [now apply js_sort_sorted|].
  split; [intros s; apply js_sort_stable|].
  split; [|split].
  - unfold cands, candidates.
    destruct (getEmbedding query) as [[q|]|e].
    + eexists. apply scan_in_memory_order.
    + exists (fun _ => false). clear. induction memories; auto.
    + exists (fun _ => false). clear. induction memories; auto.
  - apply StronglySorted_firstn. now apply js_sort_sorted.
  - rewrite length_firstn.
    now rewrite <- (Permutation_length (js_sort_perm cands)).
Qed.

Lemma search_sorted_stable_truncated_witness :
  let d := {| d_limit := 10; d_type := Some "web_page"%string;
              d_minScore := Fin (-1) |} in
  let cands :=
    candidates ones_service [against; along] two_entries (of_string "fox")
      d in
  exists ranked out,
    search ones_service [against; along] two_entries (of_string "fox")
      (Object any_score) = Resolved out /\
    out = firstn (d_limit d) ranked /\
    Permutation cands ranked /\
    StronglySorted desc ranked /\
    (forall s, filter (has_score s) ranked = filter (has_score s) cands) /\
    (exists keep, map res_memory cands = filter keep [against; along]) /\
    StronglySorted desc out /\
    length out = Nat.min (d_limit d) (length cands).
Proof.
  apply (search_sorted_stable_truncated ones_service [against; along]
           two_entries (of_string "fox") (Object any_score)
           {| d_limit := 10; d_type := Some "web_page"%string;
              d_minScore := Fin (-1) |}).
  reflexivity.
Defined.

(** What the results say of a memory whose stored vector is [stored]. *)
Lemma result_of_memory getEmbedding memories embeddings query d q memory
    entry stored r :
  getEmbedding query = Resolved (Some q) ->
  find_embedding embeddings memory = Some entry ->
  emb_embedding entry = Some stored ->
  In r (candidates getEmbedding memories embeddings query d) ->
  mem_id (res_memory r) = mem_id memory ->
  length stored = DIM /\
  score r = cosineSimilarity q stored /\
  geb (cosineSimilarity q stored) (d_minScore d) = true.
Proof.
  intros Hq Hfind Hvec Hc Hid.
  unfold candidates in Hc. rewrite Hq in Hc.
  unfold scan in Hc. apply in_flat_map in Hc. destruct Hc as [m [_ Hm]].
  destruct (scan_memory_cases embeddings (d_type d) (d_minScore d) q m)
    as [E | (entry' & stored' & Hf' & Hv' & Hl' & G & E)];
    rewrite E in Hm; [contradiction|].
  destruct Hm as [<-|[]]. simpl in Hid.
  unfold find_embedding in Hf', Hfind. rewrite Hid in Hf'.
  rewrite Hfind in Hf'. inversion Hf'; subst entry'.
  rewrite Hvec in Hv'. inversion Hv'; subst stored'. auto.
Qed.

Lemma cosineSimilarity_mismatch vecA vecB :
  length vecB <> length vecA -> cosineSimilarity vecA vecB = zero.
Proof.
  intros H. unfold cosineSimilarity.
  destruct (Nat.eqb_spec (length vecA) (length vecB)) as [E|_];
    [congruence | reflexivity].
Qed.

(** C6, as the code has it: whatever the dimensions, the search
    completes normally.  A memory whose stored vector has another
    dimension than the query vector, the one the active provider
    returned, is in the results only if its vector has 3072 entries, only
    with the score 0, and only if 0 reaches [minScore]: it never appears
    when the provider's dimension is 3072, nor when [minScore] is
    positive, as the default 0.12 is. *)
Theorem search_dimension_mismatch
    getEmbedding memories embeddings query options d q memory entry stored :
  destructure options = Resolved d ->
  getEmbedding query = Resolved (Some q) ->
  find_embedding embeddings memory = Some entry ->
  emb_embedding entry = Some stored ->
  length stored <> length q ->
  exists out,
    search getEmbedding memories embeddings query options = Resolved out /\
    (forall r,
       In r out -> mem_id (res_memory r) = mem_id memory ->
       length stored = DIM /\ score r = zero /\
       geb zero (d_minScore d) = true) /\
    (length q = DIM ->
     forall r, In r out -> mem_id (res_memory r) <> mem_id memory) /\
    (gtb (d_minScore d) zero = true ->
     forall r, In r out -> mem_id (res_memory r) <> mem_id memory).
Proof.
  intros Hd Hq Hfind Hvec Hlen.
  eexists. split; [apply (search_resolved _ _ _ _ _ d Hd)|].
  assert (Hin : forall r,
             In r (firstn (d_limit d)
                     (js_sort by_score_desc
                        (candidates getEmbedding memories embeddings query
                           d))) ->
             mem_id (res_memory r) = mem_id memory ->
             length stored = DIM /\ score r = zero /\
             geb zero (d_minScore d) = true).
  { intros r Hr Hid. apply In_firstn in Hr.
    apply (proj1 (In_js_sort _ _)) in Hr.
    destruct (result_of_memory _ _ _ _ _ _ _ _ _ _ Hq Hfind Hvec Hr Hid)
      as (Hl & Hs & G).
    rewrite (cosineSimilarity_mismatch q stored Hlen) in Hs, G. auto. }
  split; [exact Hin|]. split.
  - intros Hdim r Hr Hid. destruct (Hin r Hr Hid) as (Hl & _ & _).
    congruence.
  - intros Hpos r Hr Hid. destruct (Hin r Hr Hid) as (_ & _ & G).
    unfold gtb, geb, zero in *.
    destruct (d_minScore d) as [|m]; [discriminate|].
    destruct (Rlt_dec 0 m); [|discriminate].
    destruct (Rle_dec m 0); [lra | discriminate].
Qed.

Lemma search_dimension_mismatch_witness :
  exists out,
    search ones_service [short_memory; along] [short_entry; along_entry]
      (of_string "fox") (Object any_score) = Resolved out /\
    (forall r,
       In r out -> mem_id (res_memory r) = mem_id short_memory ->
       length [Fin 1%R] = DIM /\ score r = zero /\
       geb zero (Fin (-1)) = true) /\
    (length (fin_vec ones) = DIM ->
     forall r, In r out -> mem_id (res_memory r) <> mem_id short_memory) /\
    (gtb (Fin (-1)) zero = true ->
     forall r, In r out -> mem_id (res_memory r) <> mem_id short_memory).
Proof.
  apply (search_dimension_mismatch ones_service [short_memory; along]
           [short_entry; along_entry] (of_string "fox") (Object any_score)
           {| d_limit := 10; d_type := Some "web_page"%string;
              d_minScore := Fin (-1) |}
           (fin_vec ones) short_memory short_entry [Fin 1%R]).
  - reflexivity.
  - reflexivity.
  - reflexivity.
  - reflexivity.
  - unfold fin_vec. rewrite length_map, ones_length.
    cbn [length]. unfold DIM. lia.
Defined.

(** The length test at work: the threshold -1 lets every score in, the
    memory whose vector has one entry is skipped by the test on its
    length, and [along] is returned. *)
Example search_skips_short_vector :
  search ones_service [short_memory; along] [short_entry; along_entry]
    (of_string "fox") (Object any_score) =
  Resolved [{| res_memory := along; score := Fin 1;
               matchType := "gemini-3072d" |}].
Proof.
  assert (Hlen : (length (fin_vec ones) =? DIM) = true).
  { apply Nat.eqb_eq. unfold fin_vec. now rewrite length_map, ones_length. }
  assert (Hshort : (length [Fin 1%R] =? DIM) = false).
  { apply Nat.eqb_neq. cbn [length]. unfold DIM. lia. }
  assert (G : geb (Fin 1) (Fin (-1)) = true)
    by (unfold geb; destruct (Rle_dec (-1) 1); [reflexivity | lra]).
  unfold search, search_try, ones_service, scan.
  cbn [destructure d_limit d_type d_minScore flat_map app default opt_limit
       opt_type opt_minScore any_score].
  unfold scan_memory, find_embedding.
  cbn [truthy andb negb mem_type mem_id short_memory along find emb_id
       emb_embedding short_entry along_entry String.eqb Ascii.eqb Bool.eqb
       default].
  rewrite Hlen, Hshort. cbn [negb].
  rewrite (cosineSimilarity_self ones ones_length ones_not_zero).
  rewrite G. reflexivity.
Qed.

(** C6 as stated fails: the provider embeds the query in 384 dimensions,
    the stored vector of [along] has 3072, and with a [minScore] of 0 the
    search returns [along], with the score 0. *)
Lemma mismatched_memory_is_returned :
  length (fin_vec ones) <> length (fin_vec (repeat 1%R 384)) /\
  search local_service [along] [along_entry] (of_string "fox")
    (Object zero_threshold) =
  Resolved [{| res_memory := along; score := zero;
               matchType := "gemini-3072d" |}].
Proof.
  assert (Hlen : length (fin_vec ones) = DIM).
  { unfold fin_vec. now rewrite length_map, ones_length. }
  assert (H384 : length (fin_vec (repeat 1%R 384)) = 384).
  { unfold fin_vec. now rewrite length_map, repeat_length. }
  split; [rewrite Hlen, H384; unfold DIM; lia|].
  assert (G : geb zero zero = true)
    by (unfold geb, zero; destruct (Rle_dec 0 0); [reflexivity | lra]).
  unfold search, search_try, local_service, scan.
  cbn [destructure d_limit d_type d_minScore flat_map app default opt_limit
       opt_type opt_minScore zero_threshold].
  unfold scan_memory, find_embedding.
  cbn [truthy andb negb mem_type mem_id along find emb_id emb_embedding
       along_entry String.eqb Ascii.eqb Bool.eqb default].
  apply Nat.eqb_eq in Hlen. rewrite Hlen. cbn [negb].
  rewrite cosineSimilarity_other_dim by (rewrite H384; unfold DIM; lia).
  rewrite G. reflexivity.
Qed.

(** A query embedded in another dimension than 3072 does not stop the
    search: [cosineSimilarity] answers 0 for every stored vector, so that
    every result, if any, has score 0. *)
Remark search_query_of_other_dimension
    getEmbedding memories embeddings query options d q :
  destructure options = Resolved d ->
  getEmbedding query = Resolved (Some q) ->
  length q <> DIM ->
  exists out,
    search getEmbedding memories embeddings query options = Resolved out /\
    forall r, In r out -> score r = zero.
Proof.
  intros Hd Hq Hlen. eexists.
  split; [apply (search_resolved _ _ _ _ _ d Hd)|].
  intros r Hr. apply In_firstn in Hr.
  assert (Hall : Forall (fun r => score r = zero)
                   (candidates getEmbedding memories embeddings query d)).
  { unfold candidates. rewrite Hq. unfold scan.
    apply Forall_flat_map. apply Forall_forall. intros m _.
    destruct (scan_memory_cases embeddings (d_type d) (d_minScore d) q m)
      as [E | (entry & stored & _ & _ & _ & _ & E)]; rewrite E.
    - constructor.
    - constructor; [|constructor]. cbn [score].
      now apply cosineSimilarity_other_dim. }
  apply (Forall_js_sort _ _) in Hall.
  rewrite Forall_forall in Hall. now apply Hall.
Qed.

(** C9, as the code has it: [search] rejects exactly when [options] is
    [null], the destructuring of [options] standing before the [try].
    For every other [options] it resolves: whenever the body of the
    [try] throws, as it does when the query cannot be embedded, it
    resolves with the empty list, which is also the answer of a search
    over no memory. *)
Theorem search_rejects_on_null_options_only
    getEmbedding memories embeddings query options :
  ((exists e,
      search getEmbedding memories embeddings query options = Rejected e)
   <-> options = Null) /\
  (forall d,
     destructure options = Resolved d ->
     exists out,
       search getEmbedding memories embeddings query options =
         Resolved out /\
       (forall e,
          search_try getEmbedding memories embeddings query d =
            Rejected e -> out = []) /\
       (embedding_failed (getEmbedding query) -> out = []) /\
       search getEmbedding [] embeddings query options = Resolved []).
Proof.
  split.
  - unfold search. split.
    + intros [e H]. destruct options as [| |o]; [|reflexivity|];
        cbn [destructure] in H;
        destruct (search_try getEmbedding memories embeddings query _);
        discriminate.
    + intros ->. eexists. reflexivity.
  - intros d Hd. unfold search. rewrite Hd.
    unfold search_try, embedding_failed.
    destruct (getEmbedding query) as [[q|]|e] eqn:E.
    + eexists. split; [reflexivity|]. repeat split.
      * discriminate.
      * contradiction.
      * simpl. now rewrite firstn_nil.
    + exists []. repeat split; auto.
    + exists []. repeat split; auto.
Qed.

(** C9 as stated fails: with [null] for [options] the search rejects. *)
Lemma search_null_options_rejects :
  search ones_service [along] [along_entry] (of_string "fox") Null =
  Rejected
    "TypeError: Cannot destructure property 'limit' of 'options' as it is null.".
Proof. reflexivity. Qed.

(** ** Provider fallback *)

Module FallbackFacts.
Import Fallback.

Lemma map_get_In name m P : map_get name m = Some P -> In (name, P) m.
Proof.
  induction m as [|[k p] m IH]; simpl; [discriminate|].
  destruct (k =? name)%string eqn:E.
  - intros H; inversion H; subst. apply String.eqb_eq in E; subst. now left.
  - intros H; right; auto.
Qed.

Lemma map_get_first name P pre post :
  ~ In name (map fst pre) ->
  map_get name (pre ++ (name, P) :: post) = Some P.
Proof.
  induction pre as [|[k p] pre IH]; simpl; intros Hn.
  - now rewrite String.eqb_refl.
  - destruct (k =? name)%string eqn:E.
    + apply String.eqb_eq in E. tauto.
    + apply IH. tauto.
Qed.

Lemma is_not_current_spec c n :
  is_not_current (Some c) n = true <-> n <> c.
Proof.
  simpl. rewrite negb_true_iff, String.eqb_neq. split; congruence.
Qed.

(** The loop stops at the first fallback provider that resolves. *)
Lemma try_fallbacks_first_success svc text c p2 P2 v post :
  currentProvider svc = Some c ->
  p2 <> c ->
  embed P2 text = Resolved v ->
  forall pre called,
    (forall n P, In (n, P) pre -> n <> c ->
                 exists e, embed P text = Rejected e) ->
    try_fallbacks svc text (pre ++ (p2, P2) :: post) called =
      {| result := Resolved v;
         service_after :=
           {| currentProvider := Some p2; providers := providers svc |};
         attempts := called ++ fallback_names (Some c) pre ++ [p2] |}.
Proof.
  intros Hc Hne Hv. induction pre as [|[n P] pre IH]; intros called Hpre.
  - cbn [app try_fallbacks]. rewrite Hc.
    replace (is_not_current (Some c) p2) with true
      by (symmetry; now apply is_not_current_spec).
    now rewrite Hv.
  - assert (Hpre' : forall n0 P0, In (n0, P0) pre -> n0 <> c ->
                                  exists e, embed P0 text = Rejected e)
      by (intros n0 P0 Hin0 Hn0; apply (Hpre n0 P0); [now right | exact Hn0]).
    change (((n, P) :: pre) ++ (p2, P2) :: post)
      with ((n, P) :: (pre ++ (p2, P2) :: post)).
    cbn [try_fallbacks]. rewrite Hc.
    unfold fallback_names. cbn [filter fst].
    destruct (is_not_current (Some c) n) eqn:E.
    + apply is_not_current_spec in E.
      destruct (Hpre n P (or_introl eq_refl) E) as [e He]. rewrite He.
      rewrite (IH (called ++ [n]) Hpre').
      unfold fallback_names. cbn [map fst]. now rewrite <- app_assoc.
    + now rewrite (IH called Hpre').
Qed.

(** The loop throws only after every fallback provider has rejected. *)
Lemma try_fallbacks_all_failed svc text rest called :
  result (try_fallbacks svc text rest called) = Rejected ALL_FAILED ->
  forall n P, In (n, P) rest ->
    is_not_current (currentProvider svc) n = true ->
    exists e, embed P text = Rejected e.
Proof.
  revert called. induction rest as [|[k p] rest IH]; intros called Hr n P Hin Hn.
  - contradiction.
  - simpl in Hr. destruct (is_not_current (currentProvider svc) k) eqn:Ek.
    + destruct (embed p text) as [w|e] eqn:Ep; [discriminate|].
      destruct Hin as [Heq|Hin].
      * inversion Heq; subst. now exists e.
      * eapply IH; eauto.
    + destruct Hin as [Heq|Hin].
      * inversion Heq; subst. congruence.
      * eapply IH; eauto.
Qed.

(** C7: when the current provider [P1] fails and [P2] is the first
    provider in registration order, among the others, whose [embed]
    resolves, [getEmbedding] resolves with the vector of [P2] and makes
    [P2] the current provider; a later call on which [P2] resolves calls
    [P2] alone and leaves it current.  And [getEmbedding] throws
    'All embedding providers failed' only when every registered provider
    has rejected on this call. *)
Theorem getEmbedding_fallback_sticky
    Gm Lc Hf Oa settings svc text p1 P1 :
  currentProvider svc = Some p1 ->
  map_get p1 (providers svc) = Some P1 ->
  (forall e p2 P2 v pre post,
      embed P1 text = Rejected e ->
      providers svc = pre ++ (p2, P2) :: post ->
      p2 <> p1 ->
      ~ In p2 (map fst pre) ->
      (forall n P, In (n, P) pre -> n <> p1 ->
                   exists e', embed P text = Rejected e') ->
      embed P2 text = Resolved v ->
      let run1 := getEmbedding Gm Lc Hf Oa settings svc text in
      result run1 = Resolved v /\
      service_after run1 =
        {| currentProvider := Some p2; providers := providers svc |} /\
      attempts run1 = p1 :: fallback_names (Some p1) pre ++ [p2] /\
      forall text' v',
        embed P2 text' = Resolved v' ->
        getEmbedding Gm Lc Hf Oa settings (service_after run1) text' =
          {| result := Resolved v'; service_after := service_after run1;
             attempts := [p2] |}) /\
  (result (getEmbedding Gm Lc Hf Oa settings svc text) = Rejected ALL_FAILED ->
   forall n P, map_get n (providers svc) = Some P ->
               exists e, embed P text = Rejected e).
Proof.
  intros Hcur Hget. split.
  - intros e p2 P2 v pre post HP1 Hreg Hne Hfresh Hpre HP2 run1.
    assert (E1 : run1 =
              {| result := Resolved v;
                 service_after :=
                   {| currentProvider := Some p2;
                      providers := providers svc |};
                 attempts := [p1] ++ fallback_names (Some p1) pre ++ [p2] |}).
    { unfold run1, getEmbedding, getEmbedding_ready.
      rewrite Hcur, Hget, HP1.
      pose proof (try_fallbacks_first_success svc text p1 p2 P2 v post
                    Hcur Hne HP2 pre [p1] Hpre) as Hrun.
      rewrite <- Hreg in Hrun. exact Hrun. }
    rewrite E1. cbn [result service_after attempts].
    repeat split.
    intros text' v' HP2'.
    unfold getEmbedding, getEmbedding_ready. cbn [currentProvider providers].
    rewrite Hreg, (map_get_first p2 P2 pre post Hfresh), HP2'.
    reflexivity.
  - intros Hres n P Hn.
    unfold getEmbedding, getEmbedding_ready in Hres.
    rewrite Hcur, Hget in Hres.
    destruct (embed P1 text) as [w|e] eqn:HP1; [discriminate|].
    destruct (String.eqb n p1) eqn:En.
    + apply String.eqb_eq in En; subst n.
      rewrite Hget in Hn. inversion Hn; subst. now exists e.
    + apply String.eqb_neq in En.
      apply (try_fallbacks_all_failed svc text (providers svc) [p1] Hres n P).
      * now apply map_get_In.
      * rewrite Hcur. now apply is_not_current_spec.
Qed.

Lemma getEmbedding_fallback_sticky_witness :
  let run1 :=
    getEmbedding P1 P1 P1 P1 (Resolved "gemini"%string) two_providers
      (of_string "fox") in
  result run1 = Resolved [Fin 1%R; Fin 0%R; Fin 0%R] /\
  currentProvider (service_after run1) = Some "p2"%string /\
  attempts run1 = ["p1"; "p2"]%string /\
  attempts
    (getEmbedding P1 P1 P1 P1 (Resolved "gemini"%string) (service_after run1)
       (of_string "fox again")) = ["p2"]%string.
Proof.
  destruct (getEmbedding_fallback_sticky P1 P1 P1 P1
              (Resolved "gemini"%string) two_providers (of_string "fox")
              "p1"%string P1 eq_refl eq_refl) as [Hsticky _].
  specialize (Hsticky "P1 is down"%string "p2"%string P2
                [Fin 1%R; Fin 0%R; Fin 0%R] [("p1"%string, P1)] []
                eq_refl eq_refl).
  destruct Hsticky as (Hres & Hsvc & Hatt & Hnext).
  - discriminate.
  - simpl. intros [H|[]]. discriminate.
  - intros n P [H|[]] Hn. inversion H. congruence.
  - reflexivity.
  - intros run1. fold run1 in Hres, Hsvc, Hatt, Hnext.
    split; [exact Hres|].
    split; [now rewrite Hsvc|].
    split; [exact Hatt|].
    now rewrite (Hnext (of_string "fox again")
                   [Fin 1%R; Fin 0%R; Fin 0%R] eq_refl).
Defined.

(** The run of the example, computed. *)
Example getEmbedding_two_providers :
  getEmbedding P1 P1 P1 P1 (Resolved "gemini"%string) two_providers
    (of_string "fox") =
  {| result := Resolved [Fin 1%R; Fin 0%R; Fin 0%R];
     service_after :=
       {| currentProvider := Some "p2"%string;
          providers := [("p1"%string, P1); ("p2"%string, P2)] |};
     attempts := ["p1"; "p2"]%string |}.
Proof. reflexivity. Qed.

End FallbackFacts.

(** ** Chunking and pooling *)

Module GeminiFacts.
Import Gemini.

Lemma map_nth_seq (r : list R) :
  map (fun i => nth i r 0%R) (seq 0 (length r)) = r.
Proof.
  induction r as [|x r IH]; [reflexivity|].
  cbn [length seq map nth]. rewrite <- seq_shift, map_map.
  cbn [nth]. now rewrite IH.
Qed.

Lemma fold_add_fin (vs : list (list R)) i : forall a,
  (forall r, In r vs -> i < length r) ->
  fold_left (fun sum embedding => add sum (idx embedding i))
    (map fin_vec vs) (Fin a) =
  Fin (a + fold_right Rplus 0 (map (fun r => nth i r 0) vs))%R.
Proof.
  induction vs as [|r vs IH]; intros a Hlen.
  - simpl. f_equal. ring.
  - cbn [map fold_left fold_right].
    rewrite idx_fin_vec by (apply Hlen; now left).
    cbn [add]. rewrite IH by (intros r' Hr'; apply Hlen; now right).
    f_equal. ring.
Qed.

Lemma averaged_at_fin (vs : list (list R)) i :
  vs <> [] ->
  (forall r, In r vs -> length r = DIM) ->
  i < DIM ->
  averaged_at (map fin_vec vs) i = Fin (mean_at vs i).
Proof.
  intros Hne Hlen Hi. unfold averaged_at, mean_at, zero.
  rewrite fold_add_fin by (intros r Hr; rewrite (Hlen r Hr); exact Hi).
  rewrite length_map. cbn [div].
  destruct (Req_dec_T (INR (length vs)) 0) as [E|_].
  - exfalso. destruct vs as [|r vs]; [now apply Hne|].
    apply (not_0_INR (length (r :: vs))); [discriminate | exact E].
  - f_equal. f_equal. ring.
Qed.

Lemma all_some_map_Some {A : Type} (l : list A) :
  all_some (map Some l) = Some l.
Proof. induction l as [|x l IH]; simpl; [|rewrite IH]; reflexivity. Qed.

(** Pooling vectors of finite entries and dimension 3072 gives their
    element-wise mean. *)
Lemma average_is_mean (vs : list (list R)) :
  vs <> [] ->
  (forall r, In r vs -> length r = DIM) ->
  average3072DEmbeddings (map (fun r => Some (fin_vec r)) vs) =
  Resolved (Some (fin_vec (mean vs))).
Proof.
  intros Hne Hlen. destruct vs as [|r1 [|r2 vs]]; [now elim Hne| |].
  - cbn [map average3072DEmbeddings].
    apply (f_equal (fun x : list R => Resolved (Some (fin_vec x)))).
    unfold mean. rewrite <- (Hlen r1 (or_introl eq_refl)).
    rewrite <- (map_nth_seq r1) at 1.
    apply map_ext. intros i. unfold mean_at. cbn. field.
  - set (l := r1 :: r2 :: vs) in *.
    change (average3072DEmbeddings (map (fun r => Some (fin_vec r)) l))
      with (match all_some (map (fun r => Some (fin_vec r)) l) with
            | None =>
                Rejected
                  "TypeError: Cannot read properties of null (reading '0')"
            | Some es => Resolved (Some (map (averaged_at es) (seq 0 DIM)))
            end).
    rewrite <- (map_map fin_vec Some), all_some_map_Some.
    apply (f_equal (fun x : vec => Resolved (Some x))).
    unfold mean, fin_vec at 2. rewrite map_map.
    apply map_ext_in. intros i Hi. apply in_seq in Hi.
    apply averaged_at_fin; [exact Hne | exact Hlen | lia].
Qed.

Lemma embed_chunks_all self (f : jsstring -> option vec) chunks :
  (forall c, In c chunks -> self c = Some (Resolved (f c))) ->
  embed_chunks self chunks = Some (Resolved (map f chunks)).
Proof.
  induction chunks as [|c chunks IH]; intros H; [reflexivity|].
  cbn [embed_chunks map]. rewrite (H c (or_introl eq_refl)).
  rewrite IH by (intros c' Hc'; apply H; now right). reflexivity.
Qed.

Lemma getGemini_oversized apiKey embedContent fuel text :
  apiKey <> ""%string ->
  (CHUNKING_THRESHOLD < blob_size text)%N ->
  getGemini3072DEmbedding apiKey embedContent (S fuel) text =
  getChunked3072DEmbedding_with
    (getGemini3072DEmbedding apiKey embedContent fuel) text.
Proof.
  intros Hk Hs. cbn [getGemini3072DEmbedding].
  apply String.eqb_neq in Hk. rewrite Hk.
  apply N.ltb_lt in Hs. now rewrite Hs.
Qed.

Lemma getGemini_direct apiKey embedContent fuel text :
  apiKey <> ""%string ->
  (blob_size text <= CHUNKING_THRESHOLD)%N ->
  getGemini3072DEmbedding apiKey embedContent (S fuel) text =
  match embedContent text with
  | Resolved values => Some (Resolved (Some values))
  | Rejected e => Some (Rejected e)
  end.
Proof.
  intros Hk Hs. cbn [getGemini3072DEmbedding].
  apply String.eqb_neq in Hk. rewrite Hk.
  apply N.ltb_ge in Hs. now rewrite Hs.
Qed.

(** One more sentence: what the loop does with it. *)
Lemma chunk_step_cases chunks cur s :
  ((CHUNK_BYTES < blob_size (cur ++ s ++ dot_space))%N /\
   (CHUNK_MIN_LENGTH < jslength cur)%N /\
   chunk_step (chunks, cur) s = (chunks ++ [trim cur], s ++ dot_space)) \/
  (~ ((CHUNK_BYTES < blob_size (cur ++ s ++ dot_space))%N /\
      (CHUNK_MIN_LENGTH < jslength cur)%N) /\
   chunk_step (chunks, cur) s = (chunks, cur ++ s ++ dot_space)).
Proof.
  unfold chunk_step.
  destruct (CHUNK_BYTES <? blob_size (cur ++ s ++ dot_space))%N eqn:E1;
    destruct (CHUNK_MIN_LENGTH <? jslength cur)%N eqn:E2; cbn [andb];
    rewrite ?N.ltb_lt, ?N.ltb_ge in *.
  - left. auto.
  - right. split; [|reflexivity]. intros [_ H]. lia.
  - right. split; [|reflexivity]. intros [H _]. lia.
  - right. split; [|reflexivity]. intros [H _]. lia.
Qed.

Lemma body_snoc group sentence :
  body (group ++ [sentence]) = body group ++ sentence ++ dot_space.
Proof.
  unfold body. rewrite map_app, concat_app. cbn [map concat].
  now rewrite app_nil_r.
Qed.

Lemma body_single sentence : body [sentence] = sentence ++ dot_space.
Proof. unfold body. cbn [map concat]. now rewrite app_nil_r. Qed.

(** The loop of the chunker groups the sentences greedily: its chunks
    are the trimmed texts of the closed groups, and its current chunk is
    the text of the open one. *)
Lemma chunk_loop_greedy sentences : forall open chunks,
  exists groups,
    greedy open sentences groups /\
    concat groups = open ++ sentences /\
    groups <> [] /\
    fold_left chunk_step sentences (chunks, body open) =
      (chunks ++ map (fun group => trim (body group)) (removelast groups),
       body (last groups [])).
Proof.
  induction sentences as [|sentence rest IH]; intros open chunks.
  - exists [open]. split; [constructor|].
    split; [reflexivity|]. split; [discriminate|].
    cbn [fold_left removelast map last]. now rewrite app_nil_r.
  - destruct (chunk_step_cases chunks (body open) sentence)
      as [(H1 & H2 & E) | (Hno & E)].
    + destruct (IH [sentence] (chunks ++ [trim (body open)]))
        as (groups & Hg & Hc & Hne & Hf).
      exists (open :: groups).
      split; [apply greedy_close; [split; assumption | exact Hg]|].
      split; [cbn [concat]; now rewrite Hc|].
      split; [discriminate|].
      cbn [fold_left].
      transitivity
        (fold_left chunk_step rest
           (chunks ++ [trim (body open)], body [sentence])).
      { apply (f_equal (fold_left chunk_step rest)).
        rewrite body_single. exact E. }
      rewrite Hf. destruct groups as [|g groups]; [now elim Hne|].
      cbn [removelast map last]. now rewrite <- app_assoc.
    + destruct (IH (open ++ [sentence]) chunks)
        as (groups & Hg & Hc & Hne & Hf).
      exists groups.
      split; [apply greedy_extend; assumption|].
      split; [now rewrite Hc, <- app_assoc|].
      split; [assumption|].
      cbn [fold_left].
      transitivity
        (fold_left chunk_step rest (chunks, body (open ++ [sentence]))).
      { apply (f_equal (fold_left chunk_step rest)).
        rewrite body_snoc. exact E. }
      exact Hf.
Qed.

Lemma chunks_of_greedy text :
  exists groups,
    greedy [] (sentences_of text) groups /\
    concat groups = sentences_of text /\
    chunks_of text = chunks_from groups.
Proof.
  destruct (chunk_loop_greedy (sentences_of text) [] [])
    as (groups & Hg & Hc & _ & Hf).
  exists groups. split; [exact Hg|]. split; [exact Hc|].
  unfold chunks_of, chunks_from.
  destruct (fold_left chunk_step (sentences_of text) ([], []))
    as [chunks currentChunk] eqn:E.
  assert (E' : (chunks, currentChunk) =
               (map (fun group => trim (body group)) (removelast groups),
                body (last groups []))).
  { rewrite <- E. exact Hf. }
  inversion E'; subst.
  destruct (50 <? jslength (trim (body (last groups []))))%N;
    [reflexivity | now rewrite app_nil_r].
Qed.

(** C8, as the code has it: on a text above 35000 bytes, the chunks are
    those of a greedy grouping of the kept sentences, in their order and
    each followed by ['. ']: a group is closed and a new one started with
    the next sentence exactly when the group extended by that sentence
    would exceed 30000 bytes and the group is already longer than 100;
    every closed group gives a chunk, and so does the last group when it
    is longer than 50.  Each chunk is embedded on its own and, the
    per-chunk vectors being the 3072-dimension vectors [vectors c], the
    result is their element-wise arithmetic mean, a function of the
    per-chunk vectors alone, or [null] when there is no chunk. *)
Theorem chunk_then_average_pool apiKey embedContent fuel text
    (vectors : jsstring -> list R) :
  apiKey <> ""%string ->
  (CHUNKING_THRESHOLD < blob_size text)%N ->
  (forall c, In c (chunks_of text) ->
     getGemini3072DEmbedding apiKey embedContent fuel c =
       Some (Resolved (Some (fin_vec (vectors c)))) /\
     length (vectors c) = DIM) ->
  exists groups,
    greedy [] (sentences_of text) groups /\
    concat groups = sentences_of text /\
    chunks_of text = chunks_from groups /\
    getGemini3072DEmbedding apiKey embedContent (S fuel) text =
      Some (Resolved
              (match chunks_of text with
               | [] => None
               | _ :: _ =>
                   Some (fin_vec (mean (map vectors (chunks_of text))))
               end)).
Proof.
  intros Hkey Hsize Hvec.
  destruct (chunks_of_greedy text) as (groups & Hg & Hc & Hchunks).
  exists groups. split; [exact Hg|]. split; [exact Hc|].
  split; [exact Hchunks|].
  rewrite getGemini_oversized by assumption.
  unfold getChunked3072DEmbedding_with.
  rewrite (embed_chunks_all _ (fun c => Some (fin_vec (vectors c))))
    by (intros c Hc'; now destruct (Hvec c Hc')).
  destruct (chunks_of text) as [|c cs] eqn:Ec; [reflexivity|].
  rewrite <- (map_map vectors (fun r => Some (fin_vec r))).
  rewrite average_is_mean; [reflexivity| |].
  + discriminate.
  + intros r Hr. apply in_map_iff in Hr. destruct Hr as [c' [<- Hc']].
    now destruct (Hvec c' Hc').
Qed.

(** The example text: above the threshold, chunked in two chunks that
    both fit the direct path. *)
Lemma two_chunk_text_size :
  (CHUNKING_THRESHOLD < blob_size two_chunk_text)%N.
Proof. vm_compute. reflexivity. Qed.

Lemma two_chunk_text_chunks :
  length (chunks_of two_chunk_text) = 2 /\
  forallb (fun c => (blob_size c <=? CHUNKING_THRESHOLD)%N)
    (chunks_of two_chunk_text) = true.
Proof. split; vm_compute; reflexivity. Qed.

Lemma two_chunk_text_nonempty : chunks_of two_chunk_text <> [].
Proof.
  intros E. destruct two_chunk_text_chunks as [H _].
  rewrite E in H. discriminate H.
Qed.

Lemma two_chunk_text_fit c :
  In c (chunks_of two_chunk_text) -> (blob_size c <= CHUNKING_THRESHOLD)%N.
Proof.
  intros Hc. destruct two_chunk_text_chunks as [_ Hall].
  rewrite forallb_forall in Hall. apply N.leb_le. apply Hall. exact Hc.
Qed.

Lemma chunk_then_average_pool_witness :
  exists groups,
    greedy [] (sentences_of two_chunk_text) groups /\
    concat groups = sentences_of two_chunk_text /\
    chunks_of two_chunk_text = chunks_from groups /\
    getGemini3072DEmbedding "key" ones_content 2 two_chunk_text =
      Some (Resolved
              (match chunks_of two_chunk_text with
               | [] => None
               | _ :: _ =>
                   Some (fin_vec
                           (mean (map (fun _ => ones)
                                    (chunks_of two_chunk_text))))
               end)).
Proof.
  apply (chunk_then_average_pool "key" ones_content 1 two_chunk_text
           (fun _ => ones)).
  - discriminate.
  - exact two_chunk_text_size.
  - intros c Hc. split; [|apply repeat_length].
    rewrite getGemini_direct;
      [reflexivity | discriminate | apply two_chunk_text_fit; exact Hc].
Defined.

(** C8 as stated fails: on the example text, above the threshold of
    35000 bytes, no chunk is closed by the first 297 sentences, and the
    298th one closes the current chunk and starts a new one, although
    the current chunk extended by it has 30097 bytes, under the
    threshold. *)
Lemma chunk_closed_under_the_threshold :
  let sentences := sentences_of two_chunk_text in
  let sentence := nth 297 sentences [] in
  let state := fold_left chunk_step (firstn 297 sentences) ([], []) in
  (CHUNKING_THRESHOLD < blob_size two_chunk_text)%N /\
  length (fst state) = 0 /\
  blob_size (snd state ++ sentence ++ dot_space) = 30097%N /\
  (30097 <= CHUNKING_THRESHOLD)%N /\
  length (fst (chunk_step state sentence)) = 1 /\
  snd (chunk_step state sentence) = sentence ++ dot_space.
Proof.
  cbv zeta.
  split; [vm_compute; reflexivity|].
  split; [vm_compute; reflexivity|].
  split; [vm_compute; reflexivity|].
  split; [vm_compute; discriminate|].
  split; vm_compute; reflexivity.
Qed.

Lemma embed_chunks_vectors self chunks :
  (forall c, In c chunks ->
     exists v, self c = Some (Resolved (Some v)) /\ length v = DIM) ->
  exists vs,
    embed_chunks self chunks = Some (Resolved (map Some vs)) /\
    length vs = length chunks /\
    Forall (fun v => length v = DIM) vs.
Proof.
  induction chunks as [|c chunks IH]; intros H.
  - exists []. repeat split. constructor.
  - destruct (H c (or_introl eq_refl)) as [v [Hv Hl]].
    destruct IH as [vs [He [Hn Hf]]]; [intros c' Hc'; apply H; now right|].
    exists (v :: vs). cbn [embed_chunks map length].
    rewrite Hv, He. repeat split; [now rewrite Hn | now constructor].
Qed.

Lemma average_length vs :
  vs <> [] -> Forall (fun v => length v = DIM) vs ->
  exists v, average3072DEmbeddings (map Some vs) = Resolved (Some v) /\
            length v = DIM.
Proof.
  intros Hne Hf. destruct vs as [|v1 [|v2 vs]]; [now elim Hne| |].
  - exists v1. split; [reflexivity|]. now inversion Hf.
  - set (l := v1 :: v2 :: vs).
    exists (map (averaged_at l) (seq 0 DIM)). split.
    + change (average3072DEmbeddings (map Some l))
        with (match all_some (map Some l) with
              | None =>
                  Rejected
                    "TypeError: Cannot read properties of null (reading '0')"
              | Some es => Resolved (Some (map (averaged_at es) (seq 0 DIM)))
              end).
      now rewrite all_some_map_Some.
    + now rewrite length_map, length_seq.
Qed.

(** C10, as the code has it: on a text above the chunking threshold
    whose chunks all fit the direct path and are all answered with a
    3072-dimension vector, the computation ends within two levels of
    calls (any fuel from 2 on is enough); it resolves with a 3072-dimension vector when there is a chunk,
    and with [null] when the text has none. *)
Theorem oversized_text_embedding apiKey embedContent text :
  apiKey <> ""%string ->
  (CHUNKING_THRESHOLD < blob_size text)%N ->
  (forall c, In c (chunks_of text) ->
     (blob_size c <= CHUNKING_THRESHOLD)%N /\
     exists v, embedContent c = Resolved v /\ length v = DIM) ->
  forall fuel, 2 <= fuel ->
    (chunks_of text = [] /\
     getGemini3072DEmbedding apiKey embedContent fuel text =
       Some (Resolved None)) \/
    (chunks_of text <> [] /\
     exists v,
       getGemini3072DEmbedding apiKey embedContent fuel text =
         Some (Resolved (Some v)) /\
       length v = DIM).
Proof.
  intros Hkey Hsize Hchunks fuel Hfuel.
  destruct fuel as [|[|fuel]]; [lia | lia |].
  rewrite getGemini_oversized by assumption.
  unfold getChunked3072DEmbedding_with.
  destruct (embed_chunks_vectors
              (getGemini3072DEmbedding apiKey embedContent (S fuel))
              (chunks_of text)) as [vs [He [Hn Hf]]].
  { intros c Hc. destruct (Hchunks c Hc) as [Hs [v [Hv Hl]]].
    exists v. split; [|exact Hl].
    rewrite getGemini_direct by assumption. now rewrite Hv. }
  rewrite He.
  destruct (chunks_of text) as [|c cs] eqn:Ec.
  - left. split; [reflexivity|].
    destruct vs; [reflexivity | discriminate].
  - right. split; [discriminate|].
    destruct (average_length vs) as [v [Hv Hl]];
      [destruct vs; discriminate | exact Hf |].
    exists v. split; [apply (f_equal Some); exact Hv | exact Hl].
Qed.

Lemma oversized_text_embedding_witness :
  (chunks_of two_chunk_text = [] /\
   getGemini3072DEmbedding "key" ones_content 2 two_chunk_text =
     Some (Resolved None)) \/
  (chunks_of two_chunk_text <> [] /\
   exists v,
     getGemini3072DEmbedding "key" ones_content 2 two_chunk_text =
       Some (Resolved (Some v)) /\
     length v = DIM).
Proof.
  refine (oversized_text_embedding "key" ones_content two_chunk_text
            _ two_chunk_text_size _ 2 (le_n 2)).
  - discriminate.
  - intros c Hc. split; [apply two_chunk_text_fit; exact Hc|].
    exists (fin_vec ones). split; [reflexivity|].
    unfold fin_vec, ones. rewrite length_map, repeat_length. reflexivity.
Defined.

Lemma short_sentences_text_facts :
  blob_size short_sentences_text = 36000%N /\
  chunks_of short_sentences_text = [].
Proof. split; vm_compute; reflexivity. Qed.

(** C10 as stated fails: this text of 36000 bytes is above the threshold,
    none of its sentences is long enough to be kept, and the service
    resolves with [null]. *)
Lemma short_sentences_resolve_null :
  (CHUNKING_THRESHOLD < blob_size short_sentences_text)%N /\
  forall fuel,
    getGemini3072DEmbedding "key" ones_content (S fuel) short_sentences_text
    = Some (Resolved None).
Proof.
  destruct short_sentences_text_facts as [Hs Hc].
  split; [rewrite Hs; reflexivity|].
  intros fuel. rewrite getGemini_oversized;
    [| discriminate | rewrite Hs; reflexivity].
  unfold getChunked3072DEmbedding_with. rewrite Hc. reflexivity.
Qed.

Lemma unbroken_text_facts :
  let chunk := unbroken_text ++ [46%N] in
  ((CHUNKING_THRESHOLD < blob_size unbroken_text)%N /\
   (CHUNKING_THRESHOLD < blob_size chunk)%N) /\
  chunks_of unbroken_text = [chunk] /\
  chunks_of chunk = [chunk].
Proof. repeat split; vm_compute; reflexivity. Qed.

(** The other way C10 fails: on 36000 letters without punctuation the
    only chunk is the text followed by a full stop, which is above the
    threshold again and is its own only chunk: no amount of fuel lets
    the recursion return. *)
Remark unbroken_text_never_resolves :
  forall fuel,
    getGemini3072DEmbedding "key" ones_content fuel unbroken_text = None.
Proof.
  destruct unbroken_text_facts as [[Hs0 Hs1] [E0 E1]].
  assert (Hchunk : forall fuel,
             getGemini3072DEmbedding "key" ones_content fuel
               (unbroken_text ++ [46%N]) = None).
  { induction fuel as [|fuel IH]; [reflexivity|].
    rewrite getGemini_oversized by (assumption || discriminate).
    unfold getChunked3072DEmbedding_with. rewrite E1.
    cbn [embed_chunks]. now rewrite IH. }
  intros [|fuel]; [reflexivity|].
  rewrite getGemini_oversized by (assumption || discriminate).
  unfold getChunked3072DEmbedding_with. rewrite E0.
  cbn [embed_chunks]. now rewrite Hchunk.
Qed.

End GeminiFacts.

(** ** Plan execution *)

Module ExecFacts.
Import Exec.

Lemma has_success_nil dep : has_success [] dep = false.
Proof. reflexivity. Qed.

Lemma dependenciesMet_unmet executionResults dependencies dep :
  In dep dependencies ->
  has_success executionResults dep = false ->
  dependenciesMet executionResults dependencies = false.
Proof.
  intros Hin Hdep. unfold dependenciesMet.
  destruct (forallb (has_success executionResults) dependencies) eqn:E;
    [|reflexivity].
  rewrite forallb_forall in E. rewrite (E dep Hin) in Hdep. discriminate.
Qed.

(** The decision on a step with an unmet dependency. *)
Lemma decide_unmet actionModule plan id step executionResults now :
  find_step plan id = Some step ->
  unmet executionResults step ->
  exists dependencies,
    step_dependencies step = Some dependencies /\
    decideNextAction actionModule plan id executionResults now =
      Wait (nth_error dependencies 0).
Proof.
  intros Hfind (dependencies & dep & Hdeps & Hin & Hdep).
  exists dependencies. split; [exact Hdeps|].
  unfold decideNextAction. rewrite Hfind, Hdeps.
  now rewrite (dependenciesMet_unmet executionResults dependencies dep).
Qed.

(** The decision on a step whose dependencies are met. *)
Lemma decide_met actionModule plan id step executionResults now :
  find_step plan id = Some step ->
  match step_dependencies step with
  | Some dependencies => dependenciesMet executionResults dependencies = true
  | None => True
  end ->
  decideNextAction actionModule plan id executionResults now =
    match executeStep actionModule now step with
    | Resolved result => Execute result (getNextStepId plan id)
    | Rejected message => Error message (handleStepError plan id)
    end.
Proof.
  intros Hfind Hmet. unfold decideNextAction. rewrite Hfind.
  destruct (step_dependencies step) as [dependencies|]; [|reflexivity].
  now rewrite Hmet.
Qed.

Section Loop.
Variable actionModule : ActionModule.
Variable plan : Plan.

(** The events met so far are a prefix of the trace; the rest of the
    report does not depend on them. *)
Lemma loop_events remaining : forall attempt cursor recorded events,
  executePlan_loop actionModule plan remaining attempt cursor recorded
    events =
  let r :=
    executePlan_loop actionModule plan remaining attempt cursor recorded []
  in
  {| success := success r; stepsExecuted := stepsExecuted r;
     totalSteps := totalSteps r; results := results r;
     executionResults := executionResults r;
     termination := termination r;
     trace := events ++ trace r |}.
Proof.
  induction remaining as [|remaining IH]; intros attempt cursor recorded events.
  - cbn. now rewrite app_nil_r.
  - cbn [executePlan_loop].
    destruct (falsy cursor); [cbn; now rewrite app_nil_r|].
    destruct (find_step plan (default ""%string cursor));
      [|cbn; now rewrite app_nil_r].
    destruct (decideNextAction actionModule plan
                (default ""%string cursor) recorded attempt)
      as [|next|result next|error next];
      cbn [app]; try reflexivity;
      rewrite IH; symmetry; rewrite IH; cbn zeta;
      cbn [success stepsExecuted totalSteps results executionResults
           termination trace];
      now rewrite <- app_assoc.
Qed.

Lemma loop_trace remaining attempt cursor recorded events :
  trace (executePlan_loop actionModule plan remaining attempt cursor recorded events) =
  events ++ trace (executePlan_loop actionModule plan remaining attempt cursor recorded []).
Proof. rewrite loop_events. reflexivity. Qed.

(** The first event of a run shows the state the run starts in. *)
Lemma loop_first_event remaining attempt cursor recorded ev :
  nth_error (trace (executePlan_loop actionModule plan remaining attempt cursor recorded [])) 0 = Some ev ->
  ev_step ev = default ""%string cursor /\ ev_results ev = recorded.
Proof.
  destruct remaining as [|remaining]; [discriminate|].
  cbn [executePlan_loop].
  destruct (falsy cursor); [discriminate|].
  destruct (find_step plan (default ""%string cursor)); [|discriminate].
  destruct (decideNextAction actionModule plan
              (default ""%string cursor) recorded attempt);
    try rewrite loop_trace; cbn; intros H; inversion H; subst; auto.
Qed.

(** Dependency gating along a run. *)
Lemma loop_gated remaining : forall attempt cursor recorded i ev step,
  nth_error (trace (executePlan_loop actionModule plan remaining attempt cursor recorded [])) i = Some ev ->
  find_step plan (ev_step ev) = Some step ->
  unmet (ev_results ev) step ->
  exists dependencies,
    step_dependencies step = Some dependencies /\
    ev_decision ev = Wait (nth_error dependencies 0) /\
    forall ev',
      nth_error (trace (executePlan_loop actionModule plan remaining attempt cursor recorded [])) (S i)
        = Some ev' ->
      ev_step ev' = ev_step ev /\ ev_results ev' = ev_results ev.
Proof.
  induction remaining as [|remaining IH];
    intros attempt cursor recorded i ev step Hev Hfind Hunmet.
  - destruct i; discriminate.
  - cbn [executePlan_loop] in *.
    destruct (falsy cursor); [destruct i; discriminate|].
    set (id := default ""%string cursor) in *.
    destruct (find_step plan id) as [step0|] eqn:Hstep0;
      [|destruct i; discriminate].
    destruct i as [|i].
    + (* the event of this very turn *)
      assert (Hev0 : ev = {| ev_attempt := attempt; ev_step := id;
                             ev_results := recorded;
                             ev_decision :=
                               decideNextAction actionModule plan id
                                 recorded attempt |}).
      { destruct (decideNextAction actionModule plan id recorded attempt);
          try rewrite loop_trace in Hev; cbn in Hev; now inversion Hev. }
      subst ev. cbn [ev_step ev_results ev_decision] in *.
      rewrite Hstep0 in Hfind. inversion Hfind; subst step0.
      destruct (decide_unmet actionModule plan id step recorded attempt
                  Hstep0 Hunmet) as [dependencies [Hdeps Hdec]].
      exists dependencies. split; [exact Hdeps|]. split; [exact Hdec|].
      rewrite Hdec. rewrite loop_trace. cbn [app nth_error].
      intros ev' Hev'. apply loop_first_event in Hev'. exact Hev'.
    + (* a later event *)
      destruct (decideNextAction actionModule plan id recorded attempt)
        as [|next|result next|error next].
      * destruct i; discriminate.
      * rewrite loop_trace in Hev |- *. cbn [app nth_error] in Hev |- *.
        exact (IH _ _ _ i ev step Hev Hfind Hunmet).
      * rewrite loop_trace in Hev |- *. cbn [app nth_error] in Hev |- *.
        exact (IH _ _ _ i ev step Hev Hfind Hunmet).
      * rewrite loop_trace in Hev |- *. cbn [app nth_error] in Hev |- *.
        exact (IH _ _ _ i ev step Hev Hfind Hunmet).
Qed.

(** A run that spends its budget reports no success. *)
Lemma loop_budget_spent remaining : forall attempt cursor recorded events,
  termination (executePlan_loop actionModule plan remaining attempt cursor recorded events) = BudgetSpent ->
  success (executePlan_loop actionModule plan remaining attempt cursor recorded events) = false.
Proof.
  induction remaining as [|remaining IH]; intros attempt cursor recorded events.
  - reflexivity.
  - cbn [executePlan_loop].
    destruct (falsy cursor); [reflexivity|].
    destruct (find_step plan (default ""%string cursor)); [|reflexivity].
    destruct (decideNextAction actionModule plan
                (default ""%string cursor) recorded attempt);
      try apply IH. discriminate.
Qed.

(** The decision is never 'complete' on a step the executor has found,
    so that no run reports a success. *)
Lemma loop_never_succeeds remaining : forall attempt cursor recorded events,
  success (executePlan_loop actionModule plan remaining attempt cursor recorded events) = false.
Proof.
  induction remaining as [|remaining IH]; intros attempt cursor recorded events.
  - reflexivity.
  - cbn [executePlan_loop].
    destruct (falsy cursor); [reflexivity|].
    destruct (find_step plan (default ""%string cursor)) as [step|] eqn:Hs;
      [|reflexivity].
    destruct (decideNextAction actionModule plan
                (default ""%string cursor) recorded attempt) eqn:Hd;
      try apply IH.
    unfold decideNextAction in Hd. rewrite Hs in Hd.
    destruct (step_dependencies step) as [deps|].
    + destruct (dependenciesMet recorded deps); [|discriminate].
      destruct (executeStep actionModule attempt step); discriminate.
    + destruct (executeStep actionModule attempt step); discriminate.
Qed.
End Loop.


(** C2, as the code has it: at every turn of every run whose step has a
    declared dependency without a recorded success, the handler is not
    called; the decision is a WAIT that names the first declared
    dependency ([dependencies[0]]), and the next turn finds the same
    cursor and the same recorded results. *)
Theorem executor_waits_on_unmet_dependency
    actionModule plan budget i ev step :
  nth_error (trace (executePlan_with actionModule plan budget)) i = Some ev ->
  find_step plan (ev_step ev) = Some step ->
  unmet (ev_results ev) step ->
  ~ dispatched (ev_decision ev) /\
  exists dependencies,
    step_dependencies step = Some dependencies /\
    ev_decision ev = Wait (nth_error dependencies 0) /\
    forall ev',
      nth_error (trace (executePlan_with actionModule plan budget)) (S i)
        = Some ev' ->
      ev_step ev' = ev_step ev /\ ev_results ev' = ev_results ev.
Proof.
  intros Hev Hfind Hunmet.
  destruct (loop_gated actionModule plan budget 0
              (option_map step_id (nth_error (steps plan) 0)) [] i ev step
              Hev Hfind Hunmet) as [dependencies [Hdeps [Hdec Hnext]]].
  split.
  - rewrite Hdec. intros [].
  - exists dependencies. auto.
Qed.

Lemma executor_waits_on_unmet_dependency_witness :
  ~ dispatched (ev_decision third_turn) /\
  exists dependencies,
    step_dependencies (mk_step "s" "analysis" None (Some ["a"; "b"]%string))
      = Some dependencies /\
    ev_decision third_turn = Wait (nth_error dependencies 0) /\
    forall ev',
      nth_error
        (trace (executePlan_with quiet_actions plan_two_dependencies 5)) 3
        = Some ev' ->
      ev_step ev' = ev_step third_turn /\
      ev_results ev' = ev_results third_turn.
Proof.
  apply (executor_waits_on_unmet_dependency quiet_actions
           plan_two_dependencies 5 2 third_turn
           (mk_step "s" "analysis" None (Some ["a"; "b"]%string))).
  - reflexivity.
  - reflexivity.
  - exists ["a"; "b"]%string, "b"%string.
    split; [reflexivity|]. split; [|reflexivity].
    right. left. reflexivity.
Defined.

(** C2 as stated fails on the dependency a WAIT names: at the third turn
    of this run the step [s] waits, its first unmet dependency is [b],
    and the decision names [a], which has a recorded success. *)
Lemma wait_names_first_declared_dependency :
  exists ev,
    nth_error (trace (executePlan quiet_actions plan_two_dependencies)) 2
      = Some ev /\
    ev_step ev = "s"%string /\
    ev_decision ev = Wait (Some "a"%string) /\
    has_success (ev_results ev) "a" = true /\
    first_unmet (ev_results ev) ["a"; "b"]%string = Some "b"%string.
Proof. exists third_turn. repeat split. Qed.

(** A first step with a dependency: nothing is ever recorded, and each
    turn waits. *)
Lemma loop_stuck actionModule plan first rest dep deps :
  steps plan = first :: rest ->
  step_id first <> ""%string ->
  step_dependencies first = Some (dep :: deps) ->
  forall remaining attempt events,
    executePlan_loop actionModule plan remaining attempt
      (Some (step_id first)) [] events =
    createExecutionResult plan [] false BudgetSpent
      (events ++
       map (fun k => {| ev_attempt := k; ev_step := step_id first;
                        ev_results := [];
                        ev_decision := Wait (Some dep) |})
           (seq attempt remaining)).
Proof.
  intros Hsteps Hid Hdeps.
  assert (Hfind : find_step plan (step_id first) = Some first).
  { unfold find_step. rewrite Hsteps. cbn [find].
    now rewrite String.eqb_refl. }
  assert (Hfalsy : falsy (Some (step_id first)) = false).
  { unfold falsy, truthy. apply String.eqb_neq in Hid. now rewrite Hid. }
  assert (Hdec : forall now,
             decideNextAction actionModule plan (step_id first) [] now =
             Wait (Some dep)).
  { intros now. unfold decideNextAction. now rewrite Hfind, Hdeps. }
  induction remaining as [|remaining IH]; intros attempt events.
  - cbn. now rewrite app_nil_r.
  - cbn [executePlan_loop]. rewrite Hfalsy. cbn [default].
    rewrite Hfind, Hdec, IH. cbn [seq map].
    now rewrite <- app_assoc.
Qed.

(** C3: with the budget of 5 turns, a plan whose first step (its id being
    a non-empty string) has a dependency, which nothing can satisfy as no
    step has run, makes exactly 5 turns, all of them waiting, records
    nothing and returns [success = false]; and whatever the plan and the
    budget, a run that ends because the budget is spent returns
    [success = false]. *)
Theorem stuck_first_step_spends_budget
    actionModule plan first rest dep deps :
  steps plan = first :: rest ->
  step_id first <> ""%string ->
  step_dependencies first = Some (dep :: deps) ->
  let report := executePlan actionModule plan in
  success report = false /\
  length (trace report) = 5 /\
  termination report = BudgetSpent /\
  executionResults report = [] /\
  Forall (fun ev => ev_step ev = step_id first /\
                    ev_decision ev = Wait (Some dep)) (trace report) /\
  (forall actions p budget,
     termination (executePlan_with actions p budget) = BudgetSpent ->
     success (executePlan_with actions p budget) = false).
Proof.
  intros Hsteps Hid Hdeps report.
  assert (E : report =
            createExecutionResult plan [] false BudgetSpent
              (map (fun k => {| ev_attempt := k; ev_step := step_id first;
                                ev_results := [];
                                ev_decision := Wait (Some dep) |})
                   (seq 0 5))).
  { unfold report, executePlan, executePlan_with, maxExecutionSteps.
    rewrite Hsteps at 1. cbn [nth_error option_map].
    now rewrite (loop_stuck actionModule plan first rest dep deps
                   Hsteps Hid Hdeps). }
  rewrite E. cbn [success trace termination executionResults
                  createExecutionResult].
  repeat split.
  - repeat constructor.
  - intros actions p budget. apply loop_budget_spent.
Qed.

Lemma stuck_first_step_spends_budget_witness :
  let report := executePlan quiet_actions plan_stuck in
  success report = false /\
  length (trace report) = 5 /\
  termination report = BudgetSpent /\
  executionResults report = [] /\
  Forall (fun ev => ev_step ev = "navigate"%string /\
                    ev_decision ev = Wait (Some "search"%string))
         (trace report) /\
  (forall actions p budget,
     termination (executePlan_with actions p budget) = BudgetSpent ->
     success (executePlan_with actions p budget) = false).
Proof.
  apply (stuck_first_step_spends_budget quiet_actions plan_stuck
           (mk_step "navigate" "navigation" (Some no_parameters)
              (Some ["search"%string]))
           [mk_step "search" "search" (Some no_parameters) None]
           "search"%string []).
  - reflexivity.
  - discriminate.
  - reflexivity.
Defined.

(** A handler that throws: the decision retries a retryable step and
    moves past any other. *)
Lemma decide_thrown actionModule plan id step recorded now message :
  find_step plan id = Some step ->
  match step_dependencies step with
  | Some dependencies => dependenciesMet recorded dependencies = true
  | None => True
  end ->
  executeStep actionModule now step = Rejected message ->
  decideNextAction actionModule plan id recorded now =
    Error message
      (if includes retryableSteps (step_type step) then Some id
       else getNextStepId plan id).
Proof.
  intros Hfind Hmet Hthrow.
  rewrite (decide_met actionModule plan id step recorded now Hfind Hmet).
  rewrite Hthrow. unfold handleStepError. rewrite Hfind.
  reflexivity.
Qed.

(** C4, as the code has it: (1) when the handler of a step throws, the
    decision names the same step if its type is 'search' or 'navigation'
    and the next step of the plan otherwise; (2) in the plan [A; B; C]
    where [B] depends on [A] and [C] on [B], [A] succeeding, the handler
    of [B] throwing and [B] not retryable, execution records a success
    for [A] and a failure for [B], moves the cursor to [C] and never
    dispatches [C]: it waits on [B] until the budget is spent, and no
    result is recorded for [C]. *)
Theorem thrown_failure_retried_or_skipped
    actionModule plan A B C resultA message :
  steps plan = [A; B; C] ->
  step_id A <> ""%string /\ step_id B <> ""%string /\
    step_id C <> ""%string ->
  step_id A <> step_id B /\ step_id A <> step_id C /\
    step_id B <> step_id C ->
  step_dependencies A = None ->
  step_dependencies B = Some [step_id A] ->
  step_dependencies C = Some [step_id B] ->
  executeStep actionModule 0 A = Resolved resultA ->
  hr_success resultA = true ->
  executeStep actionModule 1 B = Rejected message ->
  includes retryableSteps (step_type B) = false ->
  (forall actions p id step recorded now m,
     find_step p id = Some step ->
     match step_dependencies step with
     | Some dependencies => dependenciesMet recorded dependencies = true
     | None => True
     end ->
     executeStep actions now step = Rejected m ->
     decideNextAction actions p id recorded now =
       Error m (if includes retryableSteps (step_type step) then Some id
                else getNextStepId p id)) /\
  let report := executePlan actionModule plan in
  map er_stepId (executionResults report) = [step_id A; step_id B] /\
  map er_success (executionResults report) = [true; false] /\
  map ev_decision (trace report) =
    [Execute resultA (Some (step_id B));
     Error message (Some (step_id C));
     Wait (Some (step_id B)); Wait (Some (step_id B));
     Wait (Some (step_id B))] /\
  termination report = BudgetSpent.
Proof.
  intros Hsteps (HA & HB & HC) (HAB & HAC & HBC) HdA HdB HdC
         HrunA HokA HrunB Hretry.
  split; [intros; now apply decide_thrown|].
  apply String.eqb_neq in HA, HB, HC, HAB, HAC, HBC.
  assert (FA : find_step plan (step_id A) = Some A).
  { unfold find_step. rewrite Hsteps. cbn [find].
    now rewrite String.eqb_refl. }
  assert (FB : find_step plan (step_id B) = Some B).
  { unfold find_step. rewrite Hsteps. cbn [find].
    now rewrite HAB, String.eqb_refl. }
  assert (FC : find_step plan (step_id C) = Some C).
  { unfold find_step. rewrite Hsteps. cbn [find].
    now rewrite HAC, HBC, String.eqb_refl. }
  assert (NA : getNextStepId plan (step_id A) = Some (step_id B)).
  { unfold getNextStepId. rewrite Hsteps. cbn [findIndex].
    now rewrite String.eqb_refl. }
  assert (NB : getNextStepId plan (step_id B) = Some (step_id C)).
  { unfold getNextStepId. rewrite Hsteps. cbn [findIndex].
    now rewrite HAB, String.eqb_refl. }
  set (rA := {| er_stepId := step_id A; er_success := hr_success resultA;
                er_data := data_or_results resultA;
                er_error := hr_error resultA |}).
  set (rB := {| er_stepId := step_id B; er_success := false;
                er_data := None; er_error := Some message |}).
  assert (D0 : decideNextAction actionModule plan (step_id A) [] 0 =
               Execute resultA (Some (step_id B))).
  { rewrite (decide_met actionModule plan (step_id A) A [] 0 FA)
      by (now rewrite HdA).
    now rewrite HrunA, NA. }
  assert (D1 : decideNextAction actionModule plan (step_id B) [rA] 1 =
               Error message (Some (step_id C))).
  { rewrite (decide_thrown actionModule plan (step_id B) B [rA] 1 message
               FB); [now rewrite Hretry, NB | | exact HrunB].
    rewrite HdB. unfold dependenciesMet, has_success, rA.
    cbn [forallb existsb er_stepId er_success].
    now rewrite String.eqb_refl, HokA. }
  assert (D2 : forall now,
             decideNextAction actionModule plan (step_id C) [rA; rB] now =
             Wait (Some (step_id B))).
  { intros now. unfold decideNextAction. rewrite FC, HdC.
    unfold dependenciesMet, has_success, rA, rB.
    cbn [forallb existsb er_stepId er_success].
    now rewrite HAB, String.eqb_refl. }
  assert (TA : falsy (Some (step_id A)) = false)
    by (unfold falsy, truthy; now rewrite HA).
  assert (TB : falsy (Some (step_id B)) = false)
    by (unfold falsy, truthy; now rewrite HB).
  assert (TC : falsy (Some (step_id C)) = false)
    by (unfold falsy, truthy; now rewrite HC).
  assert (E : exists events,
             executePlan actionModule plan =
               createExecutionResult plan [rA; rB] false BudgetSpent events /\
             map ev_decision events =
               [Execute resultA (Some (step_id B));
                Error message (Some (step_id C));
                Wait (Some (step_id B)); Wait (Some (step_id B));
                Wait (Some (step_id B))]).
  { eexists. split.
    - unfold executePlan, executePlan_with, maxExecutionSteps.
      rewrite Hsteps. cbn [nth_error option_map].
      cbn [executePlan_loop default app].
      rewrite TA, FA, D0. cbn [executePlan_loop default app]. fold rA.
      rewrite TB, FB, D1. cbn [executePlan_loop default app]. fold rB.
      rewrite TC, FC, !D2. cbn [executePlan_loop default app].
      reflexivity.
    - reflexivity. }
  destruct E as [events [E Hdecisions]].
  intros report. unfold report. rewrite E.
  cbn [executionResults trace termination createExecutionResult].
  unfold rA, rB. cbn [map er_stepId er_success]. rewrite HokA.
  repeat split. exact Hdecisions.
Qed.

Lemma thrown_failure_retried_or_skipped_witness :
  let report := executePlan quiet_actions plan_abc_throwing in
  map er_stepId (executionResults report) = ["A"; "B"]%string /\
  map er_success (executionResults report) = [true; false] /\
  termination report = BudgetSpent.
Proof.
  destruct (thrown_failure_retried_or_skipped quiet_actions
              plan_abc_throwing
              (mk_step "A" "analysis" None None)
              (mk_step "B" "highlight" None (Some ["A"%string]))
              (mk_step "C" "analysis" None (Some ["B"%string]))
              {| hr_success := true; hr_data := None; hr_results := None;
                 hr_error := None |}
              "TypeError: Cannot read properties of undefined")
    as [_ (Hids & Hok & _ & Hend)].
  - reflexivity.
  - repeat split; discriminate.
  - repeat split; discriminate.
  - reflexivity.
  - reflexivity.
  - reflexivity.
  - reflexivity.
  - reflexivity.
  - reflexivity.
  - reflexivity.
  - intros report. split; [exact Hids|]. split; [exact Hok | exact Hend].
Defined.

(** C4 as stated fails on the plan [A -> B -> C]: whether the highlight
    step [B] throws or resolves with [success: false], the run records a
    success for [A], a failure for [B] and nothing for [C], and ends
    because the budget is spent. *)
Lemma no_result_for_C_after_B_fails :
  (let report := executePlan quiet_actions plan_abc_throwing in
   map er_stepId (executionResults report) = ["A"; "B"]%string /\
   map er_success (executionResults report) = [true; false] /\
   termination report = BudgetSpent) /\
  (let report := executePlan failing_highlight plan_abc in
   map er_stepId (executionResults report) = ["A"; "B"]%string /\
   map er_success (executionResults report) = [true; false] /\
   termination report = BudgetSpent).
Proof. repeat split. Qed.

(** A search whose handler resolves with [success: false] is not a thrown
    failure: the decision is 'execute' and names the next step. *)
Remark returned_failure_moves_on :
  decideNextAction
    {| executeSearch := fun _ _ => failed_result;
       executeNavigation := fun _ _ _ => ok_result;
       executeHighlight := fun _ _ => ok_result |}
    (mk_plan [mk_step "1" "search" (Some no_parameters) None;
              mk_step "2" "navigation" (Some no_parameters)
                (Some ["1"])]%string)
    "1" [] 0 =
  Execute failed_result (Some "2"%string).
Proof. reflexivity. Qed.

(** No run at all reports a success: the 'complete' decision is out of
    reach, and the two breaks return [false]. *)
Remark executePlan_never_succeeds actionModule plan budget :
  success (executePlan_with actionModule plan budget) = false.
Proof. apply loop_never_succeeds. Qed.

End ExecFacts.

(** ** More on the vector helpers *)

Lemma sq_le_le (p q : R) : (0 <= p -> q * q <= p * p -> q <= p)%R.
Proof. intros Hp Hq. nra. Qed.




(** One more term on both sides of the inequality of Cauchy and
    Schwarz. *)
Lemma cauchy_schwarz_step (A B D x y : R) :
  (0 <= A -> 0 <= B -> D * D <= A * B ->
   (D + x * y) * (D + x * y) <= (A + x * x) * (B + y * y))%R.
Proof.
  intros HA HB IH.
  assert (Hxx : (0 <= x * x)%R) by nra.
  assert (Hyy : (0 <= y * y)%R) by nra.
  assert (Hxy : (0 <= (x * x) * (y * y))%R) by (now apply Rmult_le_pos).
  assert (H2 : (D * D * ((x * x) * (y * y)) <= A * B * ((x * x) * (y * y)))%R)
    by (now apply Rmult_le_compat_r).
  assert (Hmix : (2 * D * x * y <= A * (y * y) + B * (x * x))%R).
  { apply sq_le_le.
    - assert (0 <= A * (y * y))%R by (now apply Rmult_le_pos).
      assert (0 <= B * (x * x))%R by (now apply Rmult_le_pos). lra.
    - pose proof (Rle_0_sqr (A * (y * y) - B * (x * x))) as H1.
      unfold Rsqr in H1.
      replace ((A * (y * y) + B * (x * x)) * (A * (y * y) + B * (x * x)))%R
        with ((A * (y * y) - B * (x * x)) * (A * (y * y) - B * (x * x))
              + 4 * (A * B * ((x * x) * (y * y))))%R by ring.
      replace (2 * D * x * y * (2 * D * x * y))%R
        with (4 * (D * D * ((x * x) * (y * y))))%R by ring.
      lra. }
  replace ((D + x * y) * (D + x * y))%R
    with (D * D + 2 * D * x * y + (x * x) * (y * y))%R by ring.
  replace ((A + x * x) * (B + y * y))%R
    with (A * B + (A * (y * y) + B * (x * x)) + (x * x) * (y * y))%R by ring.
  lra.
Qed.

(** The inequality of Cauchy and Schwarz, on the sums of the loop. *)
Lemma cauchy_schwarz f g n :
  (psum (fun i => f i * g i) n * psum (fun i => f i * g i) n <=
   psum (fun i => f i * f i) n * psum (fun i => g i * g i) n)%R.
Proof.
  induction n as [|n IH]; simpl; [lra|].
  apply cauchy_schwarz_step.
  - apply psum_nonneg; intros; nra.
  - apply psum_nonneg; intros; nra.
  - exact IH.
Qed.

Lemma sqrt_mult_zero a b :
  (0 <= a -> 0 <= b -> R_sqrt.sqrt a * R_sqrt.sqrt b = 0 -> a * b = 0)%R.
Proof.
  intros Ha Hb H. apply Rmult_integral in H. destruct H as [H|H];
    apply sqrt_eq_0 in H; try assumption; subst; lra.
Qed.

(** What the last two lines compute from finite sums. *)
Lemma cos_finish_fin d a b :
  (0 <= a)%R -> (0 <= b)%R ->
  cos_finish (Fin d, Fin a, Fin b) =
  Fin (if Req_dec_T (R_sqrt.sqrt a * R_sqrt.sqrt b) 0 then 0
       else d / (R_sqrt.sqrt a * R_sqrt.sqrt b))%R.
Proof.
  intros Ha Hb. unfold cos_finish, JsNum.sqrt, mul, eqb, div, zero.
  destruct (Rlt_dec a 0); [lra|]. destruct (Rlt_dec b 0); [lra|].
  destruct (Req_dec_T (R_sqrt.sqrt a * R_sqrt.sqrt b) 0); reflexivity.
Qed.

Lemma cos_finish_range d a b :
  (0 <= a)%R -> (0 <= b)%R -> (d * d <= a * b)%R ->
  exists x, cos_finish (Fin d, Fin a, Fin b) = Fin x /\ (-1 <= x <= 1)%R.
Proof.
  intros Ha Hb Hd. rewrite cos_finish_fin by assumption.
  eexists. split; [reflexivity|].
  destruct (Req_dec_T (R_sqrt.sqrt a * R_sqrt.sqrt b) 0) as [E|E]; [lra|].
  set (m := (R_sqrt.sqrt a * R_sqrt.sqrt b)%R) in *.
  assert (Hm : (0 < m)%R).
  { pose proof (sqrt_pos a). pose proof (sqrt_pos b).
    assert (0 <= m)%R by (unfold m; nra). lra. }
  assert (Hmm : (m * m = a * b)%R).
  { unfold m.
    replace (R_sqrt.sqrt a * R_sqrt.sqrt b * (R_sqrt.sqrt a * R_sqrt.sqrt b))%R
      with ((R_sqrt.sqrt a * R_sqrt.sqrt a) * (R_sqrt.sqrt b * R_sqrt.sqrt b))%R
      by ring.
    now rewrite !sqrt_sqrt by assumption. }
  assert (Hle : (d <= m)%R) by (apply sq_le_le; lra).
  assert (Hge : (- d <= m)%R) by (apply sq_le_le; lra).
  split.
  - apply Rmult_le_reg_r with m; [exact Hm|]. unfold Rdiv.
    rewrite Rmult_assoc, Rinv_l by lra. lra.
  - apply Rmult_le_reg_r with m; [exact Hm|]. unfold Rdiv.
    rewrite Rmult_assoc, Rinv_l by lra. lra.
Qed.

Lemma length_fin_vec v : length (fin_vec v) = length v.
Proof. unfold fin_vec. apply length_map. Qed.

(** X1: on vectors of finite entries, whatever their lengths,
    [cosineSimilarity] returns a finite number between -1 and 1. *)
Theorem cosineSimilarity_in_range (a b : list R) :
  exists x,
    cosineSimilarity (fin_vec a) (fin_vec b) = Fin x /\ (-1 <= x <= 1)%R.
Proof.
  unfold cosineSimilarity. rewrite !length_fin_vec.
  destruct (length a =? length b) eqn:Eab; cbn [negb orb];
    [|exists 0%R; split; [reflexivity | lra]].
  destruct (length a =? DIM) eqn:Ea; cbn [negb];
    [|exists 0%R; split; [reflexivity | lra]].
  apply Nat.eqb_eq in Eab, Ea.
  rewrite cos_loop_fin by lia.
  apply cos_finish_range.
  - apply psum_nonneg. intros; nra.
  - apply psum_nonneg. intros; nra.
  - apply (cauchy_schwarz (fun i => nth i a 0%R) (fun i => nth i b 0%R)).
Qed.






Lemma add_comm a b : add a b = add b a.
Proof. destruct a, b; simpl; try reflexivity. f_equal. ring. Qed.

Lemma mul_comm a b : mul a b = mul b a.
Proof. destruct a, b; simpl; try reflexivity. f_equal. ring. Qed.

Lemma cos_loop_swap vecA vecB n :
  cos_loop vecB vecA n =
  let '(dotProduct, normA, normB) := cos_loop vecA vecB n in
  (dotProduct, normB, normA).
Proof.
  unfold cos_loop. induction n as [|n IH]; [reflexivity|].
  rewrite seq_S, !fold_left_app, IH. cbn [fold_left].
  destruct (fold_left (cos_step vecA vecB) (seq 0 n) (zero, zero, zero))
    as [[d na] nb].
  cbn [cos_step Nat.add]. now rewrite (mul_comm (idx vecB n) (idx vecA n)).
Qed.

(** X3: [cosineSimilarity] is symmetric, on all vectors. *)
Theorem cosineSimilarity_symmetric (vecA vecB : vec) :
  cosineSimilarity vecA vecB = cosineSimilarity vecB vecA.
Proof.
  unfold cosineSimilarity.
  destruct (length vecA =? length vecB) eqn:E.
  - apply Nat.eqb_eq in E. rewrite E, Nat.eqb_refl. cbn [negb orb].
    destruct (length vecB =? DIM); cbn [negb]; [|reflexivity].
    rewrite (cos_loop_swap vecA vecB).
    destruct (cos_loop vecA vecB DIM) as [[d na] nb].
    unfold cos_finish. now rewrite (mul_comm (JsNum.sqrt nb)).
  - rewrite Nat.eqb_sym in E. rewrite E. reflexivity.
Qed.

(** ** EmbeddingUtils *)

Module EmbeddingUtilsFacts.

Lemma utils_cosine_fin (a b : list R) :
  length a = length b ->
  EmbeddingUtils.cosineSimilarity (fin_vec a) (fin_vec b) =
  let d := psum (fun i => nth i a 0 * nth i b 0)%R (length a) in
  let na := R_sqrt.sqrt (psum (fun i => nth i a 0 * nth i a 0)%R (length a)) in
  let nb := R_sqrt.sqrt (psum (fun i => nth i b 0 * nth i b 0)%R (length a)) in
  Resolved
    (Fin (if Req_dec_T na 0 then 0
          else if Req_dec_T nb 0 then 0 else d / (na * nb))%R).
Proof.
  intros Hlen. unfold EmbeddingUtils.cosineSimilarity. rewrite !length_fin_vec.
  rewrite Hlen, Nat.eqb_refl. cbn [negb]. rewrite <- Hlen.
  rewrite cos_loop_fin by lia. cbv zeta.
  set (A := psum (fun i => nth i a 0 * nth i a 0)%R (length a)).
  set (B := psum (fun i => nth i b 0 * nth i b 0)%R (length a)).
  assert (HA : (0 <= A)%R) by (apply psum_nonneg; intros; nra).
  assert (HB : (0 <= B)%R) by (apply psum_nonneg; intros; nra).
  unfold JsNum.sqrt, eqb, zero, mul, div.
  destruct (Rlt_dec A 0); [lra|]. destruct (Rlt_dec B 0); [lra|].
  destruct (Req_dec_T (R_sqrt.sqrt A) 0) as [Ea|Ea]; cbn [orb];
    [reflexivity|].
  destruct (Req_dec_T (R_sqrt.sqrt B) 0) as [Eb|Eb]; [reflexivity|].
  destruct (Req_dec_T (R_sqrt.sqrt A * R_sqrt.sqrt B) 0) as [E|E];
    [|reflexivity].
  exfalso. apply Rmult_integral in E. tauto.
Qed.




Lemma memory_cosine_fin (a b : list R) :
  length a = DIM -> length b = DIM ->
  cosineSimilarity (fin_vec a) (fin_vec b) =
  cos_finish
    (Fin (psum (fun i => nth i a 0 * nth i b 0)%R (length a)),
     Fin (psum (fun i => nth i a 0 * nth i a 0)%R (length a)),
     Fin (psum (fun i => nth i b 0 * nth i b 0)%R (length a))).
Proof.
  intros Ha Hb. unfold cosineSimilarity.
  rewrite !length_fin_vec, Hb, Ha, Nat.eqb_refl. cbn [negb orb].
  rewrite <- Ha. rewrite cos_loop_fin by lia. reflexivity.
Qed.

(** X5: on two vectors of finite entries and dimension 3072 the two
    cosine similarities of the code agree. *)
Theorem utils_cosine_agrees_with_memory_manager (a b : list R) :
  length a = DIM -> length b = DIM ->
  EmbeddingUtils.cosineSimilarity (fin_vec a) (fin_vec b) =
  Resolved (cosineSimilarity (fin_vec a) (fin_vec b)).
Proof.
  intros Ha Hb. rewrite utils_cosine_fin by congruence. cbv zeta.
  rewrite (memory_cosine_fin a b Ha Hb).
  set (A := psum (fun i => nth i a 0 * nth i a 0)%R (length a)).
  set (B := psum (fun i => nth i b 0 * nth i b 0)%R (length a)).
  assert (HA : (0 <= A)%R) by (apply psum_nonneg; intros; nra).
  assert (HB : (0 <= B)%R) by (apply psum_nonneg; intros; nra).
  rewrite cos_finish_fin by assumption. do 2 f_equal.
  destruct (Req_dec_T (R_sqrt.sqrt A) 0) as [Ea|Ea];
    destruct (Req_dec_T (R_sqrt.sqrt B) 0) as [Eb|Eb];
    destruct (Req_dec_T (R_sqrt.sqrt A * R_sqrt.sqrt B) 0) as [E|E];
    try reflexivity;
    try (exfalso; apply E; rewrite ?Ea, ?Eb; ring).
  exfalso. apply Rmult_integral in E. tauto.
Qed.

Lemma utils_cosine_agrees_with_memory_manager_witness :
  EmbeddingUtils.cosineSimilarity (fin_vec ones) (fin_vec zeros) =
  Resolved (cosineSimilarity (fin_vec ones) (fin_vec zeros)).
Proof.
  apply (utils_cosine_agrees_with_memory_manager ones zeros).
  - exact ones_length.
  - apply repeat_length.
Defined.











End EmbeddingUtilsFacts.

(** ** LocalEmbeddingProvider *)

Module LocalEmbeddingProviderFacts.
Import LocalEmbeddingProvider.

Lemma toInt32_range z : (- 2 ^ 31 <= toInt32 z < 2 ^ 31)%Z.
Proof.
  unfold toInt32.
  pose proof (Z.mod_pos_bound (z + 2 ^ 31) (2 ^ 32) eq_refl). lia.
Qed.

Lemma toInt32_shift z k : toInt32 (z + k * 2 ^ 32) = toInt32 z.
Proof.
  unfold toInt32.
  replace (z + k * 2 ^ 32 + 2 ^ 31)%Z with (z + 2 ^ 31 + k * 2 ^ 32)%Z by ring.
  now rewrite Z_mod_plus_full.
Qed.

Lemma toInt32_spec z : exists k, toInt32 z = (z + k * 2 ^ 32)%Z.
Proof.
  exists (- ((z + 2 ^ 31) / 2 ^ 32))%Z. unfold toInt32.
  rewrite (Z.mod_eq (z + 2 ^ 31) (2 ^ 32)) by discriminate. ring.
Qed.

Lemma toInt32_id z : (- 2 ^ 31 <= z < 2 ^ 31)%Z -> toInt32 z = z.
Proof.
  intros H. unfold toInt32. rewrite Z.mod_small by lia. ring.
Qed.

Lemma hash_step_spec hash char :
  hash_step hash char = toInt32 (31 * hash + Z.of_N char).
Proof.
  unfold hash_step, bitand, shl. rewrite Z.land_diag, Z.shiftl_mul_pow2 by lia.
  destruct (toInt32_spec hash) as [k Hk].
  destruct (toInt32_spec (toInt32 hash * 2 ^ 5)) as [j Hj].
  rewrite Hj, Hk.
  replace ((hash + k * 2 ^ 32) * 2 ^ 5 + j * 2 ^ 32 - hash + Z.of_N char)%Z
    with (31 * hash + Z.of_N char + (32 * k + j) * 2 ^ 32)%Z by ring.
  apply toInt32_shift.
Qed.

Lemma hash_fold str : forall hash value k,
  (- 2 ^ 31 <= hash < 2 ^ 31)%Z ->
  hash = (value + k * 2 ^ 32)%Z ->
  fold_left hash_step str hash =
  toInt32 (fold_left (fun h c => (31 * h + Z.of_N c)%Z) str value).
Proof.
  induction str as [|c str IH]; intros hash value k Hrange Hcong.
  - cbn [fold_left]. rewrite <- (toInt32_shift value k), <- Hcong.
    symmetry. now apply toInt32_id.
  - cbn [fold_left].
    destruct (toInt32_spec (31 * hash + Z.of_N c)) as [j Hj].
    apply (IH _ _ (j + 31 * k)%Z).
    + rewrite hash_step_spec. apply toInt32_range.
    + rewrite hash_step_spec, Hj, Hcong. ring.
Qed.

(** X7: [hashCode] is a signed 32-bit integer, the one congruent modulo
    2^32 to the string read as a number in base 31 (the code units being
    the digits). *)
Theorem hashCode_is_base31_mod_2_32 (str : jsstring) :
  hashCode str = toInt32 (base31 str) /\
  (- 2 ^ 31 <= hashCode str < 2 ^ 31)%Z /\
  exists k, hashCode str = (base31 str + k * 2 ^ 32)%Z.
Proof.
  assert (E : hashCode str = toInt32 (base31 str)).
  { unfold hashCode, base31. apply (hash_fold str 0 0 0)%Z; [lia | ring]. }
  rewrite E. split; [reflexivity|]. split; [apply toInt32_range|].
  apply toInt32_spec.
Qed.

(** The hash at work: a short word, and a word whose value in base 31
    leaves the 32 bits. *)
Example hashCode_examples :
  hashCode (of_string "fox") = 101583%Z /\
  hashCode (of_string "embedding") = (-1408481449)%Z.
Proof. split; vm_compute; reflexivity. Qed.






End LocalEmbeddingProviderFacts.

(** ** More on the provider fallback *)

Module FallbackMoreFacts.
Import Fallback FallbackFacts.

Lemma In_map_get name provider m :
  In (name, provider) m -> exists p, map_get name m = Some p.
Proof.
  induction m as [|[k q] m IH]; [contradiction|].
  intros [H|H]; simpl.
  - inversion H; subst. rewrite String.eqb_refl. eauto.
  - destruct (k =? name)%string; eauto.
Qed.

Lemma NoDup_map_get name provider m :
  NoDup (map fst m) -> In (name, provider) m ->
  map_get name m = Some provider.
Proof.
  induction m as [|[k q] m IH]; [contradiction|].
  cbn [map fst]. intros Hnd [H|H]; simpl.
  - inversion H; subst. now rewrite String.eqb_refl.
  - inversion Hnd as [|? ? Hk Hm]; subst.
    destruct (k =? name)%string eqn:E.
    + apply String.eqb_eq in E; subst. exfalso. apply Hk.
      apply (in_map fst) in H. exact H.
    + now apply IH.
Qed.

(** What the loop of the [catch] clause leaves behind. *)
Lemma try_fallbacks_cases svc text rest called :
  (result (try_fallbacks svc text rest called) = Rejected ALL_FAILED /\
   service_after (try_fallbacks svc text rest called) = svc) \/
  (exists name provider v,
     In (name, provider) rest /\
     is_not_current (currentProvider svc) name = true /\
     embed provider text = Resolved v /\
     result (try_fallbacks svc text rest called) = Resolved v /\
     service_after (try_fallbacks svc text rest called) =
       {| currentProvider := Some name; providers := providers svc |}).
Proof.
  revert called. induction rest as [|[k p] rest IH]; intros called.
  - left. split; reflexivity.
  - cbn [try_fallbacks].
    destruct (is_not_current (currentProvider svc) k) eqn:Ek.
    + destruct (embed p text) as [v|e] eqn:Ep.
      * right. exists k, p, v. cbn. auto.
      * destruct (IH (called ++ [k])) as [H | (n & q & v & Hin & H)];
          [now left|].
        right. exists n, q, v. split; [now right | exact H].
    + destruct (IH called) as [H | (n & q & v & Hin & H)]; [now left|].
      right. exists n, q, v. split; [now right | exact H].
Qed.

Lemma getEmbedding_ready_keeps_registered Gm Lc Hf Oa settings svc text :
  registered svc ->
  registered (service_after (getEmbedding Gm Lc Hf Oa settings svc text)).
Proof.
  intros (p1 & P1 & Hcur & Hget).
  unfold getEmbedding, getEmbedding_ready. rewrite Hcur, Hget.
  destruct (embed P1 text) as [v1|e1].
  - exists p1, P1. auto.
  - destruct (try_fallbacks_cases svc text (providers svc) [p1])
      as [[_ Hsvc] | (n & q & v & Hin & _ & _ & _ & Hsvc)]; rewrite Hsvc.
    + exists p1, P1. auto.
    + destruct (In_map_get n q _ Hin) as [q' Hq']. exists n, q'. auto.
Qed.

(** X9: on a service whose current provider is registered (the names of
    the [Map] being distinct), [getEmbedding] resolves exactly when some
    registered provider resolves on the text; when it rejects, the error
    is 'All embedding providers failed' and the service is unchanged; the
    registry is never changed and the current provider stays one of the
    registered ones. *)
Theorem getEmbedding_resolves_iff_some_provider_does
    Gm Lc Hf Oa settings svc text :
  NoDup (map fst (providers svc)) ->
  registered svc ->
  let run := getEmbedding Gm Lc Hf Oa settings svc text in
  ((exists v, result run = Resolved v) <->
   (exists name provider v,
      In (name, provider) (providers svc) /\
      embed provider text = Resolved v)) /\
  (forall e, result run = Rejected e ->
             e = ALL_FAILED /\ service_after run = svc) /\
  providers (service_after run) = providers svc /\
  registered (service_after run).
Proof.
  intros Hnd (p1 & P1 & Hcur & Hget) run.
  assert (Hreg : registered (service_after run)).
  { apply getEmbedding_ready_keeps_registered. exists p1, P1. auto. }
  revert Hreg.
  unfold run, getEmbedding, getEmbedding_ready. rewrite Hcur, Hget.
  destruct (embed P1 text) as [v1|e1] eqn:HP1.
  - cbn [result service_after]. intros Hreg.
    split; [split|split; [|split]].
    + intros _. exists p1, P1, v1. split; [|exact HP1].
      now apply map_get_In.
    + intros _. eauto.
    + discriminate.
    + reflexivity.
    + exact Hreg.
  - destruct (try_fallbacks_cases svc text (providers svc) [p1])
      as [[Hres Hsvc] | (n & q & v & Hin & Hn & Hq & Hres & Hsvc)].
    + rewrite Hsvc. intros Hreg.
      split; [split|split; [|split]].
      * rewrite Hres. intros [v Hv]. discriminate.
      * intros (n & q & v & Hin & Hq). exfalso.
        destruct (String.eqb n p1) eqn:En.
        -- apply String.eqb_eq in En; subst n.
           rewrite (NoDup_map_get p1 q _ Hnd Hin) in Hget.
           inversion Hget; subst. congruence.
        -- apply String.eqb_neq in En.
           destruct (try_fallbacks_all_failed svc text (providers svc) [p1]
                       Hres n q Hin) as [e He].
           ++ rewrite Hcur. simpl. apply negb_true_iff, String.eqb_neq.
              congruence.
           ++ congruence.
      * rewrite Hres. intros e He. inversion He. auto.
      * reflexivity.
      * exact Hreg.
    + rewrite Hsvc. cbn [providers]. intros Hreg.
      split; [split|split; [|split]].
      * intros _. eauto.
      * intros _. rewrite Hres. eauto.
      * rewrite Hres. discriminate.
      * reflexivity.
      * exact Hreg.
Qed.

Lemma getEmbedding_resolves_iff_some_provider_does_witness :
  let run :=
    getEmbedding P1 P1 P1 P1 (Resolved "gemini"%string) two_providers
      (of_string "fox") in
  ((exists v, result run = Resolved v) <->
   (exists name provider v,
      In (name, provider) (providers two_providers) /\
      embed provider (of_string "fox") = Resolved v)) /\
  (forall e, result run = Rejected e ->
             e = ALL_FAILED /\ service_after run = two_providers) /\
  providers (service_after run) = providers two_providers /\
  registered (service_after run).
Proof.
  apply (getEmbedding_resolves_iff_some_provider_does P1 P1 P1 P1
           (Resolved "gemini"%string) two_providers (of_string "fox")).
  - repeat constructor; simpl; intuition discriminate.
  - exists "p1"%string, P1. split; reflexivity.
Defined.



End FallbackMoreFacts.

(** ** EmbeddingUtils.batchEmbed *)

Module BatchFacts.
Import EmbeddingUtils.






(** The batch at work: the first text is embedded by the service, but it
    shares its batch with a text that is not, and both come back as
    zeros. *)
Example batchEmbed_drops_the_whole_batch :
  batchEmbed 3 short_texts_only
    [of_string "ab"; of_string "much too long"; of_string "cd"] 2 =
  Some [zero_embedding; zero_embedding; [Fin 1%R]].
Proof. reflexivity. Qed.

(** With a batch size of 0 the loop never advances: whatever the fuel,
    [batchEmbed] on a text or more does not return. *)
Remark batchEmbed_zero_batch_size getEmbedding text texts fuel :
  batchEmbed fuel getEmbedding (text :: texts) 0 = None.
Proof.
  unfold batchEmbed. generalize (@nil vec).
  induction fuel as [|fuel IH]; intros embeddings; [reflexivity|].
  cbn [batchEmbed_from firstn skipn map promise_all]. apply IH.
Qed.

End BatchFacts.

(** * The memory store *)

Module StoreFacts.
Import Store.


Lemma snapshot_resolved_healthy l snapshot :
  embeddings_snapshot l = Resolved snapshot ->
  Forall (fun e => emb_embedding e <> None) l.
Proof.
  revert snapshot. induction l as [|e l IH]; intros snapshot E.
  - constructor.
  - simpl in E. destruct (emb_embedding e) as [v|] eqn:Ev; [|discriminate].
    destruct (embeddings_snapshot l) as [s|err] eqn:El; [|discriminate].
    constructor; [congruence | now apply (IH s)].
Qed.

Lemma snapshot_unhealthy l :
  ~ Forall (fun e => emb_embedding e <> None) l ->
  exists err, embeddings_snapshot l = Rejected err.
Proof.
  intros H. destruct (embeddings_snapshot l) as [s|err] eqn:E.
  - exfalso. apply H. now apply (snapshot_resolved_healthy l s).
  - now exists err.
Qed.

(** What [addMemory] does once the text is embedded, in one equation. *)
Lemma addMemory_embedded getEmbedding env mgr memoryData embedding :
  getEmbedding (md_content memoryData) = Resolved embedding ->
  let session := getSessionId env (storage mgr) in
  let stored :=
    {| sm_memory := new_memory env (fst session) memoryData;
       sm_embedding := embedding |} in
  let grown :=
    {| memories := memories mgr ++ [stored];
       embeddings :=
         embeddings mgr ++
           [{| emb_id := env_id env; emb_embedding := embedding |}];
       storage := snd session |} in
  addMemory getEmbedding env mgr memoryData =
  match saveToStorage grown with
  | Rejected error => (Rejected error, grown)
  | Resolved saved => (Resolved stored, saved)
  end.
Proof.
  intros E. unfold addMemory.
  destruct (getSessionId env (storage mgr)) as [sessionId st].
  rewrite E. reflexivity.
Qed.

Lemma getSessionId_keeps_snapshots env st :
  stored_memories (snd (getSessionId env st)) = stored_memories st /\
  stored_embeddings (snd (getSessionId env st)) = stored_embeddings st.
Proof.
  unfold getSessionId. destruct (truthy (stored_sessionId st)); split;
    reflexivity.
Qed.


Lemma unhealthy_grown l entry :
  ~ Forall (fun e => emb_embedding e <> None) l ->
  ~ Forall (fun e => emb_embedding e <> None) (l ++ [entry]).
Proof.
  intros H H'. apply H. now apply Forall_app in H' as [H' _].
Qed.




(** X14: when the service resolves with [null] for the content,
    [addMemory] rejects, yet the memory and its [null] embedding stay in
    the manager; the stored memories and embeddings are as before, and
    the store now holds a [null] embedding. *)
Theorem addMemory_null_embedding_poisons getEmbedding env mgr memoryData :
  getEmbedding (md_content memoryData) = Resolved None ->
  let mgr' := snd (addMemory getEmbedding env mgr memoryData) in
  (exists err,
     fst (addMemory getEmbedding env mgr memoryData) = Rejected err) /\
  (exists memory,
     sm_embedding memory = None /\
     memories mgr' = memories mgr ++ [memory]) /\
  embeddings mgr' =
    embeddings mgr ++ [{| emb_id := env_id env; emb_embedding := None |}] /\
  stored_memories (storage mgr') = stored_memories (storage mgr) /\
  stored_embeddings (storage mgr') = stored_embeddings (storage mgr) /\
  ~ healthy mgr'.
Proof.
  intros E. rewrite (addMemory_embedded _ env mgr _ _ E). cbv zeta.
  unfold saveToStorage. cbn [embeddings memories storage].
  assert (Hbad : ~ Forall (fun e => emb_embedding e <> None)
                   (embeddings mgr ++
                      [{| emb_id := env_id env; emb_embedding := None |}])).
  { intros H. apply Forall_app in H as [_ H].
    inversion H as [|? ? Hne _]. now apply Hne. }
  destruct (snapshot_unhealthy _ Hbad) as (err & ->). cbn [fst snd].
  destruct (getSessionId_keeps_snapshots env (storage mgr)) as [Hm He].
  split; [now exists err|].
  split; [eexists; split; [|reflexivity]; reflexivity|].
  split; [reflexivity|].
  split; [exact Hm|]. split; [exact He|]. exact Hbad.
Qed.

Lemma addMemory_null_embedding_poisons_witness :
  let mgr' := snd (addMemory null_service env1 empty_manager fox_data) in
  (exists err,
     fst (addMemory null_service env1 empty_manager fox_data) =
       Rejected err) /\
  (exists memory,
     sm_embedding memory = None /\
     memories mgr' = memories empty_manager ++ [memory]) /\
  embeddings mgr' =
    embeddings empty_manager ++
      [{| emb_id := env_id env1; emb_embedding := None |}] /\
  stored_memories (storage mgr') = stored_memories (storage empty_manager) /\
  stored_embeddings (storage mgr') =
    stored_embeddings (storage empty_manager) /\
  ~ healthy mgr'.
Proof.
  apply (addMemory_null_embedding_poisons null_service env1 empty_manager
           fox_data).
  reflexivity.
Defined.

(** X15: once the manager holds a [null] embedding, every later
    [addMemory] rejects, whatever the service answers; none of them
    changes the stored memories or embeddings, and the [null] embedding
    stays. *)
Theorem addMemory_after_null_never_saves getEmbedding env mgr memoryData :
  ~ healthy mgr ->
  let mgr' := snd (addMemory getEmbedding env mgr memoryData) in
  (exists err,
     fst (addMemory getEmbedding env mgr memoryData) = Rejected err) /\
  stored_memories (storage mgr') = stored_memories (storage mgr) /\
  stored_embeddings (storage mgr') = stored_embeddings (storage mgr) /\
  ~ healthy mgr'.
Proof.
  intros Hbad.
  destruct (getSessionId_keeps_snapshots env (storage mgr)) as [Hm He].
  destruct (getEmbedding (md_content memoryData)) as [embedding|err] eqn:E.
  - rewrite (addMemory_embedded _ env mgr _ _ E). cbv zeta.
    unfold saveToStorage. cbn [embeddings memories storage].
    pose proof (unhealthy_grown _
                  {| emb_id := env_id env; emb_embedding := embedding |}
                  Hbad) as Hg.
    destruct (snapshot_unhealthy _ Hg) as (err & ->). cbn [fst snd].
    split; [now exists err|].
    split; [exact Hm|]. split; [exact He|]. exact Hg.
  - unfold addMemory.
    destruct (getSessionId env (storage mgr)) as [sessionId st] eqn:Es.
    rewrite E. cbn [fst snd storage] in *.
    split; [now exists err|].
    split; [exact Hm|]. split; [exact He|]. exact Hbad.
Qed.

Lemma addMemory_after_null_never_saves_witness :
  let poisoned := snd (addMemory null_service env1 empty_manager fox_data) in
  let mgr' := snd (addMemory ones_service env2 poisoned fox_data) in
  (exists err,
     fst (addMemory ones_service env2 poisoned fox_data) = Rejected err) /\
  stored_memories (storage mgr') = stored_memories (storage poisoned) /\
  stored_embeddings (storage mgr') = stored_embeddings (storage poisoned) /\
  ~ healthy mgr'.
Proof.
  apply (addMemory_after_null_never_saves ones_service env2
           (snd (addMemory null_service env1 empty_manager fox_data))
           fox_data).
  intros H. inversion H as [|? ? Hne _]. now apply Hne.
Defined.

End StoreFacts.

(** ** A stored text is found again *)

Module StoreSearchFacts.
Import Store StoreFacts.







(** ** [getStats] *)

Lemma own_set_stat_same key value typeStats :
  own key (set_stat key value typeStats) = Some value.
Proof.
  induction typeStats as [|[k v] rest IH]; simpl.
  - now rewrite String.eqb_refl.
  - destruct (String.eqb_spec k key) as [->|Hne]; simpl.
    + now rewrite String.eqb_refl.
    + destruct (String.eqb_spec k key); [contradiction | exact IH].
Qed.

Lemma own_set_stat_other key key' value typeStats :
  key' <> key ->
  own key' (set_stat key value typeStats) = own key' typeStats.
Proof.
  intros Hne. induction typeStats as [|[k v] rest IH]; simpl.
  - destruct (String.eqb_spec key key'); [congruence | reflexivity].
  - destruct (String.eqb_spec k key) as [->|Hk]; simpl.
    + destruct (String.eqb_spec key key'); [congruence | reflexivity].
    + now rewrite IH.
Qed.

Lemma sum_counts_new key typeStats :
  own key typeStats = None ->
  sum_counts (set_stat key (Count 1) typeStats) = S (sum_counts typeStats).
Proof.
  induction typeStats as [|[k v] rest IH]; simpl; [reflexivity|].
  destruct (String.eqb_spec k key) as [->|Hk]; [discriminate|].
  intros H. simpl. rewrite (IH H). destruct v; lia.
Qed.

Lemma sum_counts_more key n typeStats :
  own key typeStats = Some (Count n) ->
  sum_counts (set_stat key (Count (n + 1)) typeStats) =
  S (sum_counts typeStats).
Proof.
  induction typeStats as [|[k v] rest IH]; simpl; [discriminate|].
  destruct (String.eqb_spec k key) as [->|Hk]; intros H.
  - inversion H; subst v. simpl. lia.
  - simpl. rewrite (IH H). destruct v; lia.
Qed.

Lemma count_type_snoc type l m :
  count_type type (l ++ [m]) =
  count_type type l +
  (if (mem_type (sm_memory m) =? type)%string then 1 else 0).
Proof.
  unfold count_type. rewrite filter_app, length_app. simpl.
  now destruct (mem_type (sm_memory m) =? type)%string.
Qed.

Lemma bump_counted typeStats l m :
  inherited (mem_type (sm_memory m)) = false ->
  counted typeStats l ->
  counted (bump typeStats (mem_type (sm_memory m))) (l ++ [m]).
Proof.
  intros Hinh [Hown Hsum]. set (t := mem_type (sm_memory m)) in *.
  assert (Hproto : (t =? "__proto__")%string = false).
  { destruct (String.eqb_spec t "__proto__") as [Heq|]; [|reflexivity].
    rewrite Heq in Hinh. discriminate. }
  unfold bump. rewrite Hproto, Hinh.
  pose proof (Hown t) as Ht.
  split.
  - intros type. rewrite count_type_snoc. fold t.
    destruct (String.eqb_spec t type) as [<-|Hne].
    + rewrite own_set_stat_same.
      destruct (count_type t l) as [|c] eqn:Ec; simpl in Ht; rewrite Ht.
      * reflexivity.
      * replace (S c + 1 =? 0) with false
          by (symmetry; apply Nat.eqb_neq; lia).
        reflexivity.
    + rewrite own_set_stat_other by congruence.
      rewrite Nat.add_0_r. apply Hown.
  - rewrite length_app. simpl.
    destruct (count_type t l) as [|c] eqn:Ec; simpl in Ht; rewrite Ht.
    + rewrite sum_counts_new by exact Ht. lia.
    + rewrite sum_counts_more by exact Ht. lia.
Qed.

Lemma fold_bump_counted l : forall typeStats done,
  Forall (fun m => inherited (mem_type (sm_memory m)) = false) l ->
  counted typeStats done ->
  counted
    (fold_left (fun typeStats memory =>
                  bump typeStats (mem_type (sm_memory memory))) l typeStats)
    (done ++ l).
Proof.
  induction l as [|m l IH]; intros typeStats done Hl Hc.
  - now rewrite app_nil_r.
  - inversion Hl as [|? ? Hm Hl']; subst. simpl.
    replace (done ++ m :: l) with ((done ++ [m]) ++ l)
      by (now rewrite <- app_assoc).
    apply IH; [exact Hl'|]. now apply bump_counted.
Qed.

(** X17: when no memory has a type named like a member of
    [Object.prototype], [getStats] counts every type: a type that occurs
    has its number of memories, a type that does not occur has no entry,
    and the counts add up to [totalMemories], the number of memories. *)
Theorem getStats_counts_every_type mgr :
  Forall (fun m => inherited (mem_type (sm_memory m)) = false)
    (memories mgr) ->
  fst (getStats mgr) = length (memories mgr) /\
  (forall type,
     own type (snd (getStats mgr)) =
     if count_type type (memories mgr) =? 0 then None
     else Some (Count (count_type type (memories mgr)))) /\
  sum_counts (snd (getStats mgr)) = fst (getStats mgr).
Proof.
  intros H. unfold getStats. cbn [fst snd].
  destruct (fold_bump_counted (memories mgr) [] [] H) as [Hown Hsum].
  { split; [intros type; reflexivity | reflexivity]. }
  split; [reflexivity|]. split; [exact Hown | exact Hsum].
Qed.

Lemma getStats_counts_every_type_witness :
  let mgr := snd (addMemory ones_service env1 empty_manager fox_data) in
  fst (getStats mgr) = length (memories mgr) /\
  (forall type,
     own type (snd (getStats mgr)) =
     if count_type type (memories mgr) =? 0 then None
     else Some (Count (count_type type (memories mgr)))) /\
  sum_counts (snd (getStats mgr)) = fst (getStats mgr).
Proof.
  apply (getStats_counts_every_type
           (snd (addMemory ones_service env1 empty_manager fox_data))).
  constructor; [reflexivity | constructor].
Defined.

Lemma bump_uncounted typeStats type :
  uncounted typeStats -> uncounted (bump typeStats type).
Proof.
  intros H t n Ht. unfold bump.
  destruct (type =? "__proto__")%string; [now apply H|].
  destruct (String.eqb_spec type t) as [->|Hne].
  - rewrite own_set_stat_same, Ht.
    destruct (own t typeStats) as [[c|]|] eqn:Eo; try discriminate.
    exfalso. now apply (H t c Ht).
  - rewrite own_set_stat_other by congruence. now apply H.
Qed.

(** X18: [getStats] never gives a count to a type named like a member
    of [Object.prototype] (['constructor'], ['toString'], ['__proto__'],
    ...), however many memories have that type. *)
Theorem getStats_never_counts_inherited_names mgr type n :
  inherited type = true ->
  own type (snd (getStats mgr)) <> Some (Count n).
Proof.
  intros Ht. unfold getStats. cbn [snd].
  assert (H : forall l typeStats,
             uncounted typeStats ->
             uncounted
               (fold_left (fun typeStats memory =>
                             bump typeStats (mem_type (sm_memory memory)))
                  l typeStats)).
  { induction l as [|m l IH]; intros typeStats Hu; [exact Hu|].
    simpl. apply IH. now apply bump_uncounted. }
  apply (H (memories mgr) []); [|exact Ht].
  intros t c _. discriminate.
Qed.

Lemma getStats_never_counts_inherited_names_witness :
  own "constructor"
    (snd (getStats
            {| memories :=
                 [{| sm_memory :=
                       {| mem_id := "id1"; mem_type := "constructor";
                          mem_content := []; mem_metadata := [];
                          mem_tags := [] |};
                     sm_embedding := None |}];
               embeddings := []; storage := storage empty_manager |})) <>
  Some (Count 1).
Proof.
  apply (getStats_never_counts_inherited_names _ "constructor" 1).
  reflexivity.
Defined.

End StoreSearchFacts.

(** * Plans that run to their end *)

Module WalkFacts.
Import Exec ExecFacts Walk.

Lemma findIndex_nth l : forall i step,
  NoDup (map step_id l) ->
  nth_error l i = Some step ->
  findIndex (step_id step) l = Some i.
Proof.
  induction l as [|s l IH]; intros i step Hnd Hi; [destruct i; discriminate|].
  simpl in Hnd. inversion Hnd as [|? ? Hnotin Hnd']; subst.
  destruct i as [|i]; simpl in *.
  - inversion Hi; subst. now rewrite String.eqb_refl.
  - destruct (String.eqb_spec (step_id s) (step_id step)) as [Heq|_].
    + exfalso. apply Hnotin. rewrite Heq. apply in_map.
      now apply nth_error_In with i.
    + now rewrite (IH i step Hnd' Hi).
Qed.

Lemma findIndex_unknown id l :
  ~ In id (map step_id l) -> findIndex id l = None.
Proof.
  induction l as [|s l IH]; intros H; [reflexivity|]. simpl in *.
  destruct (String.eqb_spec (step_id s) id) as [Heq|_].
  - exfalso. apply H. now left.
  - rewrite IH; [reflexivity|]. intros H'. apply H. now right.
Qed.

Lemma find_step_nth plan i step :
  NoDup (map step_id (steps plan)) ->
  nth_error (steps plan) i = Some step ->
  find_step plan (step_id step) = Some step.
Proof.
  unfold find_step. generalize (steps plan) as l.
  intros l. revert i. induction l as [|s l IH]; intros i Hnd Hi;
    [destruct i; discriminate|].
  simpl in Hnd. inversion Hnd as [|? ? Hnotin Hnd']; subst.
  destruct i as [|i]; simpl in *.
  - inversion Hi; subst. now rewrite String.eqb_refl.
  - destruct (String.eqb_spec (step_id s) (step_id step)) as [Heq|_].
    + exfalso. apply Hnotin. rewrite Heq. apply in_map.
      now apply nth_error_In with i.
    + now apply (IH i).
Qed.

(** X19: in a plan of distinct ids, [getNextStepId] of a step is the id
    of the step declared after it, and [null] for the last step; of an
    id that no step has, it is the id of the first step. *)
Theorem getNextStepId_walks_the_plan plan :
  NoDup (map step_id (steps plan)) ->
  (forall i step,
     nth_error (steps plan) i = Some step ->
     getNextStepId plan (step_id step) =
     option_map step_id (nth_error (steps plan) (S i))) /\
  (forall i step,
     nth_error (steps plan) i = Some step ->
     S i = length (steps plan) ->
     getNextStepId plan (step_id step) = None) /\
  (forall id,
     ~ In id (map step_id (steps plan)) ->
     getNextStepId plan id = option_map step_id (nth_error (steps plan) 0)).
Proof.
  intros Hnd. split; [|split].
  - intros i step Hi. unfold getNextStepId.
    now rewrite (findIndex_nth _ i step Hnd Hi).
  - intros i step Hi Hlen. unfold getNextStepId.
    rewrite (findIndex_nth _ i step Hnd Hi), Hlen.
    now rewrite (proj2 (nth_error_None _ _) (le_n _)).
  - intros id Hid. unfold getNextStepId.
    now rewrite (findIndex_unknown id _ Hid).
Qed.

Lemma getNextStepId_walks_the_plan_witness :
  (forall i step,
     nth_error (steps plan_abc) i = Some step ->
     getNextStepId plan_abc (step_id step) =
     option_map step_id (nth_error (steps plan_abc) (S i))) /\
  (forall i step,
     nth_error (steps plan_abc) i = Some step ->
     S i = length (steps plan_abc) ->
     getNextStepId plan_abc (step_id step) = None) /\
  (forall id,
     ~ In id (map step_id (steps plan_abc)) ->
     getNextStepId plan_abc id =
     option_map step_id (nth_error (steps plan_abc) 0)).
Proof.
  apply (getNextStepId_walks_the_plan plan_abc).
  repeat constructor; simpl; intuition discriminate.
Defined.

Lemma runnable_resolves actionModule now step :
  succeeds actionModule ->
  runnable step = true ->
  exists result,
    executeStep actionModule now step = Resolved result /\
    hr_success result = true.
Proof.
  intros (Hs & Hn & Hh) Hr. unfold runnable in Hr. unfold executeStep.
  destruct (step_type step =? "search")%string eqn:E1.
  { destruct (step_parameters step) as [p|].
    - eexists. split; [reflexivity | apply Hs].
    - destruct (step_type step =? "analysis")%string eqn:Ea.
      + apply String.eqb_eq in E1, Ea. rewrite E1 in Ea. discriminate.
      + simpl in Hr. discriminate. }
  destruct (step_type step =? "navigation")%string eqn:E2.
  { destruct (step_parameters step) as [p|].
    - eexists. split; [reflexivity | apply Hn].
    - destruct (step_type step =? "analysis")%string eqn:Ea.
      + apply String.eqb_eq in E2, Ea. rewrite E2 in Ea. discriminate.
      + simpl in Hr. discriminate. }
  destruct (step_type step =? "highlight")%string eqn:E3.
  { destruct (step_parameters step) as [p|].
    - eexists. split; [reflexivity | apply Hh].
    - destruct (step_type step =? "analysis")%string eqn:Ea.
      + apply String.eqb_eq in E3, Ea. rewrite E3 in Ea. discriminate.
      + simpl in Hr. discriminate. }
  destruct (step_type step =? "analysis")%string; [|discriminate].
  eexists. split; reflexivity.
Qed.

Lemma has_success_recorded executionResults dep :
  Forall (fun r => er_success r = true) executionResults ->
  In dep (map er_stepId executionResults) ->
  has_success executionResults dep = true.
Proof.
  intros Hall Hin. unfold has_success. apply existsb_exists.
  apply in_map_iff in Hin as (r & Hid & Hr). exists r. split; [exact Hr|].
  rewrite Forall_forall in Hall. rewrite (Hall r Hr), Hid.
  now rewrite String.eqb_refl.
Qed.

Lemma firstn_S_nth {A} (l : list A) i x :
  nth_error l i = Some x -> firstn (S i) l = firstn i l ++ [x].
Proof.
  revert i. induction l as [|y l IH]; intros i H; [destruct i; discriminate|].
  destruct i as [|i]; simpl in *.
  - now inversion H.
  - now rewrite (IH i H).
Qed.

Lemma walked_snoc actionModule l : forall attempt step,
  walked actionModule attempt (l ++ [step]) =
  walked actionModule attempt l ++
    [record_of actionModule (attempt + length l) step].
Proof.
  induction l as [|s l IH]; intros attempt step; simpl.
  - now rewrite Nat.add_0_r.
  - rewrite IH. now replace (S attempt + length l)
      with (attempt + S (length l)) by lia.
Qed.

Lemma walked_ids actionModule l : forall attempt,
  map er_stepId (walked actionModule attempt l) = map step_id l.
Proof.
  induction l as [|s l IH]; intros attempt; [reflexivity|].
  simpl. rewrite IH. f_equal.
  unfold record_of. now destruct (executeStep actionModule attempt s).
Qed.

Lemma walked_success actionModule l :
  succeeds actionModule ->
  Forall (fun step => runnable step = true) l ->
  forall attempt,
    Forall (fun r => er_success r = true) (walked actionModule attempt l).
Proof.
  intros Hok. induction 1 as [|s l Hs Hl IH]; intros attempt;
    [constructor|].
  simpl. constructor; [|apply IH].
  unfold record_of.
  now destruct (runnable_resolves actionModule attempt s Hok Hs)
    as (result & -> & Hsucc).
Qed.

Lemma loop_stepsExecuted actionModule plan remaining :
  forall attempt cursor recorded events,
  stepsExecuted
    (executePlan_loop actionModule plan remaining attempt cursor recorded
       events) =
  length
    (executionResults
       (executePlan_loop actionModule plan remaining attempt cursor recorded
          events)).
Proof.
  induction remaining as [|remaining IH];
    intros attempt cursor recorded events; [reflexivity|].
  cbn [executePlan_loop].
  destruct (falsy cursor); [reflexivity|].
  destruct (find_step plan (default ""%string cursor)); [|reflexivity].
  destruct (decideNextAction actionModule plan (default ""%string cursor)
              recorded attempt); try reflexivity; apply IH.
Qed.

Lemma loop_results actionModule plan remaining :
  forall attempt cursor recorded events,
  results
    (executePlan_loop actionModule plan remaining attempt cursor recorded
       events) =
  collect
    (executionResults
       (executePlan_loop actionModule plan remaining attempt cursor recorded
          events)).
Proof.
  induction remaining as [|remaining IH];
    intros attempt cursor recorded events; [reflexivity|].
  cbn [executePlan_loop].
  destruct (falsy cursor); [reflexivity|].
  destruct (find_step plan (default ""%string cursor)); [|reflexivity].
  destruct (decideNextAction actionModule plan (default ""%string cursor)
              recorded attempt); try reflexivity; apply IH.
Qed.

Section Run.
Variable actionModule : ActionModule.
Variable plan : Plan.
Hypothesis Hok : succeeds actionModule.
Hypothesis Hids : distinct_ids (steps plan).
Hypothesis Hrun : Forall (fun step => runnable step = true) (steps plan).
Hypothesis Hord : ordered (steps plan).

Lemma loop_walks remaining : forall i recorded events,
  i <= length (steps plan) ->
  recorded = walked actionModule 0 (firstn i (steps plan)) ->
  let r :=
    executePlan_loop actionModule plan remaining i
      (option_map step_id (nth_error (steps plan) i)) recorded events in
  executionResults r =
    walked actionModule 0 (firstn (i + remaining) (steps plan)) /\
  termination r =
    (if length (steps plan) - i <? remaining then CursorEmpty
     else BudgetSpent).
Proof.
  destruct Hids as [Hnd Hne].
  induction remaining as [|remaining IH];
    intros i recorded events Hi Hrec.
  - cbn. rewrite Nat.add_0_r. auto.
  - cbn [executePlan_loop]. cbv zeta.
    destruct (nth_error (steps plan) i) as [step|] eqn:Hstep.
    + assert (Hlt : i < length (steps plan))
        by (apply nth_error_Some; congruence).
      cbn [option_map default].
      assert (Hfalsy : falsy (Some (step_id step)) = false).
      { unfold falsy, truthy.
        destruct (String.eqb_spec (step_id step) "") as [E|_];
          [|reflexivity].
        exfalso. rewrite Forall_forall in Hne.
        apply (Hne step); [now apply nth_error_In with i | exact E]. }
      rewrite Hfalsy.
      rewrite (find_step_nth plan i step Hnd Hstep).
      assert (Hall : Forall (fun r => er_success r = true) recorded).
      { rewrite Hrec. apply walked_success; [exact Hok|].
        apply Forall_forall. intros s Hs. rewrite Forall_forall in Hrun.
        apply Hrun. rewrite <- (firstn_skipn i (steps plan)).
        apply in_or_app. now left. }
      rewrite (decide_met actionModule plan (step_id step) step recorded
                 i (find_step_nth plan i step Hnd Hstep)).
      2:{ destruct (step_dependencies step) as [dependencies|] eqn:Hdeps;
            [|exact I].
          unfold dependenciesMet. apply forallb_forall. intros dep Hdep.
          apply has_success_recorded; [exact Hall|].
          rewrite Hrec, walked_ids, <- firstn_map.
          now apply (Hord i step dependencies dep). }
      rewrite Forall_forall in Hrun.
      destruct (runnable_resolves actionModule i step Hok
                  (Hrun step (nth_error_In _ _ Hstep)))
        as (result & Hres & Hsucc).
      rewrite Hres.
      unfold getNextStepId. rewrite (findIndex_nth _ i step Hnd Hstep).
      replace (i + S remaining) with (S i + remaining) by lia.
      replace (length (steps plan) - i <? S remaining)
        with (length (steps plan) - S i <? remaining)
        by (destruct (Nat.ltb_spec (length (steps plan) - S i) remaining);
            destruct (Nat.ltb_spec (length (steps plan) - i) (S remaining));
            auto; lia).
      apply IH; [lia|].
      rewrite (firstn_S_nth _ i step Hstep), walked_snoc, <- Hrec.
      rewrite length_firstn, Nat.min_l by lia. cbn [Nat.add].
      unfold record_of. now rewrite Hres.
    + assert (Hge : length (steps plan) <= i) by now apply nth_error_None.
      cbn [option_map falsy truthy negb].
      cbn [createExecutionResult executionResults success termination].
      split.
      * rewrite Hrec. rewrite !firstn_all2; auto; lia.
      * replace (length (steps plan) - i) with 0 by lia. reflexivity.
Qed.

(** The run of a plan that meets no obstacle. *)
Lemma executePlan_with_walks budget :
  let r := executePlan_with actionModule plan budget in
  executionResults r =
    walked actionModule 0 (firstn budget (steps plan)) /\
  Forall (fun r => er_success r = true) (executionResults r) /\
  stepsExecuted r = Nat.min budget (length (steps plan)) /\
  results r = collect (walked actionModule 0 (firstn budget (steps plan))) /\
  success r = false /\
  termination r =
    (if length (steps plan) <? budget then CursorEmpty else BudgetSpent).
Proof.
  cbv zeta. unfold executePlan_with.
  destruct (loop_walks budget 0 [] [] (Nat.le_0_l _) eq_refl)
    as (Hres & Hterm).
  cbn [Nat.add] in Hres. rewrite Nat.sub_0_r in Hterm.
  split; [exact Hres|]. split; [|split; [|split; [|split]]].
  - rewrite Hres. apply walked_success; [exact Hok|].
    apply Forall_forall. intros s Hs. rewrite Forall_forall in Hrun.
    apply Hrun. rewrite <- (firstn_skipn budget (steps plan)).
    apply in_or_app. now left.
  - rewrite loop_stepsExecuted, Hres.
    rewrite <- (length_map er_stepId), walked_ids, length_map.
    apply length_firstn.
  - now rewrite loop_results, Hres.
  - apply loop_never_succeeds.
  - exact Hterm.
Qed.
End Run.

(** X20: when every handler succeeds, a plan of distinct non-empty ids
    whose steps are all executable and depend on earlier steps only runs
    in the order of the plan, one step per iteration: with a budget of
    [n] iterations the records are those of the first [n] steps, each
    called at the iteration of its rank, all successes; the run ends on
    the empty cursor when the plan is shorter than the budget and on the
    spent budget otherwise, and it never reports success. *)
Theorem executePlan_walks_the_plan actionModule plan budget :
  succeeds actionModule ->
  distinct_ids (steps plan) ->
  Forall (fun step => runnable step = true) (steps plan) ->
  ordered (steps plan) ->
  let r := executePlan_with actionModule plan budget in
  executionResults r =
    walked actionModule 0 (firstn budget (steps plan)) /\
  map er_stepId (executionResults r) =
    firstn budget (map step_id (steps plan)) /\
  Forall (fun r => er_success r = true) (executionResults r) /\
  stepsExecuted r = Nat.min budget (length (steps plan)) /\
  success r = false /\
  termination r =
    (if length (steps plan) <? budget then CursorEmpty else BudgetSpent).
Proof.
  intros Hok Hids Hrun Hord.
  destruct (executePlan_with_walks actionModule plan Hok Hids Hrun Hord
              budget) as (Hres & Hall & Hn & _ & Hs & Ht).
  cbv zeta. split; [exact Hres|].
  split; [now rewrite Hres, walked_ids, firstn_map|].
  auto.
Qed.

Lemma six_steps_ordered : ordered (steps six_steps).
Proof.
  intros i step dependencies dep Hi Hdeps.
  do 6 (destruct i as [|i]; [inversion Hi; subst; discriminate|]).
  destruct i; discriminate.
Qed.

Lemma executePlan_walks_the_plan_witness :
  let r := executePlan_with quiet_actions six_steps maxExecutionSteps in
  executionResults r =
    walked quiet_actions 0 (firstn maxExecutionSteps (steps six_steps)) /\
  map er_stepId (executionResults r) =
    firstn maxExecutionSteps (map step_id (steps six_steps)) /\
  Forall (fun r => er_success r = true) (executionResults r) /\
  stepsExecuted r = Nat.min maxExecutionSteps (length (steps six_steps)) /\
  success r = false /\
  termination r =
    (if length (steps six_steps) <? maxExecutionSteps then CursorEmpty
     else BudgetSpent).
Proof.
  apply (executePlan_walks_the_plan quiet_actions six_steps
           maxExecutionSteps).
  - repeat split.
  - split.
    + repeat constructor; simpl; intuition discriminate.
    + repeat constructor; discriminate.
  - repeat constructor.
  - exact six_steps_ordered.
Defined.

(** A cursor on a step with an unmet dependency stays there: nothing more
    is recorded and the budget runs out. *)
Lemma loop_waits actionModule plan id step recorded :
  find_step plan id = Some step ->
  id <> ""%string ->
  unmet recorded step ->
  forall remaining attempt events,
    let r :=
      executePlan_loop actionModule plan remaining attempt (Some id)
        recorded events in
    executionResults r = recorded /\ termination r = BudgetSpent.
Proof.
  intros Hfind Hid Hunmet.
  assert (Hfalsy : falsy (Some id) = false).
  { unfold falsy, truthy. apply String.eqb_neq in Hid. now rewrite Hid. }
  induction remaining as [|remaining IH]; intros attempt events.
  - cbn. auto.
  - cbn [executePlan_loop]. rewrite Hfalsy. cbn [default]. rewrite Hfind.
    destruct (decide_unmet actionModule plan id step recorded attempt
                Hfind Hunmet) as (dependencies & _ & ->).
    apply IH.
Qed.

End WalkFacts.

(** * The plans of the decision module, and their runs *)

Module PlanningFacts.
Import Exec ExecFacts Walk WalkFacts Planning.

(** The plans [generatePlan] can return: the two templates customized,
    and the fallback plan. *)
Lemma generatePlan_cases id query analysis :
  (exists a priority,
     generatePlan id query analysis =
     {| cp_id := id; cp_query := a_query a; cp_type := "search_navigate";
        cp_steps := customizeTemplate search_navigate a;
        cp_priority := priority |}) \/
  (exists a priority,
     generatePlan id query analysis =
     {| cp_id := id; cp_query := a_query a; cp_type := "deep_analysis";
        cp_steps := customizeTemplate deep_analysis a;
        cp_priority := priority |}) \/
  generatePlan id query analysis = createFallbackPlan id query.
Proof.
  destruct analysis as [a|e]; [|right; right; reflexivity].
  unfold generatePlan, createPlan, determinePlanType.
  destruct (a_intent a =? "information")%string.
  { left. eexists. eexists. reflexivity. }
  destruct ((a_intent a =? "learning")%string
            || (a_intent a =? "research")%string).
  { right; left. eexists. eexists. reflexivity. }
  destruct (2 <? a_entities a).
  { right; left. eexists. eexists. reflexivity. }
  left. eexists. eexists. reflexivity.
Qed.

Ltac plan_cases id query analysis :=
  destruct (generatePlan_cases id query analysis)
    as [(a & priority & ->) | [(a & priority & ->) | ->]].

Ltac ordered_steps :=
  let i := fresh "i" in
  let Hi := fresh "Hi" in
  let Hdeps := fresh "Hdeps" in
  let Hin := fresh "Hin" in
  intros i ? ? ? Hi Hdeps Hin;
  do 4 (try (destruct i as [|i];
             [solve [cbn in Hi; inversion Hi; subst; cbn in Hdeps;
                     try discriminate; inversion Hdeps; subst;
                     cbn in Hin |- *; tauto]|]));
  cbn in Hi; destruct i; discriminate.

Lemma generated_plan_shape id query analysis :
  let plan := read_plan (generatePlan id query analysis) in
  distinct_ids (steps plan) /\
  Forall (fun step => runnable step = true) (steps plan) /\
  ordered (steps plan) /\
  2 <= length (steps plan) <= 4.
Proof.
  plan_cases id query analysis; cbv zeta.
  - split; [|split; [|split]].
    + split; repeat constructor; cbn; intuition discriminate.
    + repeat constructor.
    + ordered_steps.
    + cbn. lia.
  - split; [|split; [|split]].
    + split; repeat constructor; cbn; intuition discriminate.
    + repeat constructor.
    + ordered_steps.
    + cbn. lia.
  - split; [|split; [|split]].
    + split; repeat constructor; cbn; intuition discriminate.
    + repeat constructor.
    + ordered_steps.
    + cbn. lia.
Qed.

(** X21: whatever the analysis, and also when it throws, the plan of
    [generatePlan] comes from a template or is the fallback plan, never
    the basic plan; it has two to four steps, fewer than the budget of
    the executor, with distinct non-empty ids; every step has the
    parameters its handler reads, and depends on earlier steps only. *)
Theorem generatePlan_gives_executable_plans id query analysis :
  let plan := generatePlan id query analysis in
  cp_type plan <> "basic"%string /\
  distinct_ids (steps (read_plan plan)) /\
  Forall (fun step => runnable step = true) (steps (read_plan plan)) /\
  ordered (steps (read_plan plan)) /\
  2 <= length (cp_steps plan) < maxExecutionSteps.
Proof.
  cbv zeta.
  destruct (generated_plan_shape id query analysis)
    as (Hids & Hrun & Hord & Hlen).
  split; [|split; [exact Hids|split; [exact Hrun|split; [exact Hord|]]]].
  - plan_cases id query analysis; discriminate.
  - cbn [read_plan steps] in Hlen. rewrite length_map in Hlen.
    unfold maxExecutionSteps. lia.
Qed.

Lemma loop_totalSteps actionModule plan remaining :
  forall attempt cursor recorded events,
  totalSteps
    (executePlan_loop actionModule plan remaining attempt cursor recorded
       events) = length (steps plan).
Proof.
  induction remaining as [|remaining IH];
    intros attempt cursor recorded events; [reflexivity|].
  cbn [executePlan_loop].
  destruct (falsy cursor); [reflexivity|].
  destruct (find_step plan (default ""%string cursor)); [|reflexivity].
  destruct (decideNextAction actionModule plan (default ""%string cursor)
              recorded attempt); try reflexivity; apply IH.
Qed.

(** X22: when every handler succeeds, the run of a plan of
    [generatePlan] calls every step once, in the order of the plan, and
    ends on the empty cursor with [stepsExecuted] equal to [totalSteps];
    it still reports [success: false]. *)
Theorem generated_plan_runs_to_its_end actionModule id query analysis :
  succeeds actionModule ->
  let plan := read_plan (generatePlan id query analysis) in
  let r := executePlan actionModule plan in
  executionResults r = walked actionModule 0 (steps plan) /\
  map er_stepId (executionResults r) = map step_id (steps plan) /\
  Forall (fun r => er_success r = true) (executionResults r) /\
  stepsExecuted r = totalSteps r /\
  termination r = CursorEmpty /\
  success r = false.
Proof.
  intros Hok. cbv zeta.
  destruct (generated_plan_shape id query analysis)
    as (Hids & Hrun & Hord & Hlen).
  destruct (executePlan_with_walks actionModule _ Hok Hids Hrun Hord
              maxExecutionSteps) as (Hres & Hall & Hn & _ & Hs & Ht).
  set (plan := read_plan (generatePlan id query analysis)) in *.
  unfold maxExecutionSteps in *.
  rewrite firstn_all2 in Hres by lia.
  unfold executePlan, maxExecutionSteps.
  split; [exact Hres|].
  split; [now rewrite Hres, walked_ids|].
  split; [exact Hall|].
  split; [|split; [|exact Hs]].
  - rewrite Hn. unfold executePlan_with. rewrite loop_totalSteps. lia.
  - rewrite Ht.
    destruct (Nat.ltb_spec (length (steps plan)) 5); [reflexivity | lia].
Qed.

Lemma generated_plan_runs_to_its_end_witness :
  let plan := read_plan (generatePlan "plan_1" "fox" (Resolved fox_analysis)) in
  let r := executePlan quiet_actions plan in
  executionResults r = walked quiet_actions 0 (steps plan) /\
  map er_stepId (executionResults r) = map step_id (steps plan) /\
  Forall (fun r => er_success r = true) (executionResults r) /\
  stepsExecuted r = totalSteps r /\
  termination r = CursorEmpty /\
  success r = false.
Proof.
  apply (generated_plan_runs_to_its_end quiet_actions "plan_1" "fox"
           (Resolved fox_analysis)).
  repeat split.
Defined.

(** X23: the url of a navigation step of a generated plan is the text
    of the placeholder: whatever the earlier steps found, the navigation
    handler is called with ['{{result.0.url}}'] and the query. *)
Theorem navigation_url_is_the_placeholder actionModule id query analysis
    step now :
  let plan := generatePlan id query analysis in
  In step (steps (read_plan plan)) ->
  step_type step = "navigation"%string ->
  executeStep actionModule now step =
  Resolved
    (Exec.executeNavigation actionModule now (Some "{{result.0.url}}"%string)
       (Some (cp_query plan))).
Proof.
  cbv zeta. plan_cases id query analysis; cbn; intros Hin Htype;
    repeat (destruct Hin as [<-|Hin]; [try discriminate; reflexivity|]);
    contradiction.
Qed.

Lemma navigation_url_is_the_placeholder_witness :
  executeStep quiet_actions 1
    (read_step
       {| ps_id := "2"; ps_type := "navigation";
          ps_description := "Navigate to best matching page";
          ps_tool := "navigate_to_page";
          ps_parameters :=
            Some (NavigationParameters "{{result.0.url}}" "fox");
          ps_dependencies := Some ["1"%string] |}) =
  Resolved
    (Exec.executeNavigation quiet_actions 1 (Some "{{result.0.url}}"%string)
       (Some (cp_query (generatePlan "plan_1" "fox" (Rejected "no analysis"))))).
Proof.
  apply (navigation_url_is_the_placeholder quiet_actions "plan_1" "fox"
           (Rejected "no analysis")).
  - right. left. reflexivity.
  - reflexivity.
Defined.

End PlanningFacts.

(** * The action module over its managers *)

Module ActionFacts.
Import Exec ExecFacts Walk WalkFacts Planning PlanningFacts Action.

Lemma works_succeeds browser :
  works browser -> succeeds (actionModule browser).
Proof.
  intros (Hs & Hn & Hh). split; [|split].
  - intros now query. cbn [Exec.executeSearch actionModule].
    unfold executeSearch. destruct (Hs now query) as [items ->].
    reflexivity.
  - intros now url text. cbn [Exec.executeNavigation actionModule].
    unfold executeNavigation. destruct (Hn now url text) as [done ->].
    reflexivity.
  - intros now text. cbn [Exec.executeHighlight actionModule].
    unfold executeHighlight. destruct (Hh now text) as [count ->].
    reflexivity.
Qed.

Lemma collect_cons r l : collect (r :: l) = collect [r] ++ collect l.
Proof. unfold collect. cbn [flat_map]. now rewrite app_nil_r. Qed.

(** What a record of the action module adds to the results of the run:
    the items of a search that resolved, and nothing else. *)
Lemma collect_record browser now step :
  collect [record_of (actionModule browser) now step] =
  if (step_type step =? "search")%string then
    match step_parameters step with
    | Some p =>
        match sendSearchQuery browser now (p_query p) with
        | Resolved items => default [] items
        | Rejected _ => []
        end
    | None => []
    end
  else [].
Proof.
  unfold record_of, executeStep.
  destruct (step_type step =? "search")%string.
  { destruct (step_parameters step) as [p|]; [|reflexivity].
    cbn [Exec.executeSearch actionModule]. unfold executeSearch, performSearch.
    destruct (sendSearchQuery browser now (p_query p)) as [items|e];
      cbn; [now rewrite app_nil_r | reflexivity]. }
  destruct (step_type step =? "navigation")%string.
  { destruct (step_parameters step) as [p|]; [|reflexivity].
    cbn [Exec.executeNavigation actionModule]. unfold executeNavigation.
    now destruct (navigateTo browser now (p_url p) (p_highlightText p)). }
  destruct (step_type step =? "highlight")%string.
  { destruct (step_parameters step) as [p|]; [|reflexivity].
    cbn [Exec.executeHighlight actionModule]. unfold executeHighlight.
    now destruct (highlightText browser now (p_text p)). }
  now destruct (step_type step =? "analysis")%string.
Qed.

(** X24: when every request to the browser resolves, the run of a
    generated plan calls all its steps, and its [results] are the items
    the search of the first iteration returned (none when the response
    has no [results]): the navigation, highlight and analysis steps add
    nothing. *)
Theorem run_returns_the_search_results browser id query analysis :
  works browser ->
  let plan := generatePlan id query analysis in
  let r := executePlan (actionModule browser) (read_plan plan) in
  exists items,
    sendSearchQuery browser 0 (Some (cp_query plan)) = Resolved items /\
    results r = default [] items /\
    stepsExecuted r = length (cp_steps plan).
Proof.
  intros Hw. cbv zeta.
  pose proof (works_succeeds browser Hw) as Hok.
  destruct (generated_plan_shape id query analysis)
    as (Hids & Hrun & Hord & Hlen).
  destruct (executePlan_with_walks (actionModule browser) _ Hok Hids Hrun
              Hord maxExecutionSteps) as (_ & _ & Hn & Hres & _ & _).
  unfold executePlan. rewrite Hres, Hn. clear Hres Hn.
  unfold maxExecutionSteps.
  rewrite firstn_all2 by lia. rewrite Nat.min_r by lia.
  cbn [read_plan steps]. rewrite length_map.
  destruct Hw as (Hs & _).
  plan_cases id query analysis;
    cbn [cp_steps cp_query customizeTemplate search_navigate deep_analysis
         tpl_steps map createFallbackPlan walked];
    destruct (Hs 0 (Some (a_query a))) as [items Hitems]
    || destruct (Hs 0 (Some query)) as [items Hitems];
    exists items; (split; [exact Hitems|]); (split; [|reflexivity]);
    repeat (rewrite collect_cons, collect_record); cbn; rewrite Hitems;
    now rewrite ?app_nil_r.
Qed.

Lemma working_browser_works : works working_browser.
Proof. repeat split; intros; eexists; reflexivity. Qed.

Lemma run_returns_the_search_results_witness :
  let plan := generatePlan "plan_1" "fox" (Resolved fox_analysis) in
  let r := executePlan (actionModule working_browser) (read_plan plan) in
  exists items,
    sendSearchQuery working_browser 0 (Some (cp_query plan)) =
      Resolved items /\
    results r = default [] items /\
    stepsExecuted r = length (cp_steps plan).
Proof.
  apply (run_returns_the_search_results working_browser "plan_1" "fox"
           (Resolved fox_analysis)).
  exact working_browser_works.
Defined.

(** A first step whose handler resolves with a failure, followed by a
    step that depends on it: the failure is recorded, and the rest of
    the budget is spent waiting. *)
Lemma failed_first_step_blocks actionModule plan s1 s2 rest res deps budget :
  steps plan = s1 :: s2 :: rest ->
  step_id s1 <> ""%string ->
  step_id s2 <> ""%string ->
  step_id s2 <> step_id s1 ->
  step_dependencies s1 = None ->
  executeStep actionModule 0 s1 = Resolved res ->
  hr_success res = false ->
  step_dependencies s2 = Some deps ->
  In (step_id s1) deps ->
  let r := executePlan_with actionModule plan (S budget) in
  executionResults r = [record_of actionModule 0 s1] /\
  termination r = BudgetSpent.
Proof.
  intros Hsteps Hid1 Hid2 Hne Hdep1 Hex Hfail Hdep2 Hin.
  assert (Hf1 : find_step plan (step_id s1) = Some s1).
  { unfold find_step. rewrite Hsteps. cbn [find].
    now rewrite String.eqb_refl. }
  assert (Hf2 : find_step plan (step_id s2) = Some s2).
  { unfold find_step. rewrite Hsteps. cbn [find].
    destruct (String.eqb_spec (step_id s1) (step_id s2)) as [E|_];
      [now elim Hne|].
    now rewrite String.eqb_refl. }
  cbv zeta. unfold executePlan_with. rewrite Hsteps.
  cbn [nth_error option_map executePlan_loop].
  assert (Hfalsy : falsy (Some (step_id s1)) = false).
  { unfold falsy, truthy. apply String.eqb_neq in Hid1. now rewrite Hid1. }
  rewrite Hfalsy. cbn [default]. rewrite Hf1.
  rewrite (decide_met actionModule plan (step_id s1) s1 [] 0 Hf1)
    by (now rewrite Hdep1).
  rewrite Hex.
  assert (Hnext : getNextStepId plan (step_id s1) = Some (step_id s2)).
  { unfold getNextStepId. rewrite Hsteps. cbn [findIndex].
    now rewrite String.eqb_refl. }
  rewrite Hnext. cbn [app].
  assert (Hrec : record_of actionModule 0 s1 =
                 {| er_stepId := step_id s1; er_success := hr_success res;
                    er_data := data_or_results res;
                    er_error := hr_error res |}).
  { unfold record_of. now rewrite Hex. }
  rewrite <- Hrec.
  apply (loop_waits actionModule plan (step_id s2) s2
           [record_of actionModule 0 s1] Hf2 Hid2).
  exists deps, (step_id s1). split; [exact Hdep2|]. split; [exact Hin|].
  rewrite Hrec. unfold has_success. cbn [existsb er_stepId er_success].
  rewrite Hfail. now rewrite andb_false_r.
Qed.

(** X25: when the search request of the first iteration fails, the
    action module resolves with a failure and no error is thrown, so
    that the search, though of a retryable type, is not retried: the
    run of a generated plan records this one failure, returns no result
    and spends the rest of its budget waiting on the next step. *)
Theorem failed_search_is_not_retried browser id query analysis message :
  let plan := generatePlan id query analysis in
  sendSearchQuery browser 0 (Some (cp_query plan)) = Rejected message ->
  let r := executePlan (actionModule browser) (read_plan plan) in
  exists first,
    nth_error (steps (read_plan plan)) 0 = Some first /\
    step_type first = "search"%string /\
    executionResults r =
      [{| er_stepId := step_id first; er_success := false;
          er_data := Some [];
          er_error := if truthy (Some message) then Some message
                      else None |}] /\
    stepsExecuted r = 1 /\
    results r = [] /\
    termination r = BudgetSpent.
Proof.
  cbv zeta. intros Hq.
  assert (Hgen : forall plan s1 s2 rest q deps,
             steps plan = s1 :: s2 :: rest ->
             step_id s1 <> ""%string -> step_id s2 <> ""%string ->
             step_id s2 <> step_id s1 ->
             step_dependencies s1 = None ->
             step_type s1 = "search"%string ->
             step_parameters s1 =
               Some {| p_query := Some q; p_url := None;
                       p_highlightText := None; p_text := None |} ->
             sendSearchQuery browser 0 (Some q) = Rejected message ->
             step_dependencies s2 = Some deps -> In (step_id s1) deps ->
             let r := executePlan (actionModule browser) plan in
             executionResults r =
               [{| er_stepId := step_id s1; er_success := false;
                   er_data := Some [];
                   er_error := if truthy (Some message) then Some message
                               else None |}] /\
             stepsExecuted r = 1 /\ results r = [] /\
             termination r = BudgetSpent).
  { intros plan s1 s2 rest q deps Hsteps H1 H2 H21 Hd1 Ht Hp Hs Hd2 Hin.
    assert (Hex : executeStep (actionModule browser) 0 s1 =
                  Resolved (ToolCallResult false None None (Some message))).
    { unfold executeStep. rewrite Ht, Hp. cbn [String.eqb Ascii.eqb Bool.eqb].
      cbn [Exec.executeSearch actionModule p_query].
      unfold executeSearch, performSearch. now rewrite Hs. }
    destruct (failed_first_step_blocks (actionModule browser) plan s1 s2 rest
                _ deps 4 Hsteps H1 H2 H21 Hd1 Hex eq_refl Hd2 Hin)
      as (Hres & Hterm).
    assert (Hrec : record_of (actionModule browser) 0 s1 =
                   {| er_stepId := step_id s1; er_success := false;
                      er_data := Some [];
                      er_error := if truthy (Some message) then Some message
                                  else None |}).
    { unfold record_of. rewrite Hex. reflexivity. }
    cbv zeta. unfold executePlan, maxExecutionSteps.
    rewrite <- Hrec, <- Hres.
    split; [reflexivity|].
    split; [unfold executePlan_with; rewrite loop_stepsExecuted;
            fold (executePlan_with (actionModule browser) plan 5);
            now rewrite Hres|].
    split; [|exact Hterm].
    unfold executePlan_with. rewrite loop_results.
    fold (executePlan_with (actionModule browser) plan 5).
    rewrite Hres, Hrec. reflexivity. }
  revert Hq.
  plan_cases id query analysis; intros Hq; eexists;
    (split; [reflexivity|]); (split; [reflexivity|]);
    eapply Hgen; try reflexivity; try exact Hq; try discriminate;
    now left.
Qed.

Lemma failed_search_is_not_retried_witness :
  let plan := generatePlan "plan_1" "fox" (Resolved fox_analysis) in
  let r := executePlan (actionModule deaf_browser) (read_plan plan) in
  exists first,
    nth_error (steps (read_plan plan)) 0 = Some first /\
    step_type first = "search"%string /\
    executionResults r =
      [{| er_stepId := step_id first; er_success := false;
          er_data := Some [];
          er_error :=
            if truthy (Some "Could not establish connection"%string)
            then Some "Could not establish connection"%string
            else None |}] /\
    stepsExecuted r = 1 /\
    results r = [] /\
    termination r = BudgetSpent.
Proof.
  apply (failed_search_is_not_retried deaf_browser "plan_1" "fox"
           (Resolved fox_analysis) "Could not establish connection").
  reflexivity.
Defined.

End ActionFacts.

(** * The histories *)

Module HistoryFacts.
Import Exec ExecFacts Action Agent.

Lemma slice_last_all {A : Type} n (l : list A) :
  length l <= n -> slice_last n l = l.
Proof.
  intros H. unfold slice_last.
  replace (length l - n) with 0 by lia. reflexivity.
Qed.

Lemma length_slice_last {A : Type} n (l : list A) :
  length (slice_last n l) = Nat.min n (length l).
Proof. unfold slice_last. rewrite length_skipn. lia. Qed.

Lemma slice_last_snoc {A : Type} n (l : list A) x :
  1 <= n ->
  slice_last n (slice_last n l ++ [x]) = slice_last n (l ++ [x]).
Proof.
  intros Hn. unfold slice_last.
  rewrite !length_app, length_skipn. cbn [length].
  destruct (Nat.le_gt_cases n (length l)) as [Hk|Hk].
  - rewrite !skipn_app, skipn_skipn, length_skipn.
    replace (length l - (length l - n) + 1 - n + (length l - n))
      with (length l + 1 - n) by lia.
    replace (length l - (length l - n) + 1 - n -
             (length l - (length l - n))) with 0 by lia.
    replace (length l + 1 - n - length l) with 0 by lia.
    reflexivity.
  - replace (length l - n) with 0 by lia. cbn [skipn].
    now rewrite Nat.sub_0_r.
Qed.

(** Pushing on a history that holds the last [cap] entries, and cutting
    it again, gives the last [cap] entries. *)
Lemma capped_push {A : Type} cap (l : list A) x :
  1 <= cap ->
  (if cap <? length (slice_last cap l ++ [x])
   then slice_last cap (slice_last cap l ++ [x])
   else slice_last cap l ++ [x]) =
  slice_last cap (l ++ [x]).
Proof.
  intros Hcap.
  destruct (Nat.ltb_spec cap (length (slice_last cap l ++ [x]))) as [H|H].
  - now apply slice_last_snoc.
  - rewrite <- (slice_last_snoc cap l x Hcap).
    symmetry. now apply slice_last_all.
Qed.

Lemma slice_last_slice_last {A : Type} n m (l : list A) :
  slice_last n (slice_last m l) = slice_last (Nat.min n m) l.
Proof.
  unfold slice_last. rewrite skipn_skipn, length_skipn. f_equal. lia.
Qed.

Lemma executePlans_from actionModule plans : forall all,
  executePlans actionModule plans (slice_last 100 all) =
  slice_last 100 (all ++ map (Exec.executePlan actionModule) plans).
Proof.
  induction plans as [|plan plans IH]; intros all.
  - now rewrite app_nil_r.
  - cbn [executePlans fold_left map] in *.
    unfold executePlan at 2. cbn [snd]. unfold remember.
    rewrite capped_push by lia. unfold executePlans in IH.
    rewrite IH. now rewrite <- app_assoc.
Qed.

Lemma filter_none {A : Type} (f : A -> bool) l :
  (forall x, In x l -> f x = false) -> filter f l = [].
Proof.
  induction l as [|x l IH]; intros H; [reflexivity|].
  cbn [filter]. rewrite (H x (or_introl eq_refl)).
  apply IH. intros y Hy. apply H. now right.
Qed.

(** X26: the history of the agent holds the reports of the last 100
    executed plans, in their order; [getStats] counts them, and counts
    no successful query whatever was executed; [getHistory] returns the
    last [limit] reports of the history for a positive [limit], and the
    whole history for the limit 0. *)
Theorem history_keeps_the_last_hundred actionModule plans :
  let reports := map (Exec.executePlan actionModule) plans in
  let history := executePlans actionModule plans [] in
  history = slice_last 100 reports /\
  getStats history = (Nat.min 100 (length plans), 0) /\
  getHistory history (Some 0) = history /\
  (forall limit,
     1 <= limit ->
     getHistory history (Some limit) =
     slice_last (Nat.min limit 100) reports).
Proof.
  cbv zeta.
  pose proof (executePlans_from actionModule plans []) as H.
  cbn [app] in H. change (slice_last 100 []) with (@nil Report) in H.
  rewrite H. split; [reflexivity|]. split; [|split].
  - unfold getStats. rewrite length_slice_last, length_map.
    rewrite filter_none; [reflexivity|].
    intros r Hr. unfold slice_last in Hr.
    assert (Hin : In r (map (Exec.executePlan actionModule) plans)).
    { rewrite <- (firstn_skipn
                    (length (map (Exec.executePlan actionModule) plans) - 100)
                    (map (Exec.executePlan actionModule) plans)).
      apply in_or_app. now right. }
    apply in_map_iff in Hin as (plan & <- & _).
    apply executePlan_never_succeeds.
  - reflexivity.
  - intros limit Hlimit. unfold getHistory. cbn [default].
    destruct (Nat.eqb_spec limit 0); [lia|].
    apply slice_last_slice_last.
Qed.

Lemma performSearches_from calls : forall all,
  performSearches calls (slice_last 50 all) =
  slice_last 50 (all ++ pushed_by calls).
Proof.
  induction calls as [|[response query] calls IH]; intros all.
  - cbn. now rewrite app_nil_r.
  - cbn [performSearches fold_left pushed_by flat_map fst snd] in *.
    unfold performSearches in IH.
    destruct response as [results|e]; cbn [performSearch snd].
    + rewrite capped_push by lia. rewrite IH. now rewrite <- app_assoc.
    + apply IH.
Qed.

(** X27: the history of the search manager holds the last 50 searches
    that were answered, in their order; a search whose request fails
    leaves no entry. *)
Theorem searchHistory_keeps_the_last_fifty calls :
  performSearches calls [] = slice_last 50 (pushed_by calls) /\
  length (performSearches calls []) = Nat.min 50 (length (pushed_by calls)).
Proof.
  pose proof (performSearches_from calls []) as H.
  cbn [app] in H. change (slice_last 50 []) with (@nil Search) in H.
  rewrite H. split; [reflexivity | apply length_slice_last].
Qed.

End HistoryFacts.
